(** * GitHub metrics dashboard: the repository-ingestion pipeline of [src/App.js]

    A shallow embedding of [extractRepoInfo], [fetchGitHubRepoData],
    [fetchRepos] and [handleSubmit], together with the fragment of the
    JavaScript platform these functions rely on: binary64 numbers,
    [Math.round], truthiness, [String.prototype.split], exceptions. *)

From Stdlib Require Import ZArith List String Ascii Bool Lia.
From Stdlib Require Import Sorting.Sorted Sorting.Permutation.
From Stdlib Require Import Numbers.DecimalString Numbers.DecimalZ Numbers.DecimalFacts.
From Stdlib Require Import Floats.SpecFloat.
From Stdlib Require Import QArith Qabs Qpower Qround Lqa.
Import ListNotations.

Local Open Scope string_scope.
Local Open Scope list_scope.
Local Open Scope Z_scope.

(** ** JavaScript numbers

    A JavaScript Number is an IEEE-754 binary64 value.  The arithmetic
    operators are the correctly rounded operations of the standard
    library's executable specification, at precision 53 and maximal
    exponent 1024. *)
Module JSNumber.

Definition prec : Z := 53.
Definition emax : Z := 1024.

Definition Number : Set := spec_float.

(** The Number denoted by an integer literal, and the value [JSON.parse]
    gives an integer token: the nearest binary64 value. *)
Definition of_Z (n : Z) : Number := binary_normalize prec emax n 0 false.

Definition add : Number -> Number -> Number := SFadd prec emax.
Definition sub : Number -> Number -> Number := SFsub prec emax.
Definition mul : Number -> Number -> Number := SFmul prec emax.
Definition div : Number -> Number -> Number := SFdiv prec emax.

(** The values [Math.round] can return: an integer, the negative zero, NaN
    or an infinity.  An integral Number is kept as the integer it denotes
    (every integer [Math.round] produces is either its argument or lies
    below 2^53, so nothing is lost). *)
Inductive Integral : Set :=
| Int (z : Z)
| NegZero
| NaN
| Infinity (negative : bool).

(** [floor (v * 2^e + 1/2)], computed exactly. *)
Definition floor_half_up (v e : Z) : Z :=
  if 0 <=? e then v * 2 ^ e
  else (2 * v + 2 ^ (- e)) / 2 ^ (1 - e).

(** [Math.round(x)]: the integer closest to [x], ties going towards
    +Infinity; a result of zero keeps the sign of a negative argument. *)
Definition Math_round (x : Number) : Integral :=
  match x with
  | S754_nan => NaN
  | S754_infinity s => Infinity s
  | S754_zero s => if s then NegZero else Int 0
  | S754_finite s m e =>
      let n := floor_half_up (if s then Z.neg m else Z.pos m) e in
      if (n =? 0) && s then NegZero else Int n
  end.

(** Truthiness of a Number: everything except the zeros and NaN. *)
Definition truthy (x : Number) : bool :=
  match x with
  | S754_zero _ | S754_nan => false
  | _ => true
  end.

End JSNumber.

Import JSNumber.

(** ** JavaScript values, strings and exceptions *)
Module JS.

(** The primitive values a field of a parsed JSON payload can hold
    ([JSUndefined] standing for a missing key). *)
Inductive Value : Set :=
| JSUndefined
| JSNull
| JSBoolean (b : bool)
| JSNum (x : Number)
| JSString (s : string).

(** [Boolean(v)], the truthiness test behind [?:], [||] and
    [filter(Boolean)]. *)
Definition Boolean (v : Value) : bool :=
  match v with
  | JSUndefined | JSNull => false
  | JSBoolean b => b
  | JSNum x => truthy x
  | JSString s => negb (s =? "")%string
  end.

(** [a || b]. *)
Definition or_else (a b : Value) : Value := if Boolean a then a else b.

(** [s.split(sep)] for a one-character separator: the pieces between
    successive separators, empty pieces included. *)
Fixpoint split (sep : ascii) (s : string) : list string :=
  match s with
  | EmptyString => [EmptyString]
  | String c rest =>
      if Ascii.eqb c sep then EmptyString :: split sep rest
      else match split sep rest with
           | seg :: segs => String c seg :: segs
           | [] => [String c EmptyString]
           end
  end.

(** [parts.filter(Boolean)] on an array of strings. *)
Definition filter_Boolean (parts : list string) : list string :=
  filter (fun p => Boolean (JSString p)) parts.

(** Decimal rendering of an integer, as [String(n)] prints an integral
    Number of magnitude below 2^53. *)
Definition Z_toString (z : Z) : string := NilZero.string_of_int (Z.to_int z).

(** The exponent notation [String(n)] uses for an integral Number [z]
    of magnitude 10^21 or more: the shortest digit string that still
    denotes [z] among the binary64 values, then [e+] and the decimal
    exponent. *)
Section Exponential.

(** Four times the bounds of the interval of reals that round to [z], and
    whether the bounds belong to it (they do when the significand of [z]
    is even). *)
Definition rounding_interval (z : Z) : Z * Z * bool :=
  let u := 2 ^ (Z.log2 z + 1 - 53) in
  let m := z / u in
  (4 * z - (if m =? 2 ^ 52 then u else 2 * u), 4 * z + 2 * u, Z.even m).

Definition rounds_to (z v : Z) : bool :=
  let '(lo, hi, closed) := rounding_interval z in
  if closed then (lo <=? 4 * v) && (4 * v <=? hi)
  else (lo <? 4 * v) && (4 * v <? hi).

(** The best decimal with [k] significant digits, if one denotes [z]. *)
Definition with_digits (z digits k : Z) : option Z :=
  let scale := 10 ^ (digits - k) in
  let below := z / scale * scale in
  let above := below + scale in
  match rounds_to z below, rounds_to z above with
  | true, true =>
      if z - below <? above - z then Some below
      else if above - z <? z - below then Some above
      else if Z.even (z / scale) then Some below else Some above
  | true, false => Some below
  | false, true => Some above
  | false, false => None
  end.

Fixpoint shortest_from (fuel : nat) (z digits k : Z) : Z :=
  match fuel with
  | O => z
  | S fuel' =>
      match with_digits z digits k with
      | Some v => v
      | None => shortest_from fuel' z digits (k + 1)
      end
  end.

Fixpoint drop_zeros (fuel : nat) (v : Z) : Z :=
  match fuel with
  | O => v
  | S fuel' => if v mod 10 =? 0 then drop_zeros fuel' (v / 10) else v
  end.

Definition exponential_positive (z : Z) : string :=
  let digits := Z.of_nat (String.length (Z_toString z)) in
  let v := shortest_from 17 z digits 1 in
  let n := String.length (Z_toString v) in
  let significand := Z_toString (drop_zeros n v) in
  match significand with
  | String d EmptyString => String d EmptyString
  | String d rest => String d ("." ++ rest)
  | EmptyString => EmptyString
  end ++ "e+" ++ Z_toString (Z.of_nat n - 1).

Definition Number_toString_exponential (z : Z) : string :=
  if z <? 0 then "-" ++ exponential_positive (- z) else exponential_positive z.

End Exponential.

(** The positional notation [String(n)] uses for an integral Number [z]
    of magnitude from 2^53 up to 10^21: the shortest digit string that
    still denotes [z] among the binary64 values, padded with zeros
    ([String(999999999999999868928)] is "999999999999999900000"). *)
Definition positional_positive (z : Z) : string :=
  Z_toString (shortest_from 17 z (Z.of_nat (String.length (Z_toString z))) 1).

Definition Number_toString_positional (z : Z) : string :=
  if z <? 0 then "-" ++ positional_positive (- z) else positional_positive z.

(** [String(n)] for the results of [Math.round].  Below 2^53 every
    integer is a Number and no other integer rounds to it, so the
    shortest digits that denote it are its own. *)
Definition Integral_toString (n : Integral) : string :=
  match n with
  | Int z =>
      if Z.abs z <? 2 ^ 53 then Z_toString z
      else if Z.abs z <? 10 ^ 21 then Number_toString_positional z
      else Number_toString_exponential z
  | NegZero => "0"
  | NaN => "NaN"
  | Infinity s => if s then "-Infinity" else "Infinity"
  end.

(** A thrown value; the program only ever reads its [message]. *)
Record Error : Set := mkError { message : string }.

(** The outcome of evaluating a block: normal completion with a value, or
    an exception. *)
Inductive Completion (A : Type) : Type :=
| Return (a : A)
| Throw (e : Error).
Arguments Return {A} a.
Arguments Throw {A} e.

Definition bind {A B} (c : Completion A) (k : A -> Completion B) : Completion B :=
  match c with
  | Return a => k a
  | Throw e => Throw e
  end.

(** [try { c } catch (err) { handler err }]. *)
Definition try_catch {A} (c : Completion A) (handler : Error -> Completion A)
  : Completion A :=
  match c with
  | Return a => Return a
  | Throw e => handler e
  end.

Definition throws {A} (c : Completion A) : Prop := exists e, c = Throw e.

(** [new URL(input)]: the components the program reads, and the rest of
    the parsed address. *)
Record URL : Set := mkURL {
  hostname : string;
  pathname : string;
  search : string;
  hash : string
}.

(** The largest time value of a Date, in milliseconds from the epoch. *)
Definition max_time : Z := 8640000000000000.

(** [TimeClip(x)]: the time value of [new Date(x)] for a Number [x];
    [None] is the invalid date. *)
Definition TimeClip (x : Number) : option Z :=
  match x with
  | S754_zero _ => Some 0
  | S754_finite s m e =>
      let t := if 0 <=? e then Z.pos m * 2 ^ e else Z.pos m / 2 ^ (- e) in
      let in_range :=
        if 0 <=? e then Z.pos m * 2 ^ e <=? max_time
        else Z.pos m <=? max_time * 2 ^ (- e) in
      if in_range then Some (if s then - t else t) else None
  | _ => None
  end.

(** The builtins whose algorithms are the platform's own: the URL
    parser (throwing a TypeError on an unparsable input) and the
    date-string parser (yielding a time value within [max_time], or
    [None] for an invalid date, which the empty string always is). *)
Class Platform : Type := {
  URL_new : string -> Completion URL;
  Date_parse : string -> option Z;
  Date_parse_empty : Date_parse "" = None
}.

Section Builtins.
Context {P : Platform}.

(** The time value of [new Date(v)]. *)
Definition Date_of (v : Value) : option Z :=
  match v with
  | JSString s => Date_parse s
  | JSNum x => TimeClip x
  | JSBoolean b => Some (if b then 1 else 0)
  | JSNull => Some 0
  | JSUndefined => None
  end.

(** A Date used as an operand of [-]: its time value, NaN when invalid. *)
Definition Date_valueOf (d : option Z) : Number :=
  match d with
  | Some t => of_Z t
  | None => S754_nan
  end.

End Builtins.

End JS.

Import JS.

Declare Scope js_scope.
Delimit Scope js_scope with js.
Notation "x <- c ;; k" := (bind c (fun x => k))
  (at level 61, c at next level, right associativity) : js_scope.

(** ** The persisted record and the store *)

(** The object [fetchGitHubRepoData] builds and [insert] receives.
    [createdat] is kept as the instant (milliseconds from the epoch) that
    [new Date().toISOString()] prints. *)
Record RepoRecord : Set := mkRepoRecord {
  name : string;
  owner : string;
  fullname : string;
  stars : Number;
  forks : Number;
  issues : Number;
  mainlanguage : Value;
  healthscore : Integral;
  activitylevel : string;
  trendingfactor : Integral;
  createdat : Z
}.

Module Supabase.

(** A row of the table [repos]: the inserted record and the identifier
    the store assigned to it. *)
Record Row : Set := mkRow { id : Z; fields : RepoRecord }.

(** The calls the client makes on the table. *)
Inductive Call : Set :=
| Insert (records : list RepoRecord)
| SelectAll
| Delete (row_id : Z).

(** Modelled from the spec: the hosted store behind the [supabase] client
    is not part of the sources.  Following section 6 it is a table with
    [insertOne], [selectAll(orderBy = createdAt desc)] and [deleteOne];
    [calls] records, oldest first, what the client asked of it. *)
Record Store : Set := mkStore {
  rows : list Row;
  next_id : Z;
  calls : list Call
}.

Definition empty : Store := mkStore [] 1 [].

(** The reply of the client to a call: [{ data, error }]. *)
Record Reply (A : Type) : Type := mkReply { data : A; error : option Error }.
Arguments mkReply {A} data error.
Arguments data {A} r.
Arguments error {A} r.

Fixpoint assign_ids (first : Z) (records : list RepoRecord) : list Row :=
  match records with
  | [] => []
  | r :: rest => mkRow first r :: assign_ids (first + 1) rest
  end.

(** [from('repos').insert(records)]; a [fault] is the error the store
    answers with, in which case nothing is written. *)
Definition insert (fault : option Error) (records : list RepoRecord) (s : Store)
  : Store * Reply unit :=
  let logged := calls s ++ [Insert records] in
  match fault with
  | Some e => (mkStore (rows s) (next_id s) logged, mkReply tt (Some e))
  | None =>
      (mkStore (rows s ++ assign_ids (next_id s) records)
               (next_id s + Z.of_nat (List.length records)) logged,
       mkReply tt None)
  end.

Definition newer_or_same (a b : Row) : bool :=
  createdat (fields b) <=? createdat (fields a).

Fixpoint place (r : Row) (sorted : list Row) : list Row :=
  match sorted with
  | [] => [r]
  | x :: rest => if newer_or_same r x then r :: sorted else x :: place r rest
  end.

(** The rows ordered by [createdat], newest first. *)
Definition order_createdat_desc (l : list Row) : list Row :=
  fold_right place [] l.

(** [from('repos').select('*').order('createdat', { ascending: false })]. *)
Definition select_ordered (fault : option Error) (s : Store)
  : Store * Reply (list Row) :=
  let logged := mkStore (rows s) (next_id s) (calls s ++ [SelectAll]) in
  match fault with
  | Some e => (logged, mkReply [] (Some e))
  | None => (logged, mkReply (order_createdat_desc (rows s)) None)
  end.

(** The number of [insert] calls the store has received. *)
Definition insert_calls (s : Store) : nat :=
  List.length (filter (fun c => match c with Insert _ => true | _ => false end) (calls s)).

(** Modelled from the spec: [from('repos').delete().eq('id', row_id)],
    the [deleteOne] of section 6.  Every row whose identifier is [row_id]
    goes; a [fault] is the error the store answers with, in which case
    nothing is removed. *)
Definition delete (fault : option Error) (row_id : Z) (s : Store)
  : Store * Reply unit :=
  let logged := calls s ++ [Delete row_id] in
  match fault with
  | Some e => (mkStore (rows s) (next_id s) logged, mkReply tt (Some e))
  | None =>
      (mkStore (filter (fun r => negb (id r =? row_id)) (rows s))
               (next_id s) logged,
       mkReply tt None)
  end.

End Supabase.

(** ** The remote provider *)
Module GitHub.

(** The fields of the repository-detail payload the program reads. *)
Record RepoData : Set := mkRepoData {
  data_name : string;
  owner_login : string;
  full_name : string;
  stargazers_count : Number;
  forks_count : Number;
  open_issues_count : Number;
  language : Value;
  pushed_at : Value
}.

(** What reading the response body yields. *)
Inductive Body : Set :=
| BodyThrows (e : Error)
    (* [response.json()] rejects, or the payload has no [owner] object and
       [data.owner.login] raises a TypeError *)
| BodyData (d : RepoData).

(** What [await fetch(url)] yields once the request has settled.  A
    request that never settles has no outcome here: the handler then
    never reaches the statements after the [await]. *)
Inductive FetchOutcome : Set :=
| Rejected (cause : Error)             (* transport-level failure *)
| Response (status : Z) (body : Body).

(** [response.ok]: the status is in the range 200-299. *)
Definition ok (status : Z) : bool := (200 <=? status) && (status <=? 299).

End GitHub.

Import GitHub.

(** ** The application *)

(** The identity [extractRepoInfo] returns. *)
Module RepoInfo.
Record t : Set := mk { owner : string; name : string; fullName : string }.
End RepoInfo.

Module App.

(** The component's state cells ([useState]). *)
Record State : Set := mkState {
  url : string;
  repos : list Supabase.Row;
  loading : bool;
  error : string;
  detailedError : string;
  showDetailedError : bool
}.

Definition initial : State := mkState "" [] false "" "" false.

Definition setUrl (v : string) (s : State) : State :=
  mkState v (repos s) (loading s) (error s) (detailedError s) (showDetailedError s).
Definition setRepos (v : list Supabase.Row) (s : State) : State :=
  mkState (url s) v (loading s) (error s) (detailedError s) (showDetailedError s).
Definition setLoading (v : bool) (s : State) : State :=
  mkState (url s) (repos s) v (error s) (detailedError s) (showDetailedError s).
Definition setError (v : string) (s : State) : State :=
  mkState (url s) (repos s) (loading s) v (detailedError s) (showDetailedError s).
Definition setDetailedError (v : string) (s : State) : State :=
  mkState (url s) (repos s) (loading s) (error s) v (showDetailedError s).
Definition setShowDetailedError (v : bool) (s : State) : State :=
  mkState (url s) (repos s) (loading s) (error s) (detailedError s) v.

(** What the world answers during one user action: the provider's reply
    to a request, the two clock readings of [fetchGitHubRepoData]
    ([Date.now()] and [new Date()]), and the store's faults. *)
Record Env : Type := mkEnv {
  fetch : string -> FetchOutcome;
  Date_now : Z;
  Date_new : Z;
  insert_fault : option Error;
  select_fault : option Error
}.

(** The component's state together with the store it talks to. *)
Record World : Set := mkWorld { ui : State; db : Supabase.Store }.

(** Handlers are state transformers that may throw; a thrown exception
    keeps the effects made before it.  They describe the runs in which
    every awaited call settles. *)
Definition M (A : Type) : Type := World -> Completion A * World.

Definition ret {A} (a : A) : M A := fun w => (Return a, w).
Definition throw {A} (e : Error) : M A := fun w => (Throw e, w).
Definition lift {A} (c : Completion A) : M A := fun w => (c, w).
Definition mbind {A B} (m : M A) (k : A -> M B) : M B :=
  fun w =>
    match m w with
    | (Return a, w') => k a w'
    | (Throw e, w') => (Throw e, w')
    end.
Definition catch {A} (m : M A) (handler : Error -> M A) : M A :=
  fun w =>
    match m w with
    | (Return a, w') => (Return a, w')
    | (Throw e, w') => handler e w'
    end.
Definition set (f : State -> State) : M unit :=
  fun w => (Return tt, mkWorld (f (ui w)) (db w)).
Definition query {A} (op : Supabase.Store -> Supabase.Store * Supabase.Reply A)
  : M (Supabase.Reply A) :=
  fun w => let (s, r) := op (db w) in (Return r, mkWorld (ui w) s).

Declare Scope app_scope.
Delimit Scope app_scope with app.
Notation "x <- c ;; k" := (mbind c (fun x => k))
  (at level 61, c at next level, right associativity) : app_scope.
Notation "c ;; k" := (mbind c (fun _ => k))
  (at level 61, right associativity) : app_scope.

(** [err.message || 'No additional error details available']. *)
Definition details (err : Error) : string :=
  if Boolean (JSString (message err)) then message err
  else "No additional error details available".

(** [1000 * 60 * 60 * 24], the milliseconds of a day. *)
Definition ms_per_day : Number :=
  mul (mul (mul (of_Z 1000) (of_Z 60)) (of_Z 60)) (of_Z 24).

Section Handlers.
Context {P : Platform}.

(** The body of the [try] block of [extractRepoInfo]. *)
Definition extractRepoInfo_body (url : string) : Completion RepoInfo.t :=
  (urlObj <- URL_new url ;;
   if negb (hostname urlObj =? "github.com")%string
   then Throw (mkError "Not a valid GitHub URL")
   else
     let pathParts := filter_Boolean (split "/" (pathname urlObj)) in
     if (List.length pathParts <? 2)%nat
     then Throw (mkError "Not a valid repository URL")
     else
       let p0 := nth 0 pathParts "" in
       let p1 := nth 1 pathParts "" in
       Return (RepoInfo.mk p0 p1 (p0 ++ "/" ++ p1)%string))%js.

Definition extractRepoInfo (url : string) : Completion RepoInfo.t :=
  try_catch (extractRepoInfo_body url)
            (fun err => Throw (mkError "Invalid GitHub URL format")).

(** The object literal [fetchGitHubRepoData] returns on a readable
    payload. *)
Definition repoData (env : Env) (data : RepoData) : RepoRecord :=
  {| name := data_name data;
     owner := owner_login data;
     fullname := full_name data;
     stars := stargazers_count data;
     forks := forks_count data;
     issues := open_issues_count data;
     mainlanguage := or_else (language data) (JSString "Unknown");
     healthscore :=
       Math_round
         (mul (sub (of_Z 1)
                   (div (open_issues_count data)
                        (add (stargazers_count data) (of_Z 1))))
              (of_Z 100));
     activitylevel :=
       if Boolean (pushed_at data)
       then (Integral_toString
               (Math_round
                  (div (sub (of_Z (Date_now env))
                            (Date_valueOf (Date_of (pushed_at data))))
                       ms_per_day))
             ++ " days")%string
       else "Unknown";
     trendingfactor :=
       Math_round
         (mul (div (stargazers_count data) (add (forks_count data) (of_Z 1)))
              (of_Z 10));
     createdat := Date_new env |}.

(** The address [fetchGitHubRepoData] requests:
    [`https://api.github.com/repos/${repoInfo.fullName}`]. *)
Definition request (repoInfo : RepoInfo.t) : string :=
  ("https://api.github.com/repos/" ++ RepoInfo.fullName repoInfo)%string.

(** The body of the [try] block of [fetchGitHubRepoData]. *)
Definition fetchGitHubRepoData_body (env : Env) (repoInfo : RepoInfo.t)
  : Completion RepoRecord :=
  match fetch env (request repoInfo) with
  | Rejected cause => Throw cause
  | Response status body =>
      if negb (ok status)
      then Throw (mkError ("GitHub API error: " ++ Z_toString status)%string)
      else match body with
           | BodyThrows e => Throw e
           | BodyData data => Return (repoData env data)
           end
  end.

Definition fetchGitHubRepoData (env : Env) (repoInfo : RepoInfo.t)
  : Completion RepoRecord :=
  try_catch (fetchGitHubRepoData_body env repoInfo)
            (fun err =>
               Throw (mkError ("Failed to fetch repository data: " ++ message err)%string)).

Definition fetchRepos (env : Env) : M unit :=
  (catch
     (reply <- query (Supabase.select_ordered (select_fault env)) ;;
      match Supabase.error reply with
      | Some e => throw e
      | None =>
          set (setRepos (Supabase.data reply)) ;;
          set (setError "") ;;
          set (setDetailedError "") ;;
          set (setShowDetailedError false)
      end)
     (fun err =>
        set (setError "Failed to fetch repos") ;;
        set (setDetailedError (details err))))%app.

Definition handleSubmit (env : Env) : M unit :=
  (set (setLoading true) ;;
   set (setError "") ;;
   set (setDetailedError "") ;;
   set (setShowDetailedError false) ;;
   catch
     (fun w =>
        (repoInfo <- lift (extractRepoInfo (url (ui w))) ;;
         repoData <- lift (fetchGitHubRepoData env repoInfo) ;;
         reply <- query (Supabase.insert (insert_fault env) [repoData]) ;;
         match Supabase.error reply with
         | Some e => throw e
         | None => set (setUrl "") ;; fetchRepos env
         end) w)
     (fun err =>
        set (setError "Failed to add repository") ;;
        set (setDetailedError (details err))) ;;
   set (setLoading false))%app.

(** [toggleDetailedError] (line 139). *)
Definition toggleDetailedError : M unit :=
  fun w => set (setShowDetailedError (negb (showDetailedError (ui w)))) w.

(** The [onChange] handler of the address field:
    [setUrl(e.target.value)]. *)
Definition handleChange (value : string) : M unit := set (setUrl value).

(** The [onClick] handler of the delete button of the card of the row
    [row_id] (lines 206-222).  [confirmed] is the answer of
    [window.confirm], [fault] the error the store answers the deletion
    with, if any. *)
Definition handleDelete (env : Env) (confirmed : bool) (fault : option Error)
    (row_id : Z) : M unit :=
  (if confirmed
   then
     catch
       (reply <- query (Supabase.delete fault row_id) ;;
        match Supabase.error reply with
        | Some e => throw e
        | None => fetchRepos env
        end)
       (fun err =>
          set (setError "Failed to delete repository") ;;
          set (setDetailedError (details err)))
   else ret tt)%app.

(** Running a handler from a world: the world it leaves. *)
Definition run (m : M unit) (w : World) : World := snd (m w).

End Handlers.

End App.

Import App.

(** ** What the component renders

    The conditional parts of the markup [App] returns (lines 143-294), as
    functions of the state and of a listed row. *)
Module View.

(** The caption of the submit button, which is disabled while
    [loading]. *)
Definition submit_caption (s : State) : string :=
  if loading s then "Adding..." else "Add Repository".

(** [error && (...)]: the banner and its text. *)
Definition banner (s : State) : option string :=
  if Boolean (JSString (error s)) then Some (error s) else None.

(** The caption of the button that toggles the details, inside the
    banner, rendered when [detailedError] is not empty. *)
Definition toggle_caption (s : State) : option string :=
  if Boolean (JSString (error s)) && Boolean (JSString (detailedError s))
  then Some (if showDetailedError s then "Hide details" else "See more")
  else None.

(** [showDetailedError && detailedError && (...)], inside the banner:
    the text of the details panel. *)
Definition details_panel (s : State) : option string :=
  if Boolean (JSString (error s))
     && (showDetailedError s && Boolean (JSString (detailedError s)))
  then Some (detailedError s)
  else None.

(** [n > k] for a rounded Number [n] and an integer literal [k]. *)
Definition gt (n : Integral) (k : Z) : bool :=
  match n with
  | Int z => k <? z
  | NegZero => k <? 0
  | NaN => false
  | Infinity negative => negb negative
  end.

(** [repo.healthscore > 80 ? ... : repo.healthscore > 50 ? ... : ...]. *)
Definition health_badge (r : RepoRecord) : string :=
  if gt (healthscore r) 80 then "💪"
  else if gt (healthscore r) 50 then "👍"
  else "🤔".

(** [repo.trendingfactor > 100 ? ... : repo.trendingfactor > 50 ? ... : ...]. *)
Definition trending_badge (r : RepoRecord) : string :=
  if gt (trendingfactor r) 100 then "🚀"
  else if gt (trendingfactor r) 50 then "📈"
  else "📊".

End View.

(** ** A reference platform

    A small instance of [Platform], enough to run the handlers on sample
    inputs: addresses of the form [http(s)://host/path?query#fragment]
    without credentials, port or dot segments, and UTC timestamps written
    [YYYY-MM-DDTHH:MM:SSZ], the format the provider sends. *)
Module Reference.

Fixpoint strip_prefix (p s : string) : option string :=
  match p, s with
  | EmptyString, _ => Some s
  | String a p', String b s' => if Ascii.eqb a b then strip_prefix p' s' else None
  | String _ _, EmptyString => None
  end.

(** The longest prefix free of the characters in [stops], and the rest. *)
Fixpoint span_until (stops : list ascii) (s : string) : string * string :=
  match s with
  | EmptyString => (EmptyString, EmptyString)
  | String c rest =>
      if existsb (Ascii.eqb c) stops then (EmptyString, s)
      else let (a, b) := span_until stops rest in (String c a, b)
  end.

Definition lower (c : ascii) : ascii :=
  let n := nat_of_ascii c in
  if ((65 <=? n) && (n <=? 90))%nat then ascii_of_nat (n + 32) else c.

Fixpoint lowercase (s : string) : string :=
  match s with
  | EmptyString => EmptyString
  | String c rest => String (lower c) (lowercase rest)
  end.

Definition after_scheme (input : string) : option string :=
  match strip_prefix "https://" input with
  | Some rest => Some rest
  | None => strip_prefix "http://" input
  end.

Definition URL_new (input : string) : Completion URL :=
  match after_scheme input with
  | None => Throw (mkError "Invalid URL")
  | Some rest =>
      let (host, tail) := span_until ["/"; "?"; "#"]%char rest in
      if (host =? "")%string then Throw (mkError "Invalid URL")
      else
        let (path, tail') := span_until ["?"; "#"]%char tail in
        let (query, fragment) := span_until ["#"]%char tail' in
        Return {| hostname := lowercase host;
                  pathname := if (path =? "")%string then "/" else path;
                  search := if (query =? "?")%string then "" else query;
                  hash := if (fragment =? "#")%string then "" else fragment |}
  end.

Definition digit (c : ascii) : option Z :=
  let n := Z.of_nat (nat_of_ascii c) in
  if (48 <=? n) && (n <=? 57) then Some (n - 48) else None.

Fixpoint number (acc : Z) (cs : list ascii) : option Z :=
  match cs with
  | [] => Some acc
  | c :: rest =>
      match digit c with
      | Some d => number (10 * acc + d) rest
      | None => None
      end
  end.

Definition leap (y : Z) : bool :=
  ((y mod 4 =? 0) && negb (y mod 100 =? 0)) || (y mod 400 =? 0).

Definition days_in_month (y m : Z) : Z :=
  if m =? 2 then (if leap y then 29 else 28)
  else if (m =? 4) || (m =? 6) || (m =? 9) || (m =? 11) then 30 else 31.

(** Days from 1970-01-01 to the given civil date. *)
Definition days_from_civil (y m d : Z) : Z :=
  let y' := if m <=? 2 then y - 1 else y in
  let era := y' / 400 in
  let yoe := y' - era * 400 in
  let doy := (153 * (if 2 <? m then m - 3 else m + 9) + 2) / 5 + d - 1 in
  let doe := yoe * 365 + yoe / 4 - yoe / 100 + doy in
  era * 146097 + doe - 719468.

Definition Date_parse (s : string) : option Z :=
  match list_ascii_of_string s with
  | [ya; yb; yc; yd; "-"; ma; mb; "-"; da; db; "T";
     ha; hb; ":"; na; nb; ":"; sa; sb; "Z"]%char =>
      match number 0 [ya; yb; yc; yd], number 0 [ma; mb], number 0 [da; db],
            number 0 [ha; hb], number 0 [na; nb], number 0 [sa; sb] with
      | Some y, Some m, Some d, Some hh, Some mm, Some ss =>
          if (1 <=? m) && (m <=? 12) && (1 <=? d) && (d <=? days_in_month y m)
             && (hh <=? 23) && (mm <=? 59) && (ss <=? 59)
          then Some ((((days_from_civil y m d * 24 + hh) * 60 + mm) * 60 + ss) * 1000)
          else None
      | _, _, _, _, _, _ => None
      end
  | _ => None
  end.

Definition platform : Platform :=
  {| JS.URL_new := URL_new;
     JS.Date_parse := Date_parse;
     JS.Date_parse_empty := eq_refl |}.

End Reference.

(** ** The derived metrics as the specification writes them

    Section 4.3 gives the two scores as formulas over the integers of the
    snapshot.  Here they are read over the rationals, [round] taking the
    nearest integer, halves going up as [Math.round] does. *)
Module Spec.

Local Open Scope Q_scope.

Definition round_half_up (q : Q) : Z := Qfloor (q + (1 # 2)).

(** Rounding with halves going to the even neighbour. *)
Definition round_half_even (q : Q) : Z :=
  let n := Qfloor (q + (1 # 2)) in
  if Qeq_bool (inject_Z n) (q + (1 # 2)) && Z.odd n then (n - 1)%Z else n.

(** [(1 - issues / (stars + 1)) * 100]. *)
Definition health (stars issues : Z) : Q :=
  (1 - inject_Z issues / inject_Z (stars + 1)) * 100.

(** [(stars / (forks + 1)) * 10]. *)
Definition trending (stars forks : Z) : Q :=
  (inject_Z stars / inject_Z (forks + 1)) * 10.

(** The time from [t] to [now], both in milliseconds, in days. *)
Definition elapsed (now t : Z) : Q := inject_Z (now - t) / inject_Z 86400000.

Definition healthScore (stars issues : Z) : Z := round_half_up (health stars issues).
Definition trendingFactor (stars forks : Z) : Z := round_half_up (trending stars forks).

(** [q] lies exactly half way between two integers. *)
Definition tie (q : Q) : bool :=
  Qeq_bool (inject_Z (Qfloor (q + (1 # 2)))) (q + (1 # 2)).

End Spec.

(** ** The derived metrics as the program computes them

    The expressions of lines 88 and 90 on integer counts, in binary64. *)
Module Binary64.

Definition healthScore (stars issues : Z) : Integral :=
  Math_round
    (mul (sub (of_Z 1) (div (of_Z issues) (add (of_Z stars) (of_Z 1))))
         (of_Z 100)).

Definition trendingFactor (stars forks : Z) : Integral :=
  Math_round (mul (div (of_Z stars) (add (of_Z forks) (of_Z 1))) (of_Z 10)).

(** The day count of line 89 for a last push at the instant [t]:
    [Math.round((Date.now() - new Date(pushed_at)) / (1000*60*60*24))]. *)
Definition elapsed_days (now t : Z) : Integral :=
  Math_round (div (sub (of_Z now) (of_Z t)) ms_per_day).

(** The mathematical integer of a rounded Number, when it is one. *)
Definition to_Z (n : Integral) : option Z :=
  match n with
  | Int z => Some z
  | NegZero => Some 0
  | NaN | Infinity _ => None
  end.

End Binary64.

(** ** Rounding on the binary64 grid

    The vocabulary in which the arithmetic of [JSNumber] is specified: the
    rational a Number denotes, and what it means for a Number to be the
    correctly rounded value of a rational. *)
Module Rounding.

(** The real [N / D] sits at the place [l] of the unit interval that
    starts at [m]. *)
Definition located (m : Z) (l : location) (N D : Z) : Prop :=
  match l with
  | loc_Exact => N = m * D
  | loc_Inexact Lt => 2 * (m * D) < 2 * N < 2 * (m * D) + D
  | loc_Inexact Eq => 2 * N = 2 * (m * D) + D
  | loc_Inexact Gt => 2 * (m * D) + D < 2 * N < 2 * (m * D) + 2 * D
  end.

(** The shifted significand [mrs], with its round and sticky bits, stands
    for [N / D]. *)
Definition tracks (mrs : shr_record) (N D : Z) : Prop :=
  0 <= shr_m mrs /\ located (shr_m mrs) (loc_of_shr_record mrs) N D.

(** [M] is an integer nearest to [N / D], the even one at a tie. *)
Definition nearest_even (M N D : Z) : Prop :=
  - D <= 2 * (M * D - N) <= D
  /\ (2 * (M * D - N) = D \/ 2 * (M * D - N) = - D -> Z.even M = true).

Local Open Scope Q_scope.

(** [2^e], for any integer [e]. *)
Definition bpow (e : Z) : Q := 2 ^ e.

(** The rational a finite value denotes. *)
Definition B2Q (x : spec_float) : Q :=
  match x with
  | S754_finite s m e =>
      (if s then - inject_Z (Z.pos m) else inject_Z (Z.pos m)) * bpow e
  | _ => 0
  end.

(** Zeros and finite values, as opposed to NaN and the infinities. *)
Definition finite (x : spec_float) : Prop :=
  match x with
  | S754_zero _ | S754_finite _ _ _ => True
  | _ => False
  end.

(** [V] is a multiple of [2^E] nearest to [v], with an even multiplier at
    a tie. *)
Definition rounded (v V : Q) (E : Z) : Prop :=
  exists M : Z,
    V == inject_Z M * bpow E
    /\ Qabs (V - v) <= bpow (E - 1)
    /\ (Qabs (V - v) == bpow (E - 1) -> Z.even M = true).

(** [2^E] is the spacing of the binary64 values around [v]. *)
Definition spacing (v : Q) (E : Z) : Prop :=
  (-1074 <= E)%Z
  /\ ((-1074 < E)%Z -> bpow (E + 52) <= Qabs v)
  /\ Qabs v < bpow (E + 53).

(** The factor a sign bit stands for. *)
Definition sign (s : bool) : Q := if s then - (1) else 1.

(** The outcome of a correctly rounded operation whose exact result is
    [v]: a valid finite value [r], nearest to [v] on the grid of [v]. *)
Definition correctly_rounded (v : Q) (r : spec_float) : Prop :=
  finite r /\ valid_binary prec emax r = true
  /\ exists E, rounded v (B2Q r) E /\ spacing v E.

(** The unit roundoff, and half the smallest positive Number. *)
Definition u : Q := bpow (- 53).

Definition eta : Q := bpow (- 1075).

End Rounding.

(** ** Sample inputs *)
Module Sample.

Definition snapshot (stars forks issues : Z) (language pushed_at : Value) : RepoData :=
  {| data_name := "react";
     owner_login := "facebook";
     full_name := "facebook/react";
     stargazers_count := of_Z stars;
     forks_count := of_Z forks;
     open_issues_count := of_Z issues;
     language := language;
     pushed_at := pushed_at |}.

Definition react : RepoData :=
  snapshot 100 9 10 (JSString "JavaScript") (JSString "2024-01-01T00:00:00Z").

(** 2024-01-04T00:00:00Z, three days after the last push of [react]. *)
Definition clock : Z := 1704326400000.

Definition answering (reply : FetchOutcome) : Env :=
  {| fetch := fun _ => reply;
     Date_now := clock;
     Date_new := clock;
     insert_fault := None;
     select_fault := None |}.

Definition online (d : RepoData) : Env := answering (Response 200 (BodyData d)).
Definition not_found : Env :=
  answering (Response 404 (BodyData react)).
Definition offline : Env := answering (Rejected (mkError "Failed to fetch")).

Definition facebook_react : RepoInfo.t :=
  RepoInfo.mk "facebook" "react" "facebook/react".

(** A store holding one earlier record, and the form filled with [u]. *)
Definition stored : Supabase.Store :=
  fst (Supabase.insert None [@repoData Reference.platform (online react) react]
         Supabase.empty).
Definition typed (u : string) : World := mkWorld (setUrl u initial) stored.

End Sample.

(** Occurrence of a character in a string. *)
Fixpoint contains (c : ascii) (s : string) : bool :=
  match s with
  | EmptyString => false
  | String a rest => Ascii.eqb a c || contains c rest
  end.

(** Rows listed newest first. *)
Definition newest_first (l : list Supabase.Row) : Prop :=
  StronglySorted
    (fun a b => createdat (Supabase.fields b) <= createdat (Supabase.fields a)) l.

(** The payload [d] with its [language] field replaced. *)
Definition with_language (v : Value) (d : RepoData) : RepoData :=
  {| data_name := data_name d;
     owner_login := owner_login d;
     full_name := full_name d;
     stargazers_count := stargazers_count d;
     forks_count := forks_count d;
     open_issues_count := open_issues_count d;
     language := v;
     pushed_at := pushed_at d |}.

(** Sample stores: records ingested at three instants, inserted out of
    order. *)
Definition recorded_at (t : Z) : RepoRecord :=
  @repoData Reference.platform
    {| fetch := fun _ => Response 200 (BodyData Sample.react);
       Date_now := t; Date_new := t;
       insert_fault := None; select_fault := None |}
    Sample.react.

Definition shelf : Supabase.Store :=
  fst (Supabase.insert None [recorded_at 10; recorded_at 30; recorded_at 20]
         Supabase.empty).

(** The payload [d] with its [pushed_at] field replaced. *)
Definition with_pushed_at (v : Value) (d : RepoData) : RepoData :=
  {| data_name := data_name d;
     owner_login := owner_login d;
     full_name := full_name d;
     stargazers_count := stargazers_count d;
     forks_count := forks_count d;
     open_issues_count := open_issues_count d;
     language := language d;
     pushed_at := v |}.

(** No row carries an identifier the store has yet to assign. *)
Definition ids_assigned (s : Supabase.Store) : Prop :=
  Forall (fun r => Supabase.id r < Supabase.next_id s) (Supabase.rows s).

(** [s] begins with [p]. *)
Definition begins_with (p s : string) : Prop := exists rest, s = (p ++ rest)%string.

(** Worlds and answers for the handlers beyond the happy path. *)
Module Scenario.

(** The store refuses the insertion. *)
Definition refusing_insert : Env :=
  {| fetch := fun _ => Response 200 (BodyData Sample.react);
     Date_now := Sample.clock;
     Date_new := Sample.clock;
     insert_fault := Some (mkError "permission denied");
     select_fault := None |}.

(** The store accepts the insertion and then fails to list. *)
Definition refusing_select : Env :=
  {| fetch := fun _ => Response 200 (BodyData Sample.react);
     Date_now := Sample.clock;
     Date_new := Sample.clock;
     insert_fault := None;
     select_fault := Some (mkError "") |}.

(** A response with a success status whose body is not JSON. *)
Definition garbled : Env :=
  Sample.answering
    (Response 200 (BodyThrows (mkError "Unexpected token < in JSON at position 0"))).

Definition react_address : string := "https://github.com/facebook/react".

(** The same provider, asked 90 seconds later. *)
Definition later : Env :=
  {| fetch := fun _ => Response 200 (BodyData Sample.react);
     Date_now := Sample.clock + 90000;
     Date_new := Sample.clock + 90000;
     insert_fault := None;
     select_fault := None |}.

(** A last push written in the expanded-year format of ISO 8601: one
    millisecond past noon on 1 December of the year -9667, the instant
    -367199351999999. *)
Definition ancient_noon : string := "-009667-12-01T12:00:00.001Z".

(** The reference platform, reading that one timestamp as well. *)
Definition deep_time : Platform :=
  {| JS.URL_new := Reference.URL_new;
     JS.Date_parse :=
       fun s => if (s =? ancient_noon)%string then Some (-367199351999999)
                else Reference.Date_parse s;
     JS.Date_parse_empty := eq_refl |}.

(** A repository last pushed then, looked at in the last millisecond a
    Date can hold (+275760-09-13T00:00:00.000Z). *)
Definition end_of_time : Env :=
  {| fetch := fun _ =>
       Response 200
         (BodyData (Sample.snapshot 100 9 10 (JSString "JavaScript")
                      (JSString ancient_noon)));
     Date_now := max_time;
     Date_new := max_time;
     insert_fault := None;
     select_fault := None |}.

(** A payload whose [pushed_at] is a string that is no date. *)
Definition undated : RepoData :=
  Sample.snapshot 100 9 10 (JSString "JavaScript") (JSString "yesterday").

(** The record the sample provider yields at the sample clock. *)
Definition react_record : RepoRecord :=
  @repoData Reference.platform (Sample.online Sample.react) Sample.react.

End Scenario.

(** * Properties *)

(** ** The URL parser *)
Section Parser.
Context {P : Platform}.

Lemma extractRepoInfo_body_ok url u :
  URL_new url = Return u ->
  hostname u = "github.com" ->
  forall owner name rest,
    filter_Boolean (split "/" (pathname u)) = owner :: name :: rest ->
    extractRepoInfo_body url
    = Return (RepoInfo.mk owner name (owner ++ "/" ++ name)%string).
Proof.
  intros Hu Hh owner name rest Hp.
  unfold extractRepoInfo_body, bind. rewrite Hu, Hh, Hp. reflexivity.
Qed.

Lemma extractRepoInfo_body_host url u :
  URL_new url = Return u ->
  hostname u <> "github.com" ->
  extractRepoInfo_body url = Throw (mkError "Not a valid GitHub URL").
Proof.
  intros Hu Hh. unfold extractRepoInfo_body, bind. rewrite Hu.
  destruct (String.eqb_spec (hostname u) "github.com") as [E | _]; [contradiction | reflexivity].
Qed.

Lemma extractRepoInfo_body_path url u :
  URL_new url = Return u ->
  hostname u = "github.com" ->
  (List.length (filter_Boolean (split "/" (pathname u))) < 2)%nat ->
  extractRepoInfo_body url = Throw (mkError "Not a valid repository URL").
Proof.
  intros Hu Hh Hl. unfold extractRepoInfo_body, bind. rewrite Hu, Hh. simpl.
  apply Nat.ltb_lt in Hl. rewrite Hl. reflexivity.
Qed.

(** Whatever the [try] block throws, the caller sees one and the same
    error. *)
Lemma extractRepoInfo_catch url e :
  extractRepoInfo_body url = Throw e ->
  extractRepoInfo url = Throw (mkError "Invalid GitHub URL format").
Proof. intros H. unfold extractRepoInfo. rewrite H. reflexivity. Qed.

Lemma extractRepoInfo_throws url :
  throws (extractRepoInfo url) ->
  extractRepoInfo url = Throw (mkError "Invalid GitHub URL format").
Proof.
  intros [e He]. unfold extractRepoInfo in *.
  destruct (extractRepoInfo_body url); simpl in *; [discriminate | reflexivity].
Qed.

End Parser.

(** C5.  On an address the platform parses, whose host is [github.com] and
    whose path has at least two non-empty segments, [extractRepoInfo]
    returns owner = first segment, name = second segment and
    fullName = owner/name; the result does not depend on further segments,
    on the query or on the fragment.  In particular
    [https://github.com/facebook/react] yields facebook, react,
    facebook/react. *)
Theorem parse_owner_and_name (P : Platform) :
  (forall url u owner name rest,
      URL_new url = Return u ->
      hostname u = "github.com" ->
      filter_Boolean (split "/" (pathname u)) = owner :: name :: rest ->
      extractRepoInfo url
      = Return (RepoInfo.mk owner name (owner ++ "/" ++ name)%string)
      /\ forall url' u' rest',
          URL_new url' = Return u' ->
          hostname u' = "github.com" ->
          filter_Boolean (split "/" (pathname u')) = owner :: name :: rest' ->
          extractRepoInfo url' = extractRepoInfo url)
  /\ (forall query fragment,
         URL_new "https://github.com/facebook/react"
         = Return (mkURL "github.com" "/facebook/react" query fragment) ->
         extractRepoInfo "https://github.com/facebook/react"
         = Return (RepoInfo.mk "facebook" "react" "facebook/react")).
Proof.
  assert (Hok : forall url u owner name rest,
             URL_new url = Return u ->
             hostname u = "github.com" ->
             filter_Boolean (split "/" (pathname u)) = owner :: name :: rest ->
             extractRepoInfo url
             = Return (RepoInfo.mk owner name (owner ++ "/" ++ name)%string)).
  { intros url u owner name rest Hu Hh Hp. unfold extractRepoInfo.
    rewrite (extractRepoInfo_body_ok url u Hu Hh owner name rest Hp). reflexivity. }
  split.
  - intros url u owner name rest Hu Hh Hp. split.
    + eapply Hok; eassumption.
    + intros url' u' rest' Hu' Hh' Hp'.
      rewrite (Hok _ _ _ _ _ Hu Hh Hp), (Hok _ _ _ _ _ Hu' Hh' Hp'). reflexivity.
  - intros query fragment Hu.
    apply (Hok _ _ "facebook" "react" [] Hu); reflexivity.
Qed.

Lemma parse_owner_and_name_witness :
  @extractRepoInfo Reference.platform "https://github.com/facebook/react/issues?q=is%3Aopen#top"
  = Return (RepoInfo.mk "facebook" "react" "facebook/react")
  /\ @extractRepoInfo Reference.platform "https://github.com/facebook/react"
     = Return (RepoInfo.mk "facebook" "react" "facebook/react").
Proof.
  destruct (parse_owner_and_name Reference.platform) as [Hgen Hreact]. split.
  - apply (Hgen "https://github.com/facebook/react/issues?q=is%3Aopen#top"
                (mkURL "github.com" "/facebook/react/issues" "?q=is%3Aopen" "#top")
                "facebook" "react" ["issues"]); reflexivity.
  - apply (Hreact "" ""). reflexivity.
Defined.

(** C6.  On an address whose host is not [github.com] the [try] block
    throws "Not a valid GitHub URL", but the enclosing [catch] replaces
    it: the caller receives "Invalid GitHub URL format", the very error
    every other failure of the parser produces. *)
Theorem unsupported_host_error_is_generic (P : Platform) url u :
  URL_new url = Return u ->
  hostname u <> "github.com" ->
  extractRepoInfo_body url = Throw (mkError "Not a valid GitHub URL")
  /\ extractRepoInfo url = Throw (mkError "Invalid GitHub URL format")
  /\ forall url', throws (extractRepoInfo url') ->
                  extractRepoInfo url' = extractRepoInfo url.
Proof.
  intros Hu Hh.
  pose proof (extractRepoInfo_body_host url u Hu Hh) as Hb.
  pose proof (extractRepoInfo_catch url _ Hb) as Hc.
  repeat split; trivial.
  intros url' Ht. rewrite Hc. now apply extractRepoInfo_throws.
Qed.

Lemma unsupported_host_error_is_generic_witness :
  @extractRepoInfo Reference.platform "https://example.com/a/b"
  = Throw (mkError "Invalid GitHub URL format")
  /\ @extractRepoInfo Reference.platform "https://example.com/a/b"
     = @extractRepoInfo Reference.platform "not a url".
Proof.
  destruct (unsupported_host_error_is_generic Reference.platform
              "https://example.com/a/b" (mkURL "example.com" "/a/b" "" ""))
    as (_ & Hc & Hall).
  - reflexivity.
  - apply String.eqb_neq. reflexivity.
  - split; [exact Hc | symmetry; apply Hall; eexists; reflexivity].
Defined.

(** C7.  On a [github.com] address with fewer than two non-empty path
    segments the [try] block throws "Not a valid repository URL", but the
    enclosing [catch] replaces it: the caller receives "Invalid GitHub URL
    format", the very error every other failure of the parser produces. *)
Theorem incomplete_path_error_is_generic (P : Platform) url u :
  URL_new url = Return u ->
  hostname u = "github.com" ->
  (List.length (filter_Boolean (split "/" (pathname u))) < 2)%nat ->
  extractRepoInfo_body url = Throw (mkError "Not a valid repository URL")
  /\ extractRepoInfo url = Throw (mkError "Invalid GitHub URL format")
  /\ forall url', throws (extractRepoInfo url') ->
                  extractRepoInfo url' = extractRepoInfo url.
Proof.
  intros Hu Hh Hl.
  pose proof (extractRepoInfo_body_path url u Hu Hh Hl) as Hb.
  pose proof (extractRepoInfo_catch url _ Hb) as Hc.
  repeat split; trivial.
  intros url' Ht. rewrite Hc. now apply extractRepoInfo_throws.
Qed.

Lemma incomplete_path_error_is_generic_witness :
  @extractRepoInfo Reference.platform "https://github.com/onlyowner"
  = Throw (mkError "Invalid GitHub URL format")
  /\ @extractRepoInfo Reference.platform "https://github.com/onlyowner"
     = @extractRepoInfo Reference.platform "https://example.com/a/b".
Proof.
  destruct (incomplete_path_error_is_generic Reference.platform
              "https://github.com/onlyowner" (mkURL "github.com" "/onlyowner" "" ""))
    as (_ & Hc & Hall).
  - reflexivity.
  - reflexivity.
  - simpl. lia.
  - split; [exact Hc | symmetry; apply Hall; eexists; reflexivity].
Defined.

(** ** The metrics fetcher *)
Section Fetcher.
Context {P : Platform}.

Lemma fetch_success env repoInfo status data :
  fetch env (request repoInfo) = Response status (BodyData data) ->
  ok status = true ->
  fetchGitHubRepoData env repoInfo = Return (repoData env data).
Proof.
  intros Hf Hok. unfold fetchGitHubRepoData, fetchGitHubRepoData_body.
  rewrite Hf, Hok. reflexivity.
Qed.

Lemma fetch_http_error env repoInfo status body :
  fetch env (request repoInfo) = Response status body ->
  ok status = false ->
  fetchGitHubRepoData env repoInfo
  = Throw (mkError ("Failed to fetch repository data: GitHub API error: "
                    ++ Z_toString status)%string).
Proof.
  intros Hf Hok. unfold fetchGitHubRepoData, fetchGitHubRepoData_body.
  rewrite Hf, Hok. reflexivity.
Qed.

Lemma fetch_rejected env repoInfo cause :
  fetch env (request repoInfo) = Rejected cause ->
  fetchGitHubRepoData env repoInfo
  = Throw (mkError ("Failed to fetch repository data: " ++ message cause)%string).
Proof.
  intros Hf. unfold fetchGitHubRepoData, fetchGitHubRepoData_body.
  rewrite Hf. reflexivity.
Qed.

(** Every successful fetch went through a readable payload of a response
    with a success status. *)
Lemma fetch_returns env repoInfo r :
  fetchGitHubRepoData env repoInfo = Return r ->
  exists status data,
    fetch env (request repoInfo) = Response status (BodyData data)
    /\ ok status = true /\ r = repoData env data.
Proof.
  unfold fetchGitHubRepoData, fetchGitHubRepoData_body.
  destruct (fetch env (request repoInfo)) as [cause | status body]; simpl;
    [discriminate |].
  destruct (ok status) eqn:Hok; simpl; [| discriminate].
  destruct body as [e | data]; simpl; [discriminate |].
  intros [= <-]. exists status, data. auto.
Qed.

End Fetcher.

(** ** The orchestrator *)
Section Orchestrator.
Context {P : Platform}.

Lemma handleSubmit_parse_failure env w :
  throws (extractRepoInfo (url (ui w))) ->
  run (handleSubmit env) w
  = mkWorld (mkState (url (ui w)) (repos (ui w)) false
                     "Failed to add repository" "Invalid GitHub URL format" false)
            (db w).
Proof.
  intros Ht. apply extractRepoInfo_throws in Ht.
  unfold run, handleSubmit, mbind, catch, set, lift. simpl.
  rewrite Ht. reflexivity.
Qed.

Lemma handleSubmit_fetch_failure env w repoInfo e :
  extractRepoInfo (url (ui w)) = Return repoInfo ->
  fetchGitHubRepoData env repoInfo = Throw e ->
  run (handleSubmit env) w
  = mkWorld (mkState (url (ui w)) (repos (ui w)) false
                     "Failed to add repository" (details e) false)
            (db w).
Proof.
  intros Hp Hf.
  unfold run, handleSubmit, mbind, catch, set, lift. simpl.
  rewrite Hp, Hf. reflexivity.
Qed.

End Orchestrator.

(** C1.  When the parsing stage or the fetching stage of [handleSubmit]
    fails, the store is left exactly as it was: same rows, same next
    identifier, and no call at all (in particular no insert) was made on
    it; the form reports "Failed to add repository". *)
Theorem failed_add_leaves_store_untouched (P : Platform) env w :
  throws (extractRepoInfo (url (ui w)))
  \/ (exists repoInfo,
         extractRepoInfo (url (ui w)) = Return repoInfo
         /\ throws (fetchGitHubRepoData env repoInfo)) ->
  let w' := run (handleSubmit env) w in
  db w' = db w
  /\ Supabase.insert_calls (db w') = Supabase.insert_calls (db w)
  /\ error (ui w') = "Failed to add repository"
  /\ repos (ui w') = repos (ui w)
  /\ loading (ui w') = false.
Proof.
  intros [Hparse | (repoInfo & Hparse & [e Hfetch])] w'; subst w'.
  - rewrite (handleSubmit_parse_failure env w Hparse). simpl. auto.
  - rewrite (handleSubmit_fetch_failure env w repoInfo e Hparse Hfetch). simpl. auto.
Qed.

Lemma failed_add_leaves_store_untouched_witness :
  db (@run (@handleSubmit Reference.platform Sample.offline)
           (Sample.typed "https://github.com/facebook/react"))
  = Sample.stored
  /\ db (@run (@handleSubmit Reference.platform (Sample.online Sample.react))
              (Sample.typed "https://example.com/a/b"))
     = Sample.stored.
Proof.
  split.
  - apply (failed_add_leaves_store_untouched Reference.platform Sample.offline
             (Sample.typed "https://github.com/facebook/react")).
    right. exists Sample.facebook_react. split; [reflexivity |].
    eexists. reflexivity.
  - apply (failed_add_leaves_store_untouched Reference.platform
             (Sample.online Sample.react) (Sample.typed "https://example.com/a/b")).
    left. eexists. reflexivity.
Defined.

(** ** Error reporting of the fetcher *)

Lemma append_inj_prefix (p a b : string) : (p ++ a = p ++ b)%string -> a = b.
Proof.
  induction p as [| c p IH]; simpl; intros H; [exact H |].
  injection H as H. auto.
Qed.

Lemma Z_toString_inj (a b : Z) : Z_toString a = Z_toString b -> a = b.
Proof.
  unfold Z_toString. intros H.
  assert (Hnz : forall z, Z.to_int z <> Decimal.Pos Decimal.Nil
                          /\ Z.to_int z <> Decimal.Neg Decimal.Nil).
  { intros z. destruct z as [| p | p]; simpl; split; intros E;
      try discriminate; injection E as E;
      exact (DecimalPos.Unsigned.to_uint_nonnil p E). }
  apply DecimalZ.to_int_inj.
  assert (Some (Z.to_int a) = Some (Z.to_int b)) as [= ->]; [| reflexivity].
  rewrite <- (NilZero.isi (Z.to_int a)), <- (NilZero.isi (Z.to_int b));
    try apply Hnz.
  now rewrite H.
Qed.

(** C8.  A response with a non-success status makes
    [fetchGitHubRepoData] throw an Error that carries the status: its
    message is "Failed to fetch repository data: GitHub API error: "
    followed by the status.  A transport failure makes it throw an Error
    that carries the cause: its message is "Failed to fetch repository
    data: " followed by the message of the cause.  Different statuses,
    and different causes, give different errors; and the caller tells the
    two kinds of failure apart, the message of a transport failure never
    being "GitHub API error: " followed by a status, a text only line 76
    writes. *)
Theorem fetch_failures_told_apart_by_message (P : Platform) env env' repoInfo :
  (forall status body,
      fetch env (request repoInfo) = Response status body ->
      ok status = false ->
      fetchGitHubRepoData env repoInfo
      = Throw (mkError ("Failed to fetch repository data: GitHub API error: "
                        ++ Z_toString status)%string)
      /\ (forall status' body',
             fetch env' (request repoInfo) = Response status' body' ->
             ok status' = false ->
             status <> status' ->
             fetchGitHubRepoData env repoInfo <> fetchGitHubRepoData env' repoInfo)
      /\ (forall cause,
             fetch env' (request repoInfo) = Rejected cause ->
             message cause <> ("GitHub API error: " ++ Z_toString status)%string ->
             fetchGitHubRepoData env repoInfo <> fetchGitHubRepoData env' repoInfo))
  /\ (forall cause,
         fetch env (request repoInfo) = Rejected cause ->
         fetchGitHubRepoData env repoInfo
         = Throw (mkError ("Failed to fetch repository data: " ++ message cause)%string)
         /\ (forall cause',
                fetch env' (request repoInfo) = Rejected cause' ->
                message cause <> message cause' ->
                fetchGitHubRepoData env repoInfo <> fetchGitHubRepoData env' repoInfo)).
Proof.
  split.
  - intros status body Hf Hok. rewrite (fetch_http_error _ _ _ _ Hf Hok).
    split; [reflexivity | split].
    + intros status' body' Hf' Hok' Hne.
      rewrite (fetch_http_error _ _ _ _ Hf' Hok'). intros E.
      apply Hne, Z_toString_inj.
      apply (append_inj_prefix "Failed to fetch repository data: GitHub API error: ").
      simpl in E |- *. congruence.
    + intros cause Hf' Hne. rewrite (fetch_rejected _ _ _ Hf'). intros E.
      apply Hne. symmetry.
      apply (append_inj_prefix "Failed to fetch repository data: ").
      simpl in E |- *. congruence.
  - intros cause Hf. rewrite (fetch_rejected _ _ _ Hf).
    split; [reflexivity |].
    intros cause' Hf' Hne. rewrite (fetch_rejected _ _ _ Hf'). intros E.
    apply Hne, (append_inj_prefix "Failed to fetch repository data: ").
    simpl in E |- *. congruence.
Qed.

Lemma fetch_failures_told_apart_by_message_witness :
  @fetchGitHubRepoData Reference.platform Sample.not_found Sample.facebook_react
  = Throw (mkError "Failed to fetch repository data: GitHub API error: 404")
  /\ @fetchGitHubRepoData Reference.platform Sample.offline Sample.facebook_react
     = Throw (mkError "Failed to fetch repository data: Failed to fetch")
  /\ @fetchGitHubRepoData Reference.platform Sample.not_found Sample.facebook_react
     <> @fetchGitHubRepoData Reference.platform Sample.offline Sample.facebook_react.
Proof.
  destruct (fetch_failures_told_apart_by_message Reference.platform
              Sample.not_found Sample.offline Sample.facebook_react) as [Hhttp _].
  destruct (fetch_failures_told_apart_by_message Reference.platform
              Sample.offline Sample.not_found Sample.facebook_react) as [_ Hnet].
  destruct (Hhttp 404 (BodyData Sample.react)) as (H404 & _ & Hdiff);
    [reflexivity | reflexivity |].
  destruct (Hnet (mkError "Failed to fetch")) as (Hoff & _); [reflexivity |].
  split; [exact H404 | split; [exact Hoff |]].
  apply (Hdiff (mkError "Failed to fetch")); [reflexivity |].
  apply String.eqb_neq. reflexivity.
Defined.

(** Why the proviso on the message of the cause is there: the kinds are
    told apart by the message alone, so a rejection that read "GitHub API
    error: 500", which no transport produces, would pass for a response
    with status 500. *)
Lemma fetch_failure_kinds_can_coincide :
  @fetchGitHubRepoData Reference.platform
     (Sample.answering (Rejected (mkError "GitHub API error: 500")))
     Sample.facebook_react
  = @fetchGitHubRepoData Reference.platform
      (Sample.answering (Response 500 (BodyData Sample.react)))
      Sample.facebook_react.
Proof. reflexivity. Qed.

(** ** The primary language *)

(** C10.  Whenever the [language] of the payload is falsy (missing, null,
    the empty string, a zero, NaN, false) the record carries the string
    "Unknown"; a truthy [language] is carried as it is.  Two payloads that
    differ only in which falsy value [language] holds, such as the empty
    string and a missing field, produce the same record. *)
Theorem falsy_language_is_unknown (P : Platform) env repoInfo status data :
  fetch env (request repoInfo) = Response status (BodyData data) ->
  ok status = true ->
  exists r,
    fetchGitHubRepoData env repoInfo = Return r
    /\ (Boolean (language data) = false -> mainlanguage r = JSString "Unknown")
    /\ (Boolean (language data) = true -> mainlanguage r = language data)
    /\ (language data = JSString "" -> mainlanguage r = JSString "Unknown")
    /\ (forall v v',
           Boolean v = false -> Boolean v' = false ->
           repoData env (with_language v data) = repoData env (with_language v' data)).
Proof.
  intros Hf Hok. exists (repoData env data).
  split; [exact (fetch_success env repoInfo status data Hf Hok) |].
  unfold repoData; simpl. unfold or_else.
  repeat split.
  - intros ->. reflexivity.
  - intros ->. reflexivity.
  - intros ->. reflexivity.
  - intros v v' -> ->. reflexivity.
Qed.

Lemma falsy_language_is_unknown_witness :
  exists r,
    @fetchGitHubRepoData Reference.platform
       (Sample.online (with_language (JSString "") Sample.react))
       Sample.facebook_react = Return r
    /\ mainlanguage r = JSString "Unknown"
    /\ r = @repoData Reference.platform (Sample.online Sample.react)
             (with_language JSUndefined Sample.react).
Proof.
  destruct (falsy_language_is_unknown Reference.platform
              (Sample.online (with_language (JSString "") Sample.react))
              Sample.facebook_react 200
              (with_language (JSString "") Sample.react))
    as (r & Hr & Hfalsy & _ & _ & Hsame); [reflexivity | reflexivity |].
  exists r. split; [exact Hr | split; [apply Hfalsy; reflexivity |]].
  assert (Hr' : Return r
                = Return (@repoData Reference.platform
                            (Sample.online (with_language (JSString "") Sample.react))
                            (with_language (JSString "") Sample.react)))
    by (rewrite <- Hr; reflexivity).
  injection Hr' as ->.
  apply (Hsame (JSString "") JSUndefined); reflexivity.
Defined.

(** ** Listing the repositories *)

Lemma place_perm r l : Permutation (r :: l) (Supabase.place r l).
Proof.
  induction l as [| x rest IH]; simpl; [reflexivity |].
  destruct (Supabase.newer_or_same r x); [reflexivity |].
  rewrite perm_swap. now apply perm_skip.
Qed.

Lemma order_perm l : Permutation l (Supabase.order_createdat_desc l).
Proof.
  induction l as [| r l IH]; simpl; [constructor |].
  rewrite <- place_perm. now apply perm_skip.
Qed.

Lemma place_newest_first r l : newest_first l -> newest_first (Supabase.place r l).
Proof.
  unfold newest_first.
  induction l as [| x rest IH]; simpl; intros Hs.
  - repeat constructor.
  - apply StronglySorted_inv in Hs as [Hrest Hx].
    unfold Supabase.newer_or_same.
    destruct (Z.leb_spec (createdat (Supabase.fields x)) (createdat (Supabase.fields r)))
      as [Hle | Hlt].
    + constructor; [constructor; assumption |].
      constructor; [exact Hle |].
      eapply Forall_impl; [| exact Hx]. simpl. intros b Hb. lia.
    + constructor; [auto |].
      eapply Permutation_Forall; [apply place_perm |].
      constructor; [lia | exact Hx].
Qed.

Lemma order_newest_first l : newest_first (Supabase.order_createdat_desc l).
Proof.
  induction l as [| r l IH]; simpl; [constructor |].
  now apply place_newest_first.
Qed.

Lemma fetchRepos_success env w :
  select_fault env = None ->
  run (fetchRepos env) w
  = mkWorld (mkState (url (ui w)) (Supabase.order_createdat_desc (Supabase.rows (db w)))
                     (loading (ui w)) "" "" false)
            (Supabase.mkStore (Supabase.rows (db w)) (Supabase.next_id (db w))
                              (Supabase.calls (db w) ++ [Supabase.SelectAll])).
Proof.
  intros Hs. unfold run, fetchRepos, catch, mbind, query, set, Supabase.select_ordered.
  rewrite Hs. reflexivity.
Qed.

(** C9.  When the store answers the query, [fetchRepos] shows exactly the
    rows of the store, ordered by [createdat] descending, and clears the
    error; the rows of the store are unchanged.  On an empty store the
    list shown is empty and no error is reported. *)
Theorem list_is_newest_first env w :
  select_fault env = None ->
  let w' := run (fetchRepos env) w in
  Permutation (Supabase.rows (db w)) (repos (ui w'))
  /\ newest_first (repos (ui w'))
  /\ error (ui w') = ""
  /\ detailedError (ui w') = ""
  /\ Supabase.rows (db w') = Supabase.rows (db w)
  /\ (Supabase.rows (db w) = [] -> repos (ui w') = []).
Proof.
  intros Hs w'. subst w'. rewrite (fetchRepos_success env w Hs). simpl.
  repeat split.
  - apply order_perm.
  - apply order_newest_first.
  - intros ->. reflexivity.
Qed.

Lemma list_is_newest_first_witness :
  map (fun r => createdat (Supabase.fields r))
      (repos (ui (run (fetchRepos (Sample.online Sample.react))
                       (mkWorld initial shelf))))
  = [30; 20; 10]
  /\ repos (ui (run (fetchRepos (Sample.online Sample.react))
                     (mkWorld initial Supabase.empty)))
     = []
  /\ error (ui (run (fetchRepos (Sample.online Sample.react))
                     (mkWorld initial Supabase.empty)))
     = "".
Proof.
  pose proof (list_is_newest_first (Sample.online Sample.react)
                (mkWorld initial Supabase.empty) eq_refl) as (_ & _ & He & _ & _ & Hempty).
  pose proof (list_is_newest_first (Sample.online Sample.react)
                (mkWorld initial shelf) eq_refl) as (_ & Hsorted & _).
  split; [reflexivity | split; [apply Hempty; reflexivity | exact He]].
Defined.

(** ** The arithmetic of Numbers

    The operations of [JSNumber] return the correctly rounded value of the
    exact result; from this, the day count and the two scores are related
    to their exact values. *)
Module Float64.

Import Rounding.
Import Binary64.

(** *** Shifting a significand

    The number of binary digits of a positive integer. *)
Lemma digits2_pos_bounds p :
  2 ^ (Z.pos (digits2_pos p) - 1) <= Z.pos p < 2 ^ Z.pos (digits2_pos p).
Proof.
  induction p as [p IH | p IH |]; simpl digits2_pos.
  - rewrite Pos2Z.inj_succ, Z.pow_succ_r by lia.
    replace (Z.succ (Z.pos (digits2_pos p)) - 1) with (Z.succ (Z.pos (digits2_pos p) - 1)) by lia.
    rewrite Z.pow_succ_r by lia. lia.
  - rewrite Pos2Z.inj_succ, Z.pow_succ_r by lia.
    replace (Z.succ (Z.pos (digits2_pos p)) - 1) with (Z.succ (Z.pos (digits2_pos p) - 1)) by lia.
    rewrite Z.pow_succ_r by lia. lia.
  - simpl. lia.
Qed.

(** One shift to the right halves the significand and keeps track of
    where the exact value lies. *)
Lemma shr_1_tracks mrs N D :
  0 < D -> tracks mrs N D ->
  tracks (shr_1 mrs) N (2 * D) /\ shr_m (shr_1 mrs) = shr_m mrs / 2.
Proof.
  intros HD [Hm Hl]. destruct mrs as [m r s].
  cbn [shr_m loc_of_shr_record] in Hm, Hl.
  destruct m as [| p | p]; [| | lia].
  - unfold tracks; destruct r, s;
      cbn [located loc_of_shr_record shr_m shr_1 orb] in *; repeat split; lia.
  - destruct p as [p | p |]; unfold tracks;
      cbn [shr_1 shr_m loc_of_shr_record orb].
    + change (Z.pos p~1) with (2 * Z.pos p + 1) in *.
      replace ((2 * Z.pos p + 1) / 2) with (Z.pos p)
        by (apply Z.div_unique with 1; lia).
      destruct r, s; cbn [located loc_of_shr_record orb] in *; repeat split; nia.
    + change (Z.pos p~0) with (2 * Z.pos p) in *.
      replace ((2 * Z.pos p) / 2) with (Z.pos p)
        by (apply Z.div_unique with 0; lia).
      destruct r, s; cbn [located loc_of_shr_record orb] in *; repeat split; nia.
    + change (1 / 2) with 0.
      destruct r, s; cbn [located loc_of_shr_record orb] in *; repeat split; nia.
Qed.

Lemma iter_shr_1_tracks p : forall mrs N D,
  0 < D -> tracks mrs N D ->
  tracks (SpecFloat.iter_pos shr_1 p mrs) N (2 ^ Z.pos p * D)
  /\ shr_m (SpecFloat.iter_pos shr_1 p mrs) = shr_m mrs / 2 ^ Z.pos p.
Proof.
  induction p as [p IH | p IH |]; intros mrs N D HD Ht; cbn [SpecFloat.iter_pos].
  - destruct (shr_1_tracks mrs N D HD Ht) as [H1 E1].
    destruct (IH _ N (2 * D) ltac:(lia) H1) as [H2 E2].
    assert (Hp : 0 < 2 ^ Z.pos p) by (apply Z.pow_pos_nonneg; lia).
    destruct (IH _ N (2 ^ Z.pos p * (2 * D)) ltac:(nia) H2) as [H3 E3].
    replace (2 ^ Z.pos p~1) with (2 ^ Z.pos p * (2 ^ Z.pos p * 2)).
    2:{ rewrite (Pos2Z.inj_xI p), <- Z.add_diag, !Z.pow_add_r by lia.
        change (2 ^ 1) with 2. ring. }
    split.
    + replace (2 ^ Z.pos p * (2 ^ Z.pos p * 2) * D)
        with (2 ^ Z.pos p * (2 ^ Z.pos p * (2 * D))) by ring. exact H3.
    + rewrite E3, E2, E1, !Z.div_div by lia.
      f_equal. ring.
  - destruct (IH _ N D HD Ht) as [H2 E2].
    assert (Hp : 0 < 2 ^ Z.pos p) by (apply Z.pow_pos_nonneg; lia).
    destruct (IH _ N (2 ^ Z.pos p * D) ltac:(nia) H2) as [H3 E3].
    replace (2 ^ Z.pos p~0) with (2 ^ Z.pos p * 2 ^ Z.pos p).
    2:{ rewrite (Pos2Z.inj_xO p), <- Z.add_diag, Z.pow_add_r by lia.
        reflexivity. }
    split.
    + replace (2 ^ Z.pos p * 2 ^ Z.pos p * D)
        with (2 ^ Z.pos p * (2 ^ Z.pos p * D)) by ring. exact H3.
    + rewrite E3, E2, !Z.div_div by lia. reflexivity.
  - change (2 ^ 1) with 2. apply shr_1_tracks; assumption.
Qed.

Lemma loc_of_record_of_loc m l :
  loc_of_shr_record (shr_record_of_loc m l) = l
  /\ shr_m (shr_record_of_loc m l) = m.
Proof. destruct l as [| []]; split; reflexivity. Qed.

(** Rounding on a location picks a nearest integer, the even one at a
    tie. *)
Lemma round_nearest_even_spec m l N D :
  0 < D -> 0 <= m -> located m l N D ->
  let M := round_nearest_even m l in
  m <= M <= m + 1 /\ nearest_even M N D /\ (l = loc_Exact -> M = m).
Proof.
  intros HD Hm Hl M. subst M. unfold nearest_even.
  destruct l as [| []]; cbn [round_nearest_even located] in *.
  - repeat split; try lia.
  - destruct (Z.even m) eqn:Hev.
    + repeat split; try lia. intros _. exact Hev.
    + repeat split; try lia; try discriminate. intros _.
      rewrite Z.even_add, Hev. reflexivity.
  - repeat split; try lia; try discriminate.
  - repeat split; try lia; try discriminate.
Qed.

Local Abbreviation fexp := (SpecFloat.fexp prec emax).

(** The exponent of the grid for a value of [e] binary digits. *)
Lemma fexp_eq e : fexp e = Z.max (e - 53) (-1074).
Proof. reflexivity. Qed.

Lemma Zdigits2_bounds m :
  0 < m -> 0 < Zdigits2 m /\ 2 ^ (Zdigits2 m - 1) <= m < 2 ^ Zdigits2 m.
Proof.
  destruct m as [| p | p]; try lia. intros _. cbn [Zdigits2].
  split; [lia | apply digits2_pos_bounds].
Qed.

Lemma Zdigits2_unique m k :
  0 < m -> 2 ^ (k - 1) <= m < 2 ^ k -> Zdigits2 m = k.
Proof.
  intros Hm Hk. destruct (Zdigits2_bounds m Hm) as [Hd Hb].
  assert (0 < k).
  { destruct (Z.leb_spec k 0); [| lia].
    rewrite (Z.pow_neg_r 2 (k - 1)) in Hk by lia.
    destruct (Z.eq_dec k 0) as [-> | ]; [simpl in Hk; lia |].
    rewrite (Z.pow_neg_r 2 k) in Hk by lia. lia. }
  destruct (Z.lt_trichotomy (Zdigits2 m) k) as [Hlt | [Heq | Hgt]]; [| exact Heq |].
  - assert (2 ^ Zdigits2 m <= 2 ^ (k - 1)) by (apply Z.pow_le_mono_r; lia). lia.
  - assert (2 ^ k <= 2 ^ (Zdigits2 m - 1)) by (apply Z.pow_le_mono_r; lia). lia.
Qed.

(** [shr] shifts by [n] places when [n] is positive, and not at all
    otherwise. *)
Lemma shr_tracks mrs e n N D :
  0 < D -> tracks mrs N D ->
  let k := Z.max n 0 in
  snd (shr mrs e n) = e + k
  /\ tracks (fst (shr mrs e n)) N (2 ^ k * D)
  /\ shr_m (fst (shr mrs e n)) = shr_m mrs / 2 ^ k
  /\ (n <= 0 -> fst (shr mrs e n) = mrs).
Proof.
  intros HD Ht k. subst k. destruct n as [| p | p]; cbn [shr fst snd].
  - change (Z.max 0 0) with 0. change (2 ^ 0) with 1.
    rewrite Z.add_0_r, Z.mul_1_l, Z.div_1_r. auto.
  - replace (Z.max (Z.pos p) 0) with (Z.pos p) by lia.
    split; [reflexivity |].
    destruct (iter_shr_1_tracks p mrs N D HD Ht) as [Ha Hb].
    split; [exact Ha | split; [exact Hb | intros; lia]].
  - replace (Z.max (Z.neg p) 0) with 0 by lia. change (2 ^ 0) with 1.
    rewrite Z.add_0_r, Z.mul_1_l, Z.div_1_r. auto.
Qed.

Lemma shr_fexp_keeps M e :
  fexp (Zdigits2 M + e) <= e ->
  shr_fexp prec emax M e loc_Exact = (Build_shr_record M false false, e).
Proof.
  intros H. unfold shr_fexp. cbn [shr_record_of_loc].
  destruct (fexp (Zdigits2 M + e) - e) as [| p | p] eqn:E; try reflexivity. lia.
Qed.

Lemma shr_fexp_carry e :
  -1074 <= e ->
  shr_fexp prec emax (2 ^ 53) e loc_Exact
  = (Build_shr_record (2 ^ 52) false false, e + 1).
Proof.
  intros H. unfold shr_fexp. cbn [shr_record_of_loc].
  replace (fexp (Zdigits2 (2 ^ 53) + e) - e) with 1.
  - reflexivity.
  - change (Zdigits2 (2 ^ 53)) with 54. rewrite fexp_eq. lia.
Qed.

Lemma Zdigits2_le m k : 0 < m -> m < 2 ^ k -> Zdigits2 m <= k.
Proof.
  intros Hm Hk. destruct (Zdigits2_bounds m Hm) as [Hd Hb].
  destruct (Z.leb_spec (Zdigits2 m) k) as [| Hlt]; [assumption |].
  assert (2 ^ k <= 2 ^ (Zdigits2 m - 1)).
  { destruct (Z.leb_spec 0 k).
    - apply Z.pow_le_mono_r; lia.
    - rewrite (Z.pow_neg_r 2 k) by lia. apply Z.pow_nonneg. lia. }
  lia.
Qed.

(** [binary_round_aux] on a significand [mx], an exponent [ex] and a
    location that stand for [N / D * 2^ex]: the result is built from an
    integer [M] nearest to the exact value on the grid of exponent [E],
    with a carry into the next binade when [M] reaches 2^53. *)
Lemma binary_round_aux_correct sx mx ex lx N D :
  0 < mx -> 0 < D -> located mx lx N D ->
  let E0 := fexp (Zdigits2 mx + ex) in
  (ex <= E0 \/ lx = loc_Exact) ->
  let E := Z.max ex E0 in
  exists M,
    0 <= M <= 2 ^ 53
    /\ nearest_even M N (2 ^ (E - ex) * D)
    /\ mx / 2 ^ (E - ex) <= M <= mx / 2 ^ (E - ex) + 1
    /\ (lx = loc_Exact -> E0 <= ex -> M = mx)
    /\ (M = 0 -> binary_round_aux prec emax sx mx ex lx = S754_zero sx)
    /\ (0 < M ->
        exists m e,
          ((Z.pos m = M /\ e = E /\ M < 2 ^ 53) \/ (Z.pos m = 2 ^ 52 /\ M = 2 ^ 53 /\ e = E + 1))
          /\ binary_round_aux prec emax sx mx ex lx
             = if e <=? emax - prec then S754_finite sx m e else S754_infinity sx).
Proof.
  intros Hmx HD Hloc E0 Hcase E.
  destruct (Zdigits2_bounds mx Hmx) as [Hd Hb]. set (d := Zdigits2 mx) in *.
  assert (HE0 : E0 = Z.max (d + ex - 53) (-1074)) by reflexivity.
  assert (Ht0 : tracks (shr_record_of_loc mx lx) N D).
  { destruct (loc_of_record_of_loc mx lx) as [Hl Hm].
    split; rewrite ?Hl, ?Hm; [lia | assumption]. }
  pose proof (shr_tracks (shr_record_of_loc mx lx) ex (E0 - ex) N D HD Ht0) as Hs.
  cbv zeta in Hs. replace (Z.max (E0 - ex) 0) with (E - ex) in Hs by lia.
  assert (Hfirst : shr_fexp prec emax mx ex lx
                   = shr (shr_record_of_loc mx lx) ex (E0 - ex)) by reflexivity.
  destruct (shr (shr_record_of_loc mx lx) ex (E0 - ex)) as [mrs' e'].
  cbn [fst snd] in Hs. destruct Hs as (He' & Ht' & Hm' & Hsame).
  rewrite (proj2 (loc_of_record_of_loc mx lx)) in Hm'.
  replace e' with E in Hfirst by lia. clear He' e'.
  assert (Hk : 0 <= E - ex) by lia.
  assert (Hpk : 0 < 2 ^ (E - ex)) by (apply Z.pow_pos_nonneg; lia).
  destruct Ht' as [Hm0 Hl'].
  destruct (round_nearest_even_spec (shr_m mrs') (loc_of_shr_record mrs') N
              (2 ^ (E - ex) * D) ltac:(nia) Hm0 Hl') as (HM & Hne & Hex).
  assert (Hunfold : forall r,
             (let '(mrs'', e'') :=
                shr_fexp prec emax
                  (round_nearest_even (shr_m mrs') (loc_of_shr_record mrs')) E loc_Exact in
              match shr_m mrs'' with
              | 0 => S754_zero sx
              | Z.pos m => if e'' <=? emax - prec then S754_finite sx m e''
                           else S754_infinity sx
              | Z.neg _ => S754_nan
              end) = r ->
             binary_round_aux prec emax sx mx ex lx = r).
  { intros r Hr. unfold binary_round_aux. rewrite Hfirst. exact Hr. }
  set (M := round_nearest_even (shr_m mrs') (loc_of_shr_record mrs')) in *.
  rewrite Hm' in HM.
  assert (Hkeep : lx = loc_Exact -> E0 <= ex -> M = mx).
  { intros Hx Hle. subst M. rewrite (Hsame ltac:(lia)), Hx. reflexivity. }
  (* the shifted mantissa has at most 53 digits *)
  assert (Hwidth : M <= 2 ^ 53).
  { destruct (Z.ltb_spec E0 ex) as [Hlt | Hge].
    - destruct Hcase as [? | Hx]; [lia |]. rewrite (Hkeep Hx ltac:(lia)).
      assert (2 ^ d <= 2 ^ 53) by (apply Z.pow_le_mono_r; lia). lia.
    - destruct (Z.leb_spec d (E - ex)) as [Hsmall | Hbig].
      + assert (2 ^ d <= 2 ^ (E - ex)) by (apply Z.pow_le_mono_r; lia).
        rewrite Z.div_small in HM by lia.
        lia.
      + assert (mx / 2 ^ (E - ex) < 2 ^ (d - (E - ex))).
        { apply Z.div_lt_upper_bound; [lia |].
          rewrite <- Z.pow_add_r by lia.
          replace (E - ex + (d - (E - ex))) with d by lia. lia. }
        assert (2 ^ (d - (E - ex)) <= 2 ^ 53) by (apply Z.pow_le_mono_r; lia). lia. }
  assert (HElow : -1074 <= E) by lia.
  exists M. split; [lia |]. split; [exact Hne |]. split; [lia |]. split; [exact Hkeep |].
  split.
  - intros HM0. apply Hunfold. rewrite HM0, shr_fexp_keeps; [reflexivity |].
    change (Zdigits2 0) with 0. rewrite fexp_eq. lia.
  - intros HMpos. destruct (Z.eq_dec M (2 ^ 53)) as [Hcarry | Hno].
    + exists (Z.to_pos (2 ^ 52)), (E + 1). split; [right; repeat split; trivial |].
      apply Hunfold. rewrite Hcarry, shr_fexp_carry by lia. reflexivity.
    + exists (Z.to_pos M), E. rewrite Z2Pos.id by lia.
      split; [left; repeat split; lia |].
      apply Hunfold. rewrite shr_fexp_keeps.
      * cbn [shr_m]. destruct M; try lia. reflexivity.
      * assert (Zdigits2 M <= 53) by (apply Zdigits2_le; lia).
        rewrite fexp_eq. lia.
Qed.

Local Open Scope Q_scope.

(** *** Powers of two *)

Lemma bpow_pos e : 0 < bpow e.
Proof. apply Qpower_0_lt. reflexivity. Qed.

Lemma bpow_add a b : bpow (a + b) == bpow a * bpow b.
Proof. apply Qpower_plus. discriminate. Qed.

Lemma bpow_succ a : bpow (a + 1) == 2 * bpow a.
Proof. rewrite bpow_add. change (bpow 1) with 2. ring. Qed.

Lemma bpow_half a : bpow a == 2 * bpow (a - 1).
Proof. rewrite <- bpow_succ. replace (a - 1 + 1)%Z with a by lia. reflexivity. Qed.

Lemma bpow_le a b : (a <= b)%Z -> bpow a <= bpow b.
Proof. intros H. apply Qpower_le_compat_l; [exact H | discriminate]. Qed.

Lemma bpow_lt a b : (a < b)%Z -> bpow a < bpow b.
Proof. intros H. apply Qpower_lt_compat_l; [exact H | reflexivity]. Qed.

Lemma bpow_inject k : (0 <= k)%Z -> inject_Z (2 ^ k) == bpow k.
Proof. intros H. apply (Zpower_Qpower 2 k H). Qed.

Lemma inject_Z_pos_lt z : (0 < z)%Z -> 0 < inject_Z z.
Proof. intros H. rewrite (Zlt_Qlt 0 z) in H. exact H. Qed.

(** *** From integers to rationals *)

Lemma nearest_even_Q M N D :
  (0 < D)%Z -> nearest_even M N D ->
  let x := inject_Z M - inject_Z N / inject_Z D in
  Qabs x <= 1 # 2 /\ (Qabs x == 1 # 2 -> Z.even M = true).
Proof.
  intros HD [Hb Ht] x.
  assert (HDq : 0 < inject_Z D) by now apply inject_Z_pos_lt.
  assert (Hx : inject_Z D * x == inject_Z (M * D - N)).
  { unfold x, Zminus. rewrite inject_Z_plus, inject_Z_mult, inject_Z_opp.
    field. intros E. rewrite E in HDq. discriminate. }
  destruct Hb as [Hlo Hhi].
  rewrite Zle_Qle in Hlo, Hhi.
  rewrite inject_Z_mult in Hlo, Hhi. rewrite inject_Z_opp in Hlo.
  rewrite <- Hx in Hlo, Hhi. change (inject_Z 2) with 2 in *.
  split.
  - apply Qabs_Qle_condition. split; nra.
  - intros Heq. apply Ht.
    assert (Hc : x == 1 # 2 \/ x == - (1 # 2)).
    { revert Heq. apply Qabs_case; intros H1 H2; [left | right]; lra. }
    destruct Hc as [Hc | Hc]; [left | right]; apply inject_Z_injective;
      rewrite inject_Z_mult, <- Hx, ?inject_Z_opp, Hc; change (inject_Z 2) with 2; ring.
Qed.

Lemma located_bounds m l N D :
  (0 < D)%Z -> located m l N D ->
  inject_Z m <= inject_Z N / inject_Z D < inject_Z m + 1.
Proof.
  intros HD Hl.
  assert (HDq : 0 < inject_Z D) by now apply inject_Z_pos_lt.
  assert (HZ : (m * D <= N < m * D + D)%Z) by (destruct l as [| []]; cbn [located] in Hl; lia).
  destruct HZ as [H1 H2]. rewrite Zle_Qle in H1. rewrite Zlt_Qlt in H2.
  rewrite inject_Z_mult in H1. rewrite inject_Z_plus, inject_Z_mult in H2.
  split.
  - apply Qle_shift_div_l; [exact HDq | exact H1].
  - apply Qlt_shift_div_r; [exact HDq |]. lra.
Qed.

Lemma bpow_lt_inv a b : bpow a < bpow b -> (a < b)%Z.
Proof.
  intros H. destruct (Z.ltb_spec a b) as [| Hge]; [assumption |].
  apply bpow_le in Hge. lra.
Qed.

Lemma sign_abs (s : bool) (q : Q) :
  0 <= q -> Qabs ((if s then - (1) else 1) * q) == q.
Proof.
  intros H. destruct s.
  - rewrite Qabs_neg by lra. ring.
  - rewrite Qabs_pos by lra. ring.
Qed.

(** The same in the rationals: the result of [binary_round_aux] is a
    valid finite Number nearest to the exact value, provided that value
    is below 2^1023. *)
Lemma binary_round_aux_Q sx mx ex lx N D :
  (0 < mx)%Z -> (0 < D)%Z -> located mx lx N D ->
  let E := fexp (Zdigits2 mx + ex) in
  (ex <= E)%Z ->
  let v := inject_Z N / inject_Z D * bpow ex in
  v < bpow 1023 ->
  let r := binary_round_aux prec emax sx mx ex lx in
  finite r /\ valid_binary prec emax r = true
  /\ (exists M,
         (0 <= M)%Z
         /\ B2Q r == (if sx then - (1) else 1) * (inject_Z M * bpow E)
         /\ Qabs (inject_Z M * bpow E - v) <= bpow (E - 1)
         /\ (Qabs (inject_Z M * bpow E - v) == bpow (E - 1) -> Z.even M = true))
  /\ spacing v E.
Proof.
  intros Hmx HD Hloc E HexE v Hv r.
  destruct (Zdigits2_bounds mx Hmx) as [Hd Hb]. set (d := Zdigits2 mx) in *.
  assert (HE : E = Z.max (d + ex - 53) (-1074)) by reflexivity.
  assert (HDq : 0 < inject_Z D) by now apply inject_Z_pos_lt.
  pose proof (located_bounds mx lx N D HD Hloc) as [Hlo Hhi].
  pose proof (bpow_pos ex) as Hpex.
  (* the spacing of the grid around v *)
  assert (Hmxlo : bpow (d - 1) <= inject_Z mx).
  { rewrite <- bpow_inject by lia. rewrite <- Zle_Qle. lia. }
  assert (Hmxhi : inject_Z mx + 1 <= bpow d).
  { rewrite <- bpow_inject by lia. change 1 with (inject_Z 1).
    rewrite <- inject_Z_plus, <- Zle_Qle. lia. }
  assert (Hvlo : bpow (d - 1 + ex) <= v).
  { rewrite bpow_add. unfold v. nra. }
  assert (Hvhi : v < bpow (d + ex)).
  { rewrite bpow_add. unfold v. nra. }
  assert (Hvpos : 0 < v) by (pose proof (bpow_pos (d - 1 + ex)); lra).
  assert (Hsp : spacing v E).
  { unfold spacing. rewrite (Qabs_pos v) by lra. repeat split.
    - lia.
    - intros Hn. replace (E + 52)%Z with (d - 1 + ex)%Z by lia. exact Hvlo.
    - assert (bpow (d + ex) <= bpow (E + 53)) by (apply bpow_le; lia). lra. }
  assert (HE970 : (E <= 970)%Z).
  { destruct (Z.eq_dec E (-1074)) as [-> | Hn]; [lia |].
    destruct Hsp as (_ & Hl & _). specialize (Hl ltac:(lia)).
    rewrite (Qabs_pos v) in Hl by lra.
    assert (bpow (E + 52) < bpow 1023) by lra.
    apply bpow_lt_inv in H. lia. }
  destruct (binary_round_aux_correct sx mx ex lx N D Hmx HD Hloc (or_introl HexE))
    as (M & HM & Hne & HMm & _ & Hzero & Hpos).
  fold d in HMm, Hne, Hzero, Hpos. fold E in HMm, Hne, Hzero, Hpos.
  replace (Z.max ex E) with E in * by lia.
  assert (Hk : (0 <= E - ex)%Z) by lia.
  assert (Hpk : (0 < 2 ^ (E - ex))%Z) by (apply Z.pow_pos_nonneg; lia).
  destruct (nearest_even_Q M N (2 ^ (E - ex) * D) ltac:(nia) Hne) as [Hx Htie].
  set (x := inject_Z M - inject_Z N / inject_Z (2 ^ (E - ex) * D)) in *.
  assert (Hdiff : inject_Z M * bpow E - v == bpow E * x).
  { assert (HbE : bpow E == bpow (E - ex) * bpow ex).
    { rewrite <- bpow_add. replace (E - ex + ex)%Z with E by lia. reflexivity. }
    unfold x, v. rewrite inject_Z_mult, bpow_inject by lia. rewrite HbE.
    field. split.
    - intros Hz. rewrite Hz in HDq. discriminate.
    - pose proof (bpow_pos (E - ex)). intros Hz. rewrite Hz in H. discriminate. }
  pose proof (bpow_pos E) as HpE.
  assert (Habs : Qabs (inject_Z M * bpow E - v) == bpow E * Qabs x).
  { rewrite Hdiff, Qabs_Qmult, (Qabs_pos (bpow E)) by lra. reflexivity. }
  assert (Hround : Qabs (inject_Z M * bpow E - v) <= bpow (E - 1)
                   /\ (Qabs (inject_Z M * bpow E - v) == bpow (E - 1) -> Z.even M = true)).
  { rewrite Habs. clearbody x. pose proof (bpow_half E) as Hh. split.
    - assert (bpow E * Qabs x <= bpow E * (1 # 2)) by (apply Qmult_le_l; assumption).
      lra.
    - intros Heq. apply Htie.
      apply (Qmult_inj_l _ _ (bpow E)); [lra |]. lra. }
  (* the result *)
  assert (Hres : finite r /\ valid_binary prec emax r = true
                 /\ B2Q r == (if sx then - (1) else 1) * (inject_Z M * bpow E)).
  { destruct (Z.eq_dec M 0) as [HM0 | HMn].
    - unfold r. rewrite (Hzero HM0), HM0. cbn. repeat split. destruct sx; ring.
    - destruct (Hpos ltac:(lia)) as (m & e & Hme & Hr). unfold r. rewrite Hr.
      destruct Hme as [(Hm & He & HMlt) | (Hm & HMc & He)]; subst e.
      + replace (E <=? emax - prec)%Z with true
          by (symmetry; apply Z.leb_le; unfold emax, prec; lia).
        cbn [finite B2Q valid_binary]. split; [exact I |]. split.
        * unfold bounded, canonical_mantissa.
          replace (E <=? emax - prec)%Z with true
            by (symmetry; apply Z.leb_le; unfold emax, prec; lia).
          rewrite andb_true_r. apply Z.eqb_eq.
          change (Z.pos (digits2_pos m)) with (Zdigits2 (Z.pos m)). rewrite Hm.
          destruct (Z.eq_dec E (-1074)) as [HEm | HEn].
          -- assert (Zdigits2 M <= 53)%Z by (apply Zdigits2_le; lia).
             rewrite fexp_eq. lia.
          -- assert (Hk' : (E - ex = d - 53)%Z) by lia.
             assert (2 ^ 52 <= mx / 2 ^ (E - ex))%Z.
             { apply Z.div_le_lower_bound; [lia |].
               rewrite <- Z.pow_add_r by lia.
               replace (E - ex + 52)%Z with (d - 1)%Z by lia. lia. }
             rewrite (Zdigits2_unique M 53) by lia.
             rewrite fexp_eq. lia.
        * rewrite Hm. destruct sx; ring.
      + replace (E + 1 <=? emax - prec)%Z with true
          by (symmetry; apply Z.leb_le; unfold emax, prec; lia).
        cbn [finite B2Q valid_binary]. split; [exact I |]. split.
        * unfold bounded, canonical_mantissa.
          replace (E + 1 <=? emax - prec)%Z with true
            by (symmetry; apply Z.leb_le; unfold emax, prec; lia).
          rewrite andb_true_r. apply Z.eqb_eq.
          change (Z.pos (digits2_pos m)) with (Zdigits2 (Z.pos m)). rewrite Hm.
          change (Zdigits2 (2 ^ 52)) with 53%Z. rewrite fexp_eq. lia.
        * rewrite Hm, HMc, bpow_succ.
          change (inject_Z (2 ^ 53)) with (2 * inject_Z (2 ^ 52)). destruct sx; ring. }
  destruct Hres as (Hfin & Hval & HB).
  split; [exact Hfin |]. split; [exact Hval |]. split; [| exact Hsp].
  exists M. split; [lia |]. split; [exact HB |]. exact Hround.
Qed.

Local Open Scope Z_scope.

Lemma Zdigits2_ge m k : 0 < m -> 2 ^ (k - 1) <= m -> k <= Zdigits2 m.
Proof.
  intros Hm Hk. destruct (Zdigits2_bounds m Hm) as [Hd Hb].
  destruct (Z.leb_spec k (Zdigits2 m)) as [| Hlt]; [assumption |].
  assert (2 ^ Zdigits2 m <= 2 ^ (k - 1)) by (apply Z.pow_le_mono_r; lia). lia.
Qed.

Lemma fexp_mono a b : a <= b -> fexp a <= fexp b.
Proof. rewrite !fexp_eq. lia. Qed.

(** What validity says of a finite value. *)
Lemma valid_finite_inv s m e :
  valid_binary prec emax (S754_finite s m e) = true ->
  Zdigits2 (Z.pos m) <= 53 /\ -1074 <= e <= 971
  /\ (Zdigits2 (Z.pos m) = 53 \/ e = -1074).
Proof.
  cbn [valid_binary]. unfold bounded, canonical_mantissa. intros H.
  apply andb_true_iff in H as [Hc He]. apply Z.eqb_eq in Hc. apply Z.leb_le in He.
  change (Z.pos (digits2_pos m)) with (Zdigits2 (Z.pos m)) in Hc.
  rewrite fexp_eq in Hc. unfold emax, prec in He. lia.
Qed.

Local Open Scope Q_scope.

Lemma B2Q_finite s m e :
  B2Q (S754_finite s m e) == sign s * (inject_Z (Z.pos m) * bpow e).
Proof. unfold sign. cbn [B2Q]. destruct s; ring. Qed.

Lemma sign_xorb a b : sign (xorb a b) == sign a * sign b.
Proof. destruct a, b; reflexivity. Qed.

Lemma Qabs_sign s q : Qabs (sign s * q) == Qabs q.
Proof.
  rewrite Qabs_Qmult. destruct s; cbn [sign].
  - change (Qabs (- (1))) with 1. ring.
  - change (Qabs 1) with 1. ring.
Qed.

(** *** Correct rounding of the operations *)

Lemma correctly_rounded_ext v v' r :
  v == v' -> correctly_rounded v r -> correctly_rounded v' r.
Proof.
  intros Heq (Hf & Hv & E & (M & HB & Hle & Htie) & (H1 & H2 & H3)).
  split; [exact Hf |]. split; [exact Hv |]. exists E. split.
  - exists M. rewrite <- Heq. auto.
  - unfold spacing. rewrite <- Heq. auto.
Qed.

Lemma correctly_rounded_signed s v r :
  0 < v ->
  finite r -> valid_binary prec emax r = true ->
  forall E,
  (exists M,
      (0 <= M)%Z
      /\ B2Q r == sign s * (inject_Z M * bpow E)
      /\ Qabs (inject_Z M * bpow E - v) <= bpow (E - 1)
      /\ (Qabs (inject_Z M * bpow E - v) == bpow (E - 1) -> Z.even M = true)) ->
  spacing v E ->
  correctly_rounded (sign s * v) r.
Proof.
  intros Hv Hf Hval E (M & HM & HB & Hle & Htie) Hsp.
  split; [exact Hf |]. split; [exact Hval |]. exists E. split.
  - exists (if s then - M else M)%Z.
    assert (Hd : B2Q r - sign s * v == sign s * (inject_Z M * bpow E - v)) by (rewrite HB; ring).
    split; [| split].
    + rewrite HB. destruct s; cbn [sign]; rewrite ?inject_Z_opp; ring.
    + rewrite Hd, Qabs_sign. exact Hle.
    + rewrite Hd, Qabs_sign. intros H. destruct s; [rewrite Z.even_opp |]; auto.
  - destruct Hsp as (H1 & H2 & H3). unfold spacing. rewrite Qabs_sign. auto.
Qed.

Local Abbreviation valid := (valid_binary prec emax).

Lemma Zdigits2_mul_ge a b :
  (0 < a)%Z -> (0 < b)%Z -> (Zdigits2 a + Zdigits2 b - 1 <= Zdigits2 (a * b))%Z.
Proof.
  intros Ha Hb.
  destruct (Zdigits2_bounds a Ha) as [Hda Hba].
  destruct (Zdigits2_bounds b Hb) as [Hdb Hbb].
  apply Zdigits2_ge; [nia |].
  replace (Zdigits2 a + Zdigits2 b - 1 - 1)%Z
    with ((Zdigits2 a - 1) + (Zdigits2 b - 1))%Z by lia.
  rewrite Z.pow_add_r by lia. nia.
Qed.

(** A result that is a zero, for an exact result that is zero. *)
Ltac zero_result v :=
  split; [exact I |]; split; [reflexivity |];
  split; [intros _; reflexivity
         | intros H; exfalso; apply H; unfold v; cbn [B2Q]; ring].

(** [x * y]: the product of two finite Numbers is the correctly rounded
    exact product, a zero when that is zero. *)
Theorem mul_correct x y :
  finite x -> finite y -> valid x = true -> valid y = true ->
  let v := B2Q x * B2Q y in
  Qabs v < bpow 1023 ->
  finite (mul x y) /\ valid (mul x y) = true
  /\ (v == 0 -> B2Q (mul x y) == 0)
  /\ (~ v == 0 -> correctly_rounded v (mul x y)).
Proof.
  intros Hfx Hfy Hvx Hvy v Hv.
  destruct x as [sx | sx | | sx mx ex]; try contradiction;
    destruct y as [sy | sy | | sy my ey]; try contradiction;
    try (unfold mul; cbn [SFmul]; zero_result v).
  destruct (valid_finite_inv _ _ _ Hvx) as (Hdx & Hex & Hcx).
  destruct (valid_finite_inv _ _ _ Hvy) as (Hdy & Hey & Hcy).
  pose proof (Zdigits2_mul_ge (Z.pos mx) (Z.pos my) ltac:(lia) ltac:(lia)) as Hdig.
  destruct (Zdigits2_bounds (Z.pos mx) ltac:(lia)) as [Hdx0 _].
  destruct (Zdigits2_bounds (Z.pos my) ltac:(lia)) as [Hdy0 _].
  set (w := inject_Z (Z.pos (mx * my)) / inject_Z 1 * bpow (ex + ey)).
  assert (Hv' : v == sign (xorb sx sy) * w).
  { unfold v, w. rewrite !B2Q_finite, sign_xorb, bpow_add, Pos2Z.inj_mul, inject_Z_mult.
    field. }
  assert (Hw : 0 < w).
  { unfold w. pose proof (bpow_pos (ex + ey)).
    assert (0 < inject_Z (Z.pos (mx * my))) by (apply inject_Z_pos_lt; lia).
    setoid_replace (inject_Z (Z.pos (mx * my)) / inject_Z 1)
      with (inject_Z (Z.pos (mx * my))) by field.
    apply Qmult_lt_0_compat; assumption. }
  assert (Hwlt : w < bpow 1023).
  { rewrite Hv', Qabs_sign, Qabs_pos in Hv by lra. exact Hv. }
  assert (Hloc : located (Z.pos (mx * my)) loc_Exact (Z.pos (mx * my)) 1)
    by (cbn [located]; lia).
  assert (Halign : (ex + ey <= fexp (Zdigits2 (Z.pos (mx * my)) + (ex + ey)))%Z).
  { rewrite fexp_eq. rewrite Pos2Z.inj_mul. lia. }
  destruct (binary_round_aux_Q (xorb sx sy) (Z.pos (mx * my)) (ex + ey) loc_Exact
              (Z.pos (mx * my)) 1 ltac:(lia) ltac:(lia) Hloc Halign Hwlt)
    as (Hfin & Hval & Hex1 & Hsp).
  change (binary_round_aux prec emax (xorb sx sy) (Z.pos (mx * my)) (ex + ey) loc_Exact)
    with (mul (S754_finite sx mx ex) (S754_finite sy my ey)) in *.
  split; [exact Hfin |]. split; [exact Hval |]. split.
  - intros Hz. rewrite Hv' in Hz. exfalso.
    assert (Qabs (sign (xorb sx sy) * w) == 0) by (rewrite Hz; reflexivity).
    rewrite Qabs_sign, Qabs_pos in H by lra. lra.
  - intros _. apply (correctly_rounded_ext (sign (xorb sx sy) * w)); [symmetry; exact Hv' |].
    eapply correctly_rounded_signed; eauto.
Qed.

Lemma Zdigits2_shift m k :
  (0 < m)%Z -> (0 <= k)%Z -> Zdigits2 (m * 2 ^ k) = (Zdigits2 m + k)%Z.
Proof.
  intros Hm Hk. destruct (Zdigits2_bounds m Hm) as [Hd Hb].
  assert (0 < 2 ^ k)%Z by (apply Z.pow_pos_nonneg; lia).
  apply Zdigits2_unique; [nia |].
  replace (Zdigits2 m + k - 1)%Z with ((Zdigits2 m - 1) + k)%Z by lia.
  rewrite !Z.pow_add_r by lia. nia.
Qed.

Lemma shl_align_spec mx ex ex' :
  let '(mz, ez) := shl_align mx ex ex' in
  ez = Z.min ex ex' /\ Z.pos mz = (Z.pos mx * 2 ^ (ex - ez))%Z.
Proof.
  unfold shl_align. destruct (ex' - ex)%Z as [| d | d] eqn:Hd.
  - replace (Z.min ex ex') with ex by lia. rewrite Z.sub_diag. lia.
  - replace (Z.min ex ex') with ex by lia. rewrite Z.sub_diag. lia.
  - replace (Z.min ex ex') with ex' by lia. split; [reflexivity |].
    change (Pos.iter xO mx d) with (Zpower.shift_pos d mx).
    rewrite Zpower.shift_pos_correct. replace (ex - ex')%Z with (Z.pos d) by lia.
    change (Z.pow_pos 2 d) with (2 ^ Z.pos d)%Z. ring.
Qed.

Lemma binary_round_correct sx mx ex :
  let v := inject_Z (Z.pos mx) * bpow ex in
  v < bpow 1023 ->
  correctly_rounded (sign sx * v) (binary_round prec emax sx mx ex).
Proof.
  intros v Hv. unfold binary_round.
  pose proof (shl_align_spec mx ex (fexp (Z.pos (digits2_pos mx) + ex))) as Hal.
  destruct (shl_align mx ex (fexp (Z.pos (digits2_pos mx) + ex))) as [mz ez].
  destruct Hal as [Hez Hmz].
  change (Z.pos (digits2_pos mx)) with (Zdigits2 (Z.pos mx)) in Hez.
  assert (Hk : (0 <= ex - ez)%Z) by lia.
  assert (Hdig : (Zdigits2 (Z.pos mz) + ez = Zdigits2 (Z.pos mx) + ex)%Z).
  { rewrite Hmz, Zdigits2_shift by lia. lia. }
  assert (Halign : (ez <= fexp (Zdigits2 (Z.pos mz) + ez))%Z) by (rewrite Hdig; lia).
  assert (Hval : inject_Z (Z.pos mz) / inject_Z 1 * bpow ez == v).
  { unfold v. rewrite Hmz, inject_Z_mult, bpow_inject by lia.
    replace ex with ((ex - ez) + ez)%Z at 2 by lia. rewrite bpow_add. field. }
  assert (Hloc : located (Z.pos mz) loc_Exact (Z.pos mz) 1) by (cbn [located]; lia).
  assert (Hpos : 0 < v).
  { unfold v. pose proof (bpow_pos ex).
    assert (0 < inject_Z (Z.pos mx)) by (apply inject_Z_pos_lt; lia).
    apply Qmult_lt_0_compat; assumption. }
  destruct (binary_round_aux_Q sx (Z.pos mz) ez loc_Exact (Z.pos mz) 1
              ltac:(lia) ltac:(lia) Hloc Halign ltac:(rewrite Hval; exact Hv))
    as (Hfin & Hvalid & (M & HM & HB & Hle & Htie) & Hsp).
  apply (correctly_rounded_signed sx v _ Hpos Hfin Hvalid
           (fexp (Zdigits2 (Z.pos mz) + ez))).
  - exists M. rewrite <- Hval. auto.
  - destruct Hsp as (H1 & H2 & H3). unfold spacing. rewrite <- Hval. auto.
Qed.

(** [binary_normalize] gives the correctly rounded value of [m * 2^e]. *)
Lemma binary_normalize_correct m e :
  let v := inject_Z m * bpow e in
  Qabs v < bpow 1023 ->
  let r := binary_normalize prec emax m e false in
  finite r /\ valid r = true
  /\ (m = 0%Z -> B2Q r == 0)
  /\ (m <> 0%Z -> correctly_rounded v r).
Proof.
  intros v Hv r. pose proof (bpow_pos e) as Hpe.
  destruct m as [| p | p]; unfold r; cbn [binary_normalize].
  - split; [exact I |]. split; [reflexivity |].
    split; [intros _; reflexivity | intros Hn; contradiction].
  - assert (Hc : correctly_rounded (sign false * (inject_Z (Z.pos p) * bpow e))
                   (binary_round prec emax false p e)).
    { apply binary_round_correct. unfold v in Hv.
      rewrite Qabs_pos in Hv; [exact Hv |].
      assert (0 < inject_Z (Z.pos p)) by (apply inject_Z_pos_lt; lia). nra. }
    apply (correctly_rounded_ext _ v) in Hc; [| unfold v, sign; ring].
    destruct Hc as (Hf & Hvl & Hr). repeat split; trivial; try discriminate.
  - assert (Hc : correctly_rounded (sign true * (inject_Z (Z.pos p) * bpow e))
                   (binary_round prec emax true p e)).
    { apply binary_round_correct. unfold v in Hv.
      assert (0 < inject_Z (Z.pos p)) by (apply inject_Z_pos_lt; lia).
      rewrite Qabs_neg in Hv.
      - change (Z.neg p) with (- Z.pos p)%Z in Hv. rewrite inject_Z_opp in Hv. lra.
      - change (Z.neg p) with (- Z.pos p)%Z. rewrite inject_Z_opp. nra. }
    apply (correctly_rounded_ext _ v) in Hc.
    2:{ unfold v, sign. change (Z.neg p) with (- Z.pos p)%Z. rewrite inject_Z_opp. ring. }
    destruct Hc as (Hf & Hvl & Hr). repeat split; trivial; try discriminate.
Qed.

Lemma inject_Z_half_zero z :
  - (1 # 2) <= inject_Z z <= 1 # 2 -> z = 0%Z.
Proof.
  intros [H1 H2].
  assert (Ha : inject_Z z < inject_Z 1) by (change (inject_Z 1) with 1; lra).
  assert (Hb : inject_Z (- 1) < inject_Z z) by (change (inject_Z (- 1)) with (- (1)); lra).
  rewrite <- Zlt_Qlt in Ha, Hb. lia.
Qed.

(** A value that lies on the grid is returned as it is. *)
Lemma rounded_exact v V E J e0 :
  rounded v V E -> (E <= e0)%Z -> v == inject_Z J * bpow e0 -> V == v.
Proof.
  intros (M & HV & Hle & _) HE Hv.
  pose proof (bpow_pos E) as HpE. pose proof (bpow_half E) as Hh.
  assert (Hgrid : v == inject_Z (J * 2 ^ (e0 - E)) * bpow E).
  { rewrite Hv, inject_Z_mult, bpow_inject by lia.
    replace e0 with ((e0 - E) + E)%Z at 1 by lia. rewrite bpow_add. ring. }
  set (J' := (J * 2 ^ (e0 - E))%Z) in *.
  assert (Hd : V - v == bpow E * inject_Z (M - J')).
  { rewrite HV, Hgrid. unfold Zminus. rewrite inject_Z_plus, inject_Z_opp. ring. }
  rewrite Hd, Qabs_Qmult, (Qabs_pos (bpow E)) in Hle by lra.
  assert (Hz : Qabs (inject_Z (M - J')) <= 1 # 2).
  { apply (Qmult_le_l _ _ (bpow E)); [exact HpE |]. lra. }
  apply Qabs_Qle_condition in Hz. apply inject_Z_half_zero in Hz.
  assert (Hdz : V - v == 0) by (rewrite Hd, Hz; ring). lra.
Qed.

(** A correctly rounded operation whose exact result is a Number
    returns it. *)
Lemma correctly_rounded_exact v r J e0 :
  correctly_rounded v r ->
  v == inject_Z J * bpow e0 -> (-1074 <= e0)%Z -> Qabs v < bpow (e0 + 53) ->
  B2Q r == v.
Proof.
  intros (_ & _ & E & Hr & (HE & Hlo & Hhi)) Hv He0 Hlt.
  apply (rounded_exact v (B2Q r) E J e0 Hr); [| exact Hv].
  destruct (Z.eq_dec E (-1074)) as [-> | Hn]; [exact He0 |].
  specialize (Hlo ltac:(lia)).
  assert (Hb : bpow (E + 52) < bpow (e0 + 53)) by lra.
  apply bpow_lt_inv in Hb. lia.
Qed.

Lemma bpow_0 : bpow 0 == 1.
Proof. reflexivity. Qed.

(** An integer of magnitude below 2^53 is a Number. *)
Theorem of_Z_correct n :
  (Z.abs n < 2 ^ 53)%Z ->
  finite (of_Z n) /\ valid (of_Z n) = true /\ B2Q (of_Z n) == inject_Z n.
Proof.
  intros Hn.
  assert (Hlt : Qabs (inject_Z n * bpow 0) < bpow 1023).
  { rewrite bpow_0, Qmult_1_r.
    apply Qlt_trans with (bpow 53); [| apply bpow_lt; lia].
    rewrite <- bpow_inject by lia.
    apply Qabs_Qlt_condition. rewrite <- inject_Z_opp, <- !Zlt_Qlt. lia. }
  destruct (binary_normalize_correct n 0 Hlt) as (Hf & Hv & Hz & Hnz).
  split; [exact Hf |]. split; [exact Hv |].
  destruct (Z.eq_dec n 0) as [-> | Hne]; [now apply Hz |].
  rewrite (correctly_rounded_exact _ _ n 0 (Hnz Hne)).
  - rewrite bpow_0. ring.
  - reflexivity.
  - lia.
  - rewrite bpow_0, Qmult_1_r. change (0 + 53)%Z with 53%Z.
    rewrite <- bpow_inject by lia.
    apply Qabs_Qlt_condition. rewrite <- inject_Z_opp, <- !Zlt_Qlt. lia.
Qed.

(** A valid Number is its own rounding. *)
Lemma valid_self s m e :
  valid (S754_finite s m e) = true ->
  correctly_rounded (B2Q (S754_finite s m e)) (S754_finite s m e).
Proof.
  intros Hv. destruct (valid_finite_inv _ _ _ Hv) as (Hd & He & Hc).
  destruct (Zdigits2_bounds (Z.pos m) ltac:(lia)) as [Hd0 Hb].
  pose proof (bpow_pos e) as Hpe. pose proof (bpow_pos (e - 1)) as Hpe1.
  assert (Hm : 0 < inject_Z (Z.pos m)) by (apply inject_Z_pos_lt; lia).
  split; [exact I |]. split; [exact Hv |]. exists e. split.
  - exists (if s then - Z.pos m else Z.pos m)%Z. split; [| split].
    + cbn [B2Q]. destruct s; rewrite ?inject_Z_opp; ring.
    + setoid_replace (B2Q (S754_finite s m e) - B2Q (S754_finite s m e)) with 0 by ring.
      change (Qabs 0) with 0. lra.
    + setoid_replace (B2Q (S754_finite s m e) - B2Q (S754_finite s m e)) with 0 by ring.
      change (Qabs 0) with 0. intros H. lra.
  - unfold spacing. rewrite B2Q_finite, Qabs_sign, Qabs_pos by nra.
    repeat split.
    + lia.
    + intros Hn. assert (Hd53 : Zdigits2 (Z.pos m) = 53%Z) by lia.
      rewrite Hd53 in Hb. rewrite bpow_add.
      assert (bpow 52 <= inject_Z (Z.pos m)).
      { rewrite <- bpow_inject by lia. rewrite <- Zle_Qle. lia. }
      rewrite (Qmult_comm (bpow e)). apply Qmult_le_compat_r; lra.
    + rewrite bpow_add.
      assert (inject_Z (Z.pos m) < bpow 53).
      { rewrite <- bpow_inject by lia. rewrite <- Zlt_Qlt.
        assert (2 ^ Zdigits2 (Z.pos m) <= 2 ^ 53)%Z by (apply Z.pow_le_mono_r; lia). lia. }
      rewrite (Qmult_comm (bpow e)). apply Qmult_lt_compat_r; lra.
Qed.

Lemma shl_align_fst mx ex ez :
  (ez <= ex)%Z -> Z.pos (fst (shl_align mx ex ez)) = (Z.pos mx * 2 ^ (ex - ez))%Z.
Proof.
  intros H. pose proof (shl_align_spec mx ex ez) as Hs.
  destruct (shl_align mx ex ez) as [mz e']. destruct Hs as [He Hm]. cbn [fst].
  rewrite Hm. f_equal. f_equal. lia.
Qed.

Lemma aligned_value s mx ex ez :
  (ez <= ex)%Z ->
  inject_Z (cond_Zopp s (Z.pos (fst (shl_align mx ex ez)))) * bpow ez
  == B2Q (S754_finite s mx ex).
Proof.
  intros H. rewrite shl_align_fst by exact H.
  assert (Hb : bpow ex == bpow (ex - ez) * bpow ez).
  { rewrite <- bpow_add. replace (ex - ez + ez)%Z with ex by lia. reflexivity. }
  cbn [B2Q]. rewrite Hb.
  destruct s; cbn [cond_Zopp]; rewrite ?inject_Z_opp, inject_Z_mult, bpow_inject by lia; ring.
Qed.

(** A result that is one of the operands, the other being a zero. *)
Ltac same_result v x Hvx :=
  split; [exact I |]; split; [exact Hvx |]; split;
  [ intros Hz; rewrite <- Hz; unfold v; cbn [B2Q]; ring
  | intros _; apply (correctly_rounded_ext (B2Q x));
    [unfold v; cbn [B2Q]; ring | apply valid_self; exact Hvx] ].

(** [x + y] and [x - y]: correctly rounded, a zero when the exact result
    is zero. *)
Theorem add_correct x y :
  finite x -> finite y -> valid x = true -> valid y = true ->
  let v := B2Q x + B2Q y in
  Qabs v < bpow 1023 ->
  finite (add x y) /\ valid (add x y) = true
  /\ (v == 0 -> B2Q (add x y) == 0)
  /\ (~ v == 0 -> correctly_rounded v (add x y)).
Proof.
  intros Hfx Hfy Hvx Hvy v Hv.
  destruct x as [sx | sx | | sx mx ex]; try contradiction;
    destruct y as [sy | sy | | sy my ey]; try contradiction.
  - unfold add; cbn [SFadd]. destruct sx, sy; zero_result v.
  - unfold add; cbn [SFadd]. same_result v (S754_finite sy my ey) Hvy.
  - unfold add; cbn [SFadd]. same_result v (S754_finite sx mx ex) Hvx.
  - unfold add; cbn [SFadd].
    set (ez := Z.min ex ey).
    set (S := (cond_Zopp sx (Z.pos (fst (shl_align mx ex ez)))
               + cond_Zopp sy (Z.pos (fst (shl_align my ey ez))))%Z).
    assert (HS : inject_Z S * bpow ez == v).
    { unfold S, v. rewrite inject_Z_plus, Qmult_plus_distr_l.
      rewrite !aligned_value by (unfold ez; lia). reflexivity. }
    destruct (binary_normalize_correct S ez ltac:(rewrite HS; exact Hv))
      as (Hf & Hvl & Hz & Hnz).
    split; [exact Hf |]. split; [exact Hvl |]. split.
    + intros Hv0. apply Hz. rewrite <- HS in Hv0.
      pose proof (bpow_pos ez).
      destruct (Z.eq_dec S 0) as [| Hne]; [assumption | exfalso].
      assert (~ inject_Z S == 0) by (intros Hc; apply Hne; now apply (inject_Z_injective S 0)).
      apply H0. apply (Qmult_inj_r _ _ (bpow ez)); [lra |]. rewrite Hv0. ring.
    + intros Hv0. apply (correctly_rounded_ext (inject_Z S * bpow ez)); [exact HS |].
      apply Hnz. intros ->. apply Hv0. rewrite <- HS. ring.
Qed.

Theorem sub_correct x y :
  finite x -> finite y -> valid x = true -> valid y = true ->
  let v := B2Q x - B2Q y in
  Qabs v < bpow 1023 ->
  finite (sub x y) /\ valid (sub x y) = true
  /\ (v == 0 -> B2Q (sub x y) == 0)
  /\ (~ v == 0 -> correctly_rounded v (sub x y)).
Proof.
  intros Hfx Hfy Hvx Hvy v Hv.
  destruct x as [sx | sx | | sx mx ex]; try contradiction;
    destruct y as [sy | sy | | sy my ey]; try contradiction.
  - unfold sub; cbn [SFsub]. destruct sx, sy; zero_result v.
  - unfold sub; cbn [SFsub].
    assert (Hvn : valid (S754_finite (negb sy) my ey) = true) by exact Hvy.
    split; [exact I |]. split; [exact Hvn |]. split.
    + intros Hz. rewrite <- Hz. unfold v. cbn [B2Q]. destruct sy; cbn [negb]; ring.
    + intros _. apply (correctly_rounded_ext (B2Q (S754_finite (negb sy) my ey))).
      * unfold v. cbn [B2Q]. destruct sy; cbn [negb]; ring.
      * apply valid_self. exact Hvn.
  - unfold sub; cbn [SFsub]. same_result v (S754_finite sx mx ex) Hvx.
  - unfold sub; cbn [SFsub].
    set (ez := Z.min ex ey).
    set (S := (cond_Zopp sx (Z.pos (fst (shl_align mx ex ez)))
               - cond_Zopp sy (Z.pos (fst (shl_align my ey ez))))%Z).
    assert (HS : inject_Z S * bpow ez == v).
    { unfold S, v, Zminus. rewrite inject_Z_plus, inject_Z_opp.
      setoid_replace
        ((inject_Z (cond_Zopp sx (Z.pos (fst (shl_align mx ex ez))))
          + - inject_Z (cond_Zopp sy (Z.pos (fst (shl_align my ey ez))))) * bpow ez)
        with (inject_Z (cond_Zopp sx (Z.pos (fst (shl_align mx ex ez)))) * bpow ez
              - inject_Z (cond_Zopp sy (Z.pos (fst (shl_align my ey ez)))) * bpow ez)
        by ring.
      rewrite !aligned_value by (unfold ez; lia). reflexivity. }
    destruct (binary_normalize_correct S ez ltac:(rewrite HS; exact Hv))
      as (Hf & Hvl & Hz & Hnz).
    split; [exact Hf |]. split; [exact Hvl |]. split.
    + intros Hv0. apply Hz. rewrite <- HS in Hv0.
      pose proof (bpow_pos ez).
      destruct (Z.eq_dec S 0) as [| Hne]; [assumption | exfalso].
      assert (~ inject_Z S == 0) by (intros Hc; apply Hne; now apply (inject_Z_injective S 0)).
      apply H0. apply (Qmult_inj_r _ _ (bpow ez)); [lra |]. rewrite Hv0. ring.
    + intros Hv0. apply (correctly_rounded_ext (inject_Z S * bpow ez)); [exact HS |].
      apply Hnz. intros ->. apply Hv0. rewrite <- HS. ring.
Qed.

Lemma new_location_located nb q r :
  (0 < nb)%Z -> (0 <= r < nb)%Z ->
  located q (new_location nb r) (q * nb + r) nb.
Proof.
  intros Hnb Hr. unfold new_location.
  destruct (Z.even nb) eqn:Hev.
  - unfold new_location_even.
    destruct (Z.eqb_spec r 0) as [-> | Hne]; [cbn [located]; lia |].
    destruct (Z.compare_spec (2 * r) nb); cbn [located]; lia.
  - unfold new_location_odd.
    destruct (Z.eqb_spec r 0) as [-> | Hne]; [cbn [located]; lia |].
    assert (Hodd : Z.odd nb = true) by (rewrite <- Z.negb_even, Hev; reflexivity).
    apply Z.odd_spec in Hodd as [k Hk].
    destruct (Z.compare_spec (2 * r + 1) nb); cbn [located]; lia.
Qed.

(** The integer division at the core of [SFdiv]: a quotient with at
    least 53 digits when the grid allows it, and the place of the exact
    quotient next to it. *)
Lemma div_core_spec mx ex my ey :
  let m1 := Z.pos mx in
  let m2 := Z.pos my in
  let D := (Zdigits2 m1 + ex - (Zdigits2 m2 + ey))%Z in
  let '(q, e', l) := SFdiv_core_binary prec emax m1 ex m2 ey in
  e' = Z.min (fexp D) (ex - ey)
  /\ (0 <= q)%Z
  /\ located q l (m1 * 2 ^ (ex - ey - e')) m2
  /\ (0 <= D - 1 - e' -> 2 ^ (D - 1 - e') <= q)%Z.
Proof.
  intros m1 m2 D. unfold SFdiv_core_binary. fold m1 m2. fold D.
  set (e' := Z.min (fexp D) (ex - ey)).
  set (s := (ex - ey - e')%Z).
  assert (Hs : (0 <= s)%Z) by (unfold s, e'; lia).
  assert (Hm' : match s with
                | Z.pos _ => Z.shiftl m1 s
                | 0%Z => m1
                | Z.neg _ => 0%Z
                end = (m1 * 2 ^ s)%Z).
  { destruct s as [| p | p] eqn:Es.
    - change (2 ^ 0)%Z with 1%Z. lia.
    - apply Z.shiftl_mul_pow2. lia.
    - lia. }
  rewrite Hm'.
  assert (Hp : (0 < 2 ^ s)%Z) by (apply Z.pow_pos_nonneg; lia).
  pose proof (Z_div_mod (m1 * 2 ^ s) m2 ltac:(unfold m2; lia)) as Hdm.
  destruct (Z.div_eucl (m1 * 2 ^ s) m2) as [q r]. destruct Hdm as [Heq Hr].
  assert (Hq : (0 <= q)%Z) by (unfold m1, m2 in *; nia).
  split; [reflexivity |]. split; [exact Hq |]. split.
  - change (ex - ey - e')%Z with s. rewrite Heq.
    replace (m2 * q + r)%Z with (q * m2 + r)%Z by ring.
    apply new_location_located; [unfold m2; lia | lia].
  - intros Hk.
    destruct (Zdigits2_bounds m1 ltac:(unfold m1; lia)) as [Hd1 Hb1].
    destruct (Zdigits2_bounds m2 ltac:(unfold m2; lia)) as [Hd2 Hb2].
    assert (Hpow : (2 ^ (D - 1 - e') * 2 ^ Zdigits2 m2 = 2 ^ (Zdigits2 m1 - 1) * 2 ^ s)%Z).
    { rewrite <- !Z.pow_add_r by lia. f_equal. unfold D, s. lia. }
    assert (Hpk : (0 < 2 ^ (D - 1 - e'))%Z) by (apply Z.pow_pos_nonneg; lia).
    assert (Hlt : (2 ^ (D - 1 - e') * m2 < m2 * q + r)%Z) by nia.
    nia.
Qed.

(** [x / y]: the quotient of two finite non-zero Numbers is correctly
    rounded, as long as it neither underflows to zero nor overflows. *)
Theorem div_correct x y :
  finite x -> finite y -> ~ B2Q x == 0 -> ~ B2Q y == 0 ->
  let v := B2Q x / B2Q y in
  bpow (-1074) <= Qabs v -> Qabs v < bpow 1023 ->
  correctly_rounded v (div x y).
Proof.
  intros Hfx Hfy Hx0 Hy0 v Hlo Hhi.
  destruct x as [sx | sx | | sx mx ex]; try contradiction; try (exfalso; apply Hx0; reflexivity).
  destruct y as [sy | sy | | sy my ey]; try contradiction; try (exfalso; apply Hy0; reflexivity).
  unfold div; cbn [SFdiv].
  pose proof (div_core_spec mx ex my ey) as Hcore. cbv zeta in Hcore.
  set (D := (Zdigits2 (Z.pos mx) + ex - (Zdigits2 (Z.pos my) + ey))%Z) in *.
  destruct (SFdiv_core_binary prec emax (Z.pos mx) ex (Z.pos my) ey) as [[q e'] l].
  destruct Hcore as (He' & Hq & Hloc & Hqlow).
  set (N := (Z.pos mx * 2 ^ (ex - ey - e'))%Z) in *.
  assert (Hs : (0 <= ex - ey - e')%Z) by lia.
  pose proof (bpow_pos ex) as Hpex. pose proof (bpow_pos ey) as Hpey.
  pose proof (bpow_pos e') as Hpe'.
  assert (Hmx : 0 < inject_Z (Z.pos mx)) by (apply inject_Z_pos_lt; lia).
  assert (Hmy : 0 < inject_Z (Z.pos my)) by (apply inject_Z_pos_lt; lia).
  set (w := inject_Z N / inject_Z (Z.pos my) * bpow e').
  assert (Hbex : bpow ex == bpow (ex - ey - e') * bpow e' * bpow ey).
  { rewrite <- !bpow_add. replace (ex - ey - e' + e' + ey)%Z with ex by lia. reflexivity. }
  assert (Hv : v == sign (xorb sx sy) * w).
  { unfold v, w, N. rewrite !B2Q_finite, sign_xorb, inject_Z_mult, bpow_inject by lia.
    rewrite Hbex. destruct sx, sy; cbn [sign]; field; split; lra. }
  assert (Hw : 0 < w).
  { unfold w, N. rewrite inject_Z_mult, bpow_inject by lia.
    pose proof (bpow_pos (ex - ey - e')).
    apply Qmult_lt_0_compat; [| exact Hpe'].
    apply Qlt_shift_div_l; [exact Hmy |]. nra. }
  assert (Habs : Qabs v == w) by (rewrite Hv, Qabs_sign, Qabs_pos; lra).
  rewrite Habs in Hlo, Hhi.
  pose proof (located_bounds q l N (Z.pos my) ltac:(lia) Hloc) as [Hql Hqh].
  fold w in Hql, Hqh.
  assert (Hsmall : (D - 1 - e' < 0 -> e' <= -1074)%Z).
  { intros Hneg. rewrite fexp_eq in He'. lia. }
  assert (Hqpos : (0 < q)%Z).
  { destruct (Z.eq_dec q 0) as [Hq0 | Hqn]; [exfalso | lia].
    destruct (Z.ltb_spec (D - 1 - e') 0) as [Hneg | Hnn].
    - specialize (Hsmall Hneg). subst q. change (inject_Z 0) with 0 in Hqh.
      assert (bpow e' <= bpow (-1074)) by (apply bpow_le; lia).
      assert (w < bpow e'); [| lra].
      unfold w. setoid_replace (bpow e') with (1 * bpow e') at 2 by ring.
      apply Qmult_lt_compat_r; [exact Hpe' | lra].
    - specialize (Hqlow Hnn).
      assert (0 < 2 ^ (D - 1 - e'))%Z by (apply Z.pow_pos_nonneg; lia). lia. }
  assert (Halign : (e' <= fexp (Zdigits2 q + e'))%Z).
  { destruct (Z.ltb_spec (D - 1 - e') 0) as [Hneg | Hnn].
    - specialize (Hsmall Hneg). rewrite fexp_eq. lia.
    - specialize (Hqlow Hnn).
      assert (D - e' <= Zdigits2 q)%Z.
      { apply Zdigits2_ge; [exact Hqpos |].
        replace (D - e' - 1)%Z with (D - 1 - e')%Z by lia. exact Hqlow. }
      assert (fexp D <= fexp (Zdigits2 q + e'))%Z by (apply fexp_mono; lia). lia. }
  destruct (binary_round_aux_Q (xorb sx sy) q e' l N (Z.pos my)
              Hqpos ltac:(lia) Hloc Halign Hhi)
    as (Hfin & Hval & Hex1 & Hsp).
  apply (correctly_rounded_ext (sign (xorb sx sy) * w)); [symmetry; exact Hv |].
  eapply correctly_rounded_signed; eauto.
Qed.

(** *** Rounding to an integer *)

Lemma Qfloor_unique q n :
  inject_Z n <= q -> q < inject_Z (n + 1) -> Qfloor q = n.
Proof.
  intros H1 H2.
  pose proof (Qfloor_le q) as Ha. pose proof (Qlt_floor q) as Hb.
  assert (Hc : inject_Z n < inject_Z (Qfloor q + 1)) by lra.
  assert (Hd : inject_Z (Qfloor q) < inject_Z (n + 1)) by lra.
  rewrite <- Zlt_Qlt in Hc, Hd. lia.
Qed.

Lemma bpow_neg k : (0 <= k)%Z -> bpow (- k) * inject_Z (2 ^ k) == 1.
Proof.
  intros Hk. rewrite bpow_inject by lia. rewrite <- bpow_add.
  replace (- k + k)%Z with 0%Z by lia. reflexivity.
Qed.

(** [floor_half_up v e] is the floor of [v * 2^e + 1/2]. *)
Lemma floor_half_up_spec v e :
  floor_half_up v e = Qfloor (inject_Z v * bpow e + (1 # 2)).
Proof.
  unfold floor_half_up. symmetry. destruct (Z.leb_spec 0 e) as [He | He].
  - apply Qfloor_unique.
    + rewrite inject_Z_mult, bpow_inject by lia. lra.
    + rewrite inject_Z_plus, inject_Z_mult, bpow_inject by lia.
      change (inject_Z 1) with 1. lra.
  - set (k := (- e)%Z). assert (Hk : (0 < k)%Z) by (unfold k; lia).
    replace (1 - e)%Z with (k + 1)%Z by (unfold k; lia).
    replace e with (- k)%Z by (unfold k; lia).
    assert (Hp : (0 < 2 ^ k)%Z) by (apply Z.pow_pos_nonneg; lia).
    assert (Hp1 : (2 ^ (k + 1) = 2 * 2 ^ k)%Z) by (rewrite Z.pow_add_r by lia; ring).
    pose proof (bpow_neg k ltac:(lia)) as Hb.
    pose proof (bpow_pos (- k)) as Hbp.
    assert (HP : 0 < inject_Z (2 ^ k)) by (apply inject_Z_pos_lt; exact Hp).
    set (P := inject_Z (2 ^ k)) in *. set (b := bpow (- k)) in *.
    pose proof (Z.div_mod (2 * v + 2 ^ k) (2 ^ (k + 1)) ltac:(lia)) as Hdm.
    pose proof (Z.mod_pos_bound (2 * v + 2 ^ k) (2 ^ (k + 1)) ltac:(lia)) as Hmb.
    set (n := ((2 * v + 2 ^ k) / 2 ^ (k + 1))%Z) in *.
    set (r := ((2 * v + 2 ^ k) mod 2 ^ (k + 1))%Z) in *.
    rewrite Hp1 in Hdm, Hmb.
    assert (Hq : 2 * inject_Z v + P == 2 * P * inject_Z n + inject_Z r).
    { unfold P. change 2 with (inject_Z 2).
      rewrite <- !inject_Z_mult, <- !inject_Z_plus. apply inject_Z_injective. lia. }
    assert (Hr0 : 0 <= inject_Z r) by (change 0 with (inject_Z 0); rewrite <- Zle_Qle; lia).
    assert (Hr1 : inject_Z r < 2 * P).
    { unfold P. change 2 with (inject_Z 2). rewrite <- inject_Z_mult, <- Zlt_Qlt. lia. }
    assert (Hv : inject_Z v * b + (1 # 2) == inject_Z n + inject_Z r * b * (1 # 2)).
    { assert (HPb : P * b == 1) by (rewrite Qmult_comm; exact Hb).
      setoid_replace (inject_Z v * b + (1 # 2))
        with ((2 * inject_Z v + P) * b * (1 # 2) + (1 # 2) * (1 - P * b)) by ring.
      rewrite Hq.
      setoid_replace ((2 * P * inject_Z n + inject_Z r) * b * (1 # 2) + (1 # 2) * (1 - P * b))
        with (inject_Z n * (P * b) + inject_Z r * b * (1 # 2) + (1 # 2) * (1 - P * b)) by ring.
      rewrite HPb. ring. }
    apply Qfloor_unique.
    + rewrite Hv. assert (0 <= inject_Z r * b) by nra. lra.
    + rewrite Hv, inject_Z_plus. change (inject_Z 1) with 1.
      assert (inject_Z r * b < 2) by nra. lra.
Qed.

(** [Math.round] of a finite Number is [floor (x + 1/2)]. *)
Theorem Math_round_spec x :
  finite x -> to_Z (Math_round x) = Some (Qfloor (B2Q x + (1 # 2))).
Proof.
  destruct x as [s | s | | s m e]; try contradiction; intros _.
  - destruct s; reflexivity.
  - cbn [Math_round].
    set (v := if s then Z.neg m else Z.pos m).
    assert (Hv : B2Q (S754_finite s m e) == inject_Z v * bpow e).
    { cbn [B2Q]. unfold v. destruct s; reflexivity. }
    rewrite (Qfloor_comp _ _ (Qplus_comp _ _ Hv _ _ (Qeq_refl (1 # 2)))).
    rewrite <- floor_half_up_spec.
    destruct (Z.eqb_spec (floor_half_up v e) 0) as [E0 | ]; [| reflexivity].
    destruct s; cbn [andb to_Z]; congruence.
Qed.

(** The standard model of a rounded operation. *)
Lemma error_bound v r :
  correctly_rounded v r -> Qabs (B2Q r - v) <= u * Qabs v + eta.
Proof.
  intros (_ & _ & E & (M & _ & Hle & _) & (HE & Hlo & _)).
  pose proof (Qabs_nonneg v) as Hv0.
  assert (Hu : 0 < u) by apply bpow_pos. assert (He : 0 < eta) by apply bpow_pos.
  destruct (Z.eq_dec E (-1074)) as [-> | Hn].
  - change (bpow (-1074 - 1)) with eta in Hle. nra.
  - specialize (Hlo ltac:(lia)).
    assert (Hb : bpow (E - 1) == u * bpow (E + 52)).
    { unfold u. rewrite <- bpow_add. replace (-53 + (E + 52))%Z with (E - 1)%Z by lia.
      reflexivity. }
    rewrite Hb in Hle.
    assert (u * bpow (E + 52) <= u * Qabs v) by (apply Qmult_le_l; assumption).
    lra.
Qed.

(** A grid point at most half a spacing away, with an even multiplier if
    it is exactly half a spacing away, is the rounded value. *)
Lemma rounded_unique v V E J :
  rounded v V E ->
  Qabs (inject_Z J * bpow E - v) <= bpow (E - 1) ->
  (Qabs (inject_Z J * bpow E - v) == bpow (E - 1) -> Z.even J = true) ->
  V == inject_Z J * bpow E.
Proof.
  intros (M & HV & Hle & Htie) HJ HJt.
  pose proof (bpow_pos E) as HpE. pose proof (bpow_half E) as Hh.
  assert (Hd : Qabs (inject_Z (M - J)) * bpow E <= bpow E).
  { assert (Heq : inject_Z (M - J) * bpow E == (V - v) - (inject_Z J * bpow E - v)).
    { rewrite HV. unfold Zminus. rewrite inject_Z_plus, inject_Z_opp. ring. }
    setoid_replace (Qabs (inject_Z (M - J)) * bpow E)
      with (Qabs (inject_Z (M - J) * bpow E))
      by (rewrite Qabs_Qmult, (Qabs_pos (bpow E)) by lra; reflexivity).
    rewrite Heq.
    eapply Qle_trans; [apply Qabs_triangle |]. rewrite Qabs_opp. lra. }
  assert (Hd1 : Qabs (inject_Z (M - J)) <= 1).
  { apply (Qmult_le_r _ _ (bpow E)); [exact HpE |]. lra. }
  apply Qabs_Qle_condition in Hd1. destruct Hd1 as [Hl Hr].
  change (- (1)) with (inject_Z (- 1)) in Hl. change 1 with (inject_Z 1) in Hr.
  rewrite <- Zle_Qle in Hl, Hr.
  destruct (Z.eq_dec M J) as [-> | Hne]; [exact HV |].
  exfalso.
  (* both are exactly half a spacing away, so both multipliers are even *)
  assert (Hsum : bpow E <= Qabs (V - v) + Qabs (inject_Z J * bpow E - v)).
  { assert (Heq : inject_Z (M - J) * bpow E == (V - v) - (inject_Z J * bpow E - v)).
    { rewrite HV. unfold Zminus. rewrite inject_Z_plus, inject_Z_opp. ring. }
    assert (Hone : Qabs (inject_Z (M - J) * bpow E) == bpow E).
    { rewrite Qabs_Qmult, (Qabs_pos (bpow E)) by lra.
      assert (HMJ : (M - J = 1 \/ M - J = -1)%Z) by lia.
      destruct HMJ as [-> | ->]; [change (Qabs (inject_Z 1)) with 1
                                 | change (Qabs (inject_Z (-1))) with 1]; ring. }
    apply Qle_trans with (Qabs (inject_Z (M - J) * bpow E)); [rewrite Hone; apply Qle_refl |].
    rewrite Heq.
    eapply Qle_trans; [apply Qabs_triangle |]. rewrite Qabs_opp. apply Qle_refl. }
  assert (H1 : Qabs (V - v) == bpow (E - 1)) by lra.
  assert (H2 : Qabs (inject_Z J * bpow E - v) == bpow (E - 1)) by lra.
  specialize (Htie H1). specialize (HJt H2).
  assert (HMJ : (M - J = 1 \/ M - J = -1)%Z) by lia.
  apply Z.even_spec in Htie as [a Ha]. apply Z.even_spec in HJt as [b Hb]. lia.
Qed.

Lemma B2Q_zero_inv x : finite x -> B2Q x == 0 -> exists s, x = S754_zero s.
Proof.
  destruct x as [s | s | | s m e]; try contradiction; intros _ H.
  - now exists s.
  - exfalso. rewrite B2Q_finite in H.
    pose proof (bpow_pos e).
    assert (0 < inject_Z (Z.pos m)) by (apply inject_Z_pos_lt; lia).
    assert (Hq : Qabs (sign s * (inject_Z (Z.pos m) * bpow e)) == 0) by (rewrite H; reflexivity).
    rewrite Qabs_sign, Qabs_pos in Hq by nra. nra.
Qed.

Lemma inject_Z_abs_lt n k :
  (0 <= k)%Z -> (Z.abs n < 2 ^ k)%Z -> Qabs (inject_Z n) < bpow k.
Proof.
  intros Hk Hn. rewrite <- bpow_inject by lia.
  apply Qabs_Qlt_condition. rewrite <- inject_Z_opp, <- !Zlt_Qlt. lia.
Qed.

(** Rounding a value, then rounding to an integer, gives the integer
    nearest to the value itself as long as the value keeps more than half
    a spacing below the next half-integer. *)
Lemma floor_after_rounding v V E :
  rounded v V E -> (E <= -1)%Z ->
  let K := Qfloor (v + (1 # 2)) in
  bpow (E - 1) < inject_Z (K + 1) - (v + (1 # 2)) ->
  Qfloor (V + (1 # 2)) = K.
Proof.
  intros Hr HE K Hgap.
  pose proof (Qfloor_le (v + (1 # 2))) as Hlo. fold K in Hlo.
  destruct Hr as (M & HV & Hle & _).
  pose proof (bpow_pos E) as HpE. pose proof (bpow_half E) as Hh.
  apply Qabs_Qle_condition in Hle. destruct Hle as [Hle1 Hle2].
  apply Qfloor_unique.
  - (* K - 1/2 lies on the grid *)
    set (J := ((2 * K - 1) * 2 ^ (- 1 - E))%Z).
    assert (HJ : inject_Z J * bpow E == inject_Z K - (1 # 2)).
    { unfold J. rewrite inject_Z_mult, bpow_inject by lia.
      setoid_replace (inject_Z (2 * K - 1) * bpow (-1 - E) * bpow E)
        with (inject_Z (2 * K - 1) * (bpow (-1 - E) * bpow E)) by ring.
      rewrite <- bpow_add. replace (-1 - E + E)%Z with (-1)%Z by lia.
      unfold Zminus. rewrite inject_Z_plus, inject_Z_mult.
      change (bpow (-1)) with (1 # 2). change (inject_Z 2) with 2.
      change (inject_Z (- (1))) with (- (1)). ring. }
    destruct (Z.ltb_spec M J) as [Hlt | Hge].
    + exfalso.
      assert (Hm : inject_Z M + 1 <= inject_Z J).
      { change 1 with (inject_Z 1). rewrite <- inject_Z_plus, <- Zle_Qle. lia. }
      assert ((inject_Z M + 1) * bpow E <= inject_Z J * bpow E)
        by (apply Qmult_le_compat_r; lra).
      lra.
    + assert (Hm : inject_Z J <= inject_Z M) by (rewrite <- Zle_Qle; lia).
      assert (inject_Z J * bpow E <= inject_Z M * bpow E)
        by (apply Qmult_le_compat_r; lra).
      lra.
  - lra.
Qed.

(** *** The day count *)

Lemma ms_per_day_value :
  ms_per_day = S754_finite false 5798205849600000 (-26)
  /\ B2Q ms_per_day == 86400000.
Proof. split; reflexivity. Qed.

Lemma spacing_below v E k :
  spacing v E -> Qabs v < bpow k -> (-1074 <= k - 53)%Z -> (E <= k - 53)%Z.
Proof.
  intros (HE & Hlo & _) Hv Hk.
  destruct (Z.eq_dec E (-1074)) as [-> | Hn]; [lia |].
  specialize (Hlo ltac:(lia)).
  assert (Hb : bpow (E + 52) < bpow k) by lra.
  apply bpow_lt_inv in Hb. lia.
Qed.

(** For instants whose difference is below 2^53 milliseconds the
    subtraction is exact and the rounded quotient by 86400000 rounds to
    the same integer as the exact quotient. *)
Theorem elapsed_days_exact now t :
  (Z.abs now < 2 ^ 53)%Z -> (Z.abs t < 2 ^ 53)%Z -> (Z.abs (now - t) < 2 ^ 53)%Z ->
  to_Z (elapsed_days now t)
  = Some (Qfloor (inject_Z (now - t) / inject_Z 86400000 + (1 # 2))).
Proof.
  intros Hnow Ht Hd. unfold elapsed_days.
  destruct (of_Z_correct now Hnow) as (Hfa & Hva & Ha).
  destruct (of_Z_correct t Ht) as (Hfb & Hvb & Hb).
  set (a := of_Z now) in *. set (b := of_Z t) in *.
  set (d := (now - t)%Z) in *.
  assert (Hvd : B2Q a - B2Q b == inject_Z d).
  { rewrite Ha, Hb. unfold d, Zminus. rewrite inject_Z_plus, inject_Z_opp. ring. }
  assert (Hdlt : Qabs (inject_Z d) < bpow 53) by (apply inject_Z_abs_lt; lia).
  assert (Hrange : Qabs (B2Q a - B2Q b) < bpow 1023).
  { rewrite Hvd. apply Qlt_trans with (bpow 53); [exact Hdlt | apply bpow_lt; lia]. }
  destruct (sub_correct a b Hfa Hfb Hva Hvb Hrange) as (Hfc & Hvc & Hz & Hnz).
  set (c := sub a b) in *.
  destruct ms_per_day_value as [Hms Hmsv].
  destruct (Z.eq_dec d 0) as [Hd0 | Hdn].
  - (* no time has passed *)
    destruct (B2Q_zero_inv c Hfc) as [s Hs].
    { apply Hz. rewrite Hvd, Hd0. reflexivity. }
    rewrite Hs, Hms, Hd0. destruct s; reflexivity.
  - assert (Hcn : ~ B2Q a - B2Q b == 0).
    { rewrite Hvd. intros Hc. apply Hdn. now apply (inject_Z_injective d 0). }
    specialize (Hnz Hcn).
    assert (Hc : B2Q c == inject_Z d).
    { rewrite (correctly_rounded_exact _ _ d 0 Hnz).
      - exact Hvd.
      - rewrite Hvd, bpow_0. ring.
      - lia.
      - rewrite Hvd. exact Hdlt. }
    set (v := inject_Z d / inject_Z 86400000).
    assert (Hv : B2Q c / B2Q ms_per_day == v).
    { unfold v. rewrite Hc, Hmsv. reflexivity. }
    assert (Hd1 : 1 <= Qabs (inject_Z d)).
    { change (Qabs (inject_Z d)) with (inject_Z (Z.abs d)).
      change 1 with (inject_Z 1). rewrite <- Zle_Qle. lia. }
    assert (Habsv : Qabs v == Qabs (inject_Z d) * (1 # 86400000)).
    { unfold v, Qdiv. rewrite Qabs_Qmult. reflexivity. }
    assert (Hvlo : bpow (-1074) <= Qabs v).
    { rewrite Habsv.
      apply Qle_trans with (bpow (-27)); [apply bpow_le; lia |].
      change (bpow (-27)) with (1 # 134217728). lra. }
    assert (Hvhi : Qabs v < bpow 27).
    { rewrite Habsv. change (bpow 27) with 134217728.
      change (bpow 53) with 9007199254740992 in Hdlt. lra. }
    assert (Hq : correctly_rounded v (div c ms_per_day)).
    { apply (correctly_rounded_ext (B2Q c / B2Q ms_per_day)); [exact Hv |].
      apply div_correct.
      - exact Hfc.
      - rewrite Hms. exact I.
      - rewrite Hc. intros Hc0. apply Hdn. now apply (inject_Z_injective d 0).
      - rewrite Hmsv. discriminate.
      - rewrite Hv. exact Hvlo.
      - rewrite Hv. apply Qlt_trans with (bpow 27); [exact Hvhi | apply bpow_lt; lia]. }
    destruct Hq as (Hfq & _ & E & Hr & Hsp).
    rewrite (Math_round_spec _ Hfq). f_equal.
    assert (HE : (E <= -26)%Z) by (apply (spacing_below v E 27 Hsp Hvhi); lia).
    apply (floor_after_rounding v _ E Hr); [lia |].
    (* the next half-integer is at least one 86400000th away *)
    set (K := Qfloor (v + (1 # 2))).
    pose proof (Qlt_floor (v + (1 # 2))) as Hup. fold K in Hup.
    assert (HK1 : inject_Z (K + 1) == inject_Z K + 1)
      by (rewrite inject_Z_plus; reflexivity).
    assert (Hvd' : v == inject_Z d * (1 # 86400000)) by reflexivity.
    clearbody v K.
    assert (Hgap : 1 # 86400000 <= inject_Z (K + 1) - (v + (1 # 2))).
    { assert (HZ : (2 * d < (2 * K + 1) * 86400000)%Z).
      { rewrite Zlt_Qlt, !inject_Z_mult, inject_Z_plus, inject_Z_mult.
        change (inject_Z 2) with 2. change (inject_Z 86400000) with 86400000.
        change (inject_Z 1) with 1. lra. }
      assert (HZ' : (2 * d + 2 <= (2 * K + 1) * 86400000)%Z) by lia.
      rewrite Zle_Qle, inject_Z_plus, !inject_Z_mult, inject_Z_plus, inject_Z_mult in HZ'.
      change (inject_Z 2) with 2 in HZ'. change (inject_Z 86400000) with 86400000 in HZ'.
      change (inject_Z 1) with 1 in HZ'. lra. }
    assert (bpow (E - 1) <= bpow (-27)) by (apply bpow_le; lia).
    change (bpow (-27)) with (1 # 134217728) in H. lra.
Qed.

(** *** The trending factor *)

Lemma inject_Z_pos_le1 z : (1 <= z)%Z -> 1 <= inject_Z z.
Proof. intros H. change 1 with (inject_Z 1). rewrite <- Zle_Qle. exact H. Qed.

Lemma inject_Z_lt_bpow z k : (0 <= k)%Z -> (z < 2 ^ k)%Z -> inject_Z z < bpow k.
Proof. intros Hk H. rewrite <- bpow_inject by lia. rewrite <- Zlt_Qlt. exact H. Qed.

(** The denominator [forks + 1] is computed exactly. *)
Lemma add_one_exact f :
  (0 <= f)%Z -> (f + 1 < 2 ^ 53)%Z ->
  let b := add (of_Z f) (of_Z 1) in
  finite b /\ valid b = true /\ B2Q b == inject_Z (f + 1).
Proof.
  intros Hf Hf1 b.
  destruct (of_Z_correct f ltac:(lia)) as (Hff & Hvf & Hqf).
  destruct (of_Z_correct 1 ltac:(lia)) as (Hf1' & Hv1 & Hq1).
  assert (Hsum : B2Q (of_Z f) + B2Q (of_Z 1) == inject_Z (f + 1)).
  { rewrite Hqf, Hq1, inject_Z_plus. reflexivity. }
  assert (Hlt : Qabs (inject_Z (f + 1)) < bpow 53) by (apply inject_Z_abs_lt; lia).
  destruct (add_correct (of_Z f) (of_Z 1) Hff Hf1' Hvf Hv1) as (Hfb & Hvb & _ & Hnz).
  { rewrite Hsum. apply Qlt_trans with (bpow 53); [exact Hlt | apply bpow_lt; lia]. }
  split; [exact Hfb |]. split; [exact Hvb |].
  rewrite (correctly_rounded_exact (B2Q (of_Z f) + B2Q (of_Z 1)) b (f + 1) 0).
  - exact Hsum.
  - apply Hnz. rewrite Hsum. intros Hc. apply (inject_Z_injective (f + 1) 0) in Hc. lia.
  - rewrite Hsum, bpow_0. ring.
  - lia.
  - rewrite Hsum. exact Hlt.
Qed.

(** The quotient [stars / (forks + 1)], and likewise
    [issues / (stars + 1)], is correctly rounded. *)
Lemma ratio_rounded s f :
  (0 < s)%Z -> (s < 2 ^ 53)%Z -> (0 <= f)%Z -> (f + 1 < 2 ^ 53)%Z ->
  let q := inject_Z s / inject_Z (f + 1) in
  let x := div (of_Z s) (add (of_Z f) (of_Z 1)) in
  bpow (- 53) <= q /\ q <= inject_Z s /\ correctly_rounded q x.
Proof.
  intros Hs Hs1 Hf Hf1 q x.
  destruct (of_Z_correct s ltac:(lia)) as (Hfa & Hva & Hqa).
  destruct (add_one_exact f Hf Hf1) as (Hfb & Hvb & Hqb).
  assert (Hsq : 1 <= inject_Z s) by (apply inject_Z_pos_le1; lia).
  assert (Hdq : 1 <= inject_Z (f + 1)) by (apply inject_Z_pos_le1; lia).
  assert (Hdlt : inject_Z (f + 1) < bpow 53) by (apply inject_Z_lt_bpow; lia).
  assert (Hslt : inject_Z s < bpow 53) by (apply inject_Z_lt_bpow; lia).
  change (bpow 53) with 9007199254740992 in Hdlt, Hslt.
  assert (Hq1 : q * inject_Z (f + 1) == inject_Z s) by (unfold q; field; lra).
  assert (Hqpos : 0 < q).
  { unfold q. apply Qlt_shift_div_l; lra. }
  assert (Hqlo : bpow (- 53) <= q).
  { change (bpow (-53)) with (1 # 9007199254740992).
    unfold q. apply Qle_shift_div_l; [lra |]. lra. }
  assert (Hqhi : q <= inject_Z s).
  { unfold q. apply Qle_shift_div_r; [lra |]. nra. }
  split; [exact Hqlo |]. split; [exact Hqhi |].
  apply (correctly_rounded_ext (B2Q (of_Z s) / B2Q (add (of_Z f) (of_Z 1)))).
  { rewrite Hqa, Hqb. reflexivity. }
  apply div_correct; try assumption.
  - rewrite Hqa. lra.
  - rewrite Hqb. lra.
  - rewrite Hqa, Hqb. fold q. rewrite Qabs_pos by lra.
    apply Qle_trans with (bpow (- 53)); [apply bpow_le; lia | exact Hqlo].
  - rewrite Hqa, Hqb. fold q. rewrite Qabs_pos by lra.
    apply Qle_lt_trans with (inject_Z s); [exact Hqhi |].
    apply Qlt_trans with 9007199254740992; [exact Hslt |].
    change 9007199254740992 with (bpow 53). apply bpow_lt. lia.
Qed.

(** The rounded value does not cross a grid point. *)
Lemma rounded_above_grid v V E J :
  rounded v V E -> inject_Z J * bpow E <= v -> inject_Z J * bpow E <= V.
Proof.
  intros (M & HV & Hle & _) HJ.
  pose proof (bpow_pos E) as HpE. pose proof (bpow_half E) as Hh.
  apply Qabs_Qle_condition in Hle. destruct Hle as [Hle1 Hle2].
  destruct (Z.ltb_spec M J) as [Hlt | Hge].
  - exfalso.
    assert (Hm : inject_Z M + 1 <= inject_Z J).
    { change 1 with (inject_Z 1). rewrite <- inject_Z_plus, <- Zle_Qle. lia. }
    assert ((inject_Z M + 1) * bpow E <= inject_Z J * bpow E)
      by (apply Qmult_le_compat_r; lra).
    lra.
  - assert (Hm : inject_Z J <= inject_Z M) by (rewrite <- Zle_Qle; lia).
    assert (inject_Z J * bpow E <= inject_Z M * bpow E)
      by (apply Qmult_le_compat_r; lra).
    lra.
Qed.

Lemma rounded_below_grid v V E J :
  rounded v V E -> v <= inject_Z J * bpow E -> V <= inject_Z J * bpow E.
Proof.
  intros (M & HV & Hle & _) HJ.
  pose proof (bpow_pos E) as HpE. pose proof (bpow_half E) as Hh.
  apply Qabs_Qle_condition in Hle. destruct Hle as [Hle1 Hle2].
  destruct (Z.ltb_spec J M) as [Hlt | Hge].
  - exfalso.
    assert (Hm : inject_Z J + 1 <= inject_Z M).
    { change 1 with (inject_Z 1). rewrite <- inject_Z_plus, <- Zle_Qle. lia. }
    assert ((inject_Z J + 1) * bpow E <= inject_Z M * bpow E)
      by (apply Qmult_le_compat_r; lra).
    lra.
  - assert (Hm : inject_Z M <= inject_Z J) by (rewrite <- Zle_Qle; lia).
    assert (inject_Z M * bpow E <= inject_Z J * bpow E)
      by (apply Qmult_le_compat_r; lra).
    lra.
Qed.

(** A positive value in the normal range and its rounding lie in the
    same binade, ends included. *)
Lemma rounded_binade v V E :
  0 < v -> rounded v V E -> spacing v E -> (-1074 < E)%Z ->
  bpow (E + 52) <= V <= bpow (E + 53)
  /\ bpow (E + 52) <= v < bpow (E + 53)
  /\ Qabs (V - v) <= bpow (E - 1).
Proof.
  intros Hv Hr (HE & Hlo & Hhi) Hn.
  rewrite (Qabs_pos v) in Hlo, Hhi by lra. specialize (Hlo Hn).
  assert (H52 : inject_Z (2 ^ 52) * bpow E == bpow (E + 52)).
  { rewrite bpow_inject by lia. rewrite <- bpow_add. replace (52 + E)%Z with (E + 52)%Z by lia.
    reflexivity. }
  assert (H53 : inject_Z (2 ^ 53) * bpow E == bpow (E + 53)).
  { rewrite bpow_inject by lia. rewrite <- bpow_add. replace (53 + E)%Z with (E + 53)%Z by lia.
    reflexivity. }
  split; [split |].
  - rewrite <- H52. apply (rounded_above_grid v V E _ Hr). rewrite H52. exact Hlo.
  - rewrite <- H53. apply (rounded_below_grid v V E _ Hr). rewrite H53. lra.
  - split; [lra |]. destruct Hr as (M & _ & Hle & _). exact Hle.
Qed.

(** The two rounded steps of the trending factor: the quotient [x] of
    spacing [2^E1], and its product with ten [y] of spacing [2^E2]. *)
Lemma trending_steps s f :
  (0 < s)%Z -> (s < 2 ^ 46)%Z -> (0 <= f)%Z -> (f + 1 < 2 ^ 53)%Z ->
  let q := inject_Z s / inject_Z (f + 1) in
  let x := div (of_Z s) (add (of_Z f) (of_Z 1)) in
  let y := mul x (of_Z 10) in
  exists E1 E2 M1,
    finite y
    /\ B2Q x == inject_Z M1 * bpow E1
    /\ Qabs (B2Q x - q) <= bpow (E1 - 1)
    /\ bpow (E1 + 52) <= q
    /\ (-1074 < E1 <= -7)%Z
    /\ rounded (B2Q x * 10) (B2Q y) E2
    /\ (E1 + 3 <= E2 <= E1 + 4)%Z.
Proof.
  intros Hs Hs1 Hf Hf1 q x y.
  assert (Hs53 : (s < 2 ^ 53)%Z) by lia.
  destruct (ratio_rounded s f Hs Hs53 Hf Hf1) as (Hqlo & Hqhi & Hcr).
  fold q in Hqlo, Hqhi, Hcr. fold x in Hcr.
  assert (Hslt : inject_Z s < bpow 46) by (apply inject_Z_lt_bpow; lia).
  assert (Hqpos : 0 < q) by (pose proof (bpow_pos (-53)); lra).
  destruct Hcr as (Hfx & Hvx & E1 & Hr1 & Hsp1).
  assert (HE1hi : (E1 <= -7)%Z).
  { apply (spacing_below q E1 46 Hsp1); [| lia]. rewrite Qabs_pos by lra. lra. }
  assert (HE1lo : (-1074 < E1)%Z).
  { destruct Hsp1 as (_ & _ & Hhi). rewrite Qabs_pos in Hhi by lra.
    assert (Hb : bpow (-53) < bpow (E1 + 53)) by lra.
    apply bpow_lt_inv in Hb. lia. }
  destruct (rounded_binade q (B2Q x) E1 Hqpos Hr1 Hsp1 HE1lo)
    as ((HXlo & HXhi) & (Hq52 & Hq53) & Herr).
  destruct Hr1 as (M1 & HX & _).
  destruct (of_Z_correct 10 ltac:(lia)) as (Hft & Hvt & Hqt).
  pose proof (bpow_pos (E1 + 52)) as Hp52.
  assert (HXpos : 0 < B2Q x) by lra.
  assert (H53le : bpow (E1 + 53) <= bpow 46) by (apply bpow_le; lia).
  assert (Hprod : B2Q x * B2Q (of_Z 10) == B2Q x * 10).
  { rewrite Hqt. reflexivity. }
  destruct (mul_correct x (of_Z 10) Hfx Hft Hvx Hvt) as (Hfy & Hvy & _ & Hnz).
  { rewrite Hprod, Qabs_pos by lra.
    assert (bpow 50 < bpow 1023) by (apply bpow_lt; lia).
    change (bpow 46) with 70368744177664 in H53le.
    change (bpow 50) with 1125899906842624 in H. lra. }
  fold y in Hfy, Hvy, Hnz.
  assert (Hcy : correctly_rounded (B2Q x * 10) y).
  { apply (correctly_rounded_ext (B2Q x * B2Q (of_Z 10))); [exact Hprod |].
    apply Hnz. rewrite Hprod. lra. }
  destruct Hcy as (_ & _ & E2 & Hr2 & (HE2 & Hlo2 & Hhi2)).
  rewrite Qabs_pos in Hlo2, Hhi2 by lra.
  assert (H55 : bpow (E1 + 55) == 8 * bpow (E1 + 52)).
  { replace (E1 + 55)%Z with (E1 + 52 + 3)%Z by lia. rewrite bpow_add.
    change (bpow 3) with 8. ring. }
  assert (H57 : bpow (E1 + 57) == 16 * bpow (E1 + 53)).
  { replace (E1 + 57)%Z with (E1 + 53 + 4)%Z by lia. rewrite bpow_add.
    change (bpow 4) with 16. ring. }
  pose proof (bpow_pos (E1 + 53)) as Hp53.
  assert (HE2lo : (E1 + 3 <= E2)%Z).
  { assert (Hb : bpow (E1 + 55) < bpow (E2 + 53)) by lra.
    apply bpow_lt_inv in Hb. lia. }
  assert (HE2hi : (E2 <= E1 + 4)%Z).
  { specialize (Hlo2 ltac:(lia)).
    assert (Hb : bpow (E2 + 52) < bpow (E1 + 57)) by lra.
    apply bpow_lt_inv in Hb. lia. }
  exists E1, E2, M1. repeat split; trivial; lia.
Qed.

Lemma abs_le_split a b c r1 r2 :
  Qabs (a - b) <= r1 -> Qabs (b - c) <= r2 -> Qabs (a - c) <= r1 + r2.
Proof.
  intros H1 H2. apply Qabs_Qle_condition in H1, H2.
  apply Qabs_Qle_condition. lra.
Qed.

(** An odd multiple of one half lies on every grid finer than 1. *)
Lemma half_grid n E : (E <= -1)%Z ->
  inject_Z n * (1 # 2) == inject_Z (n * 2 ^ (- E - 1)) * bpow E.
Proof.
  intros HE. rewrite inject_Z_mult, bpow_inject by lia.
  rewrite <- Qmult_assoc, <- bpow_add.
  replace (- E - 1 + E)%Z with (-1)%Z by lia. reflexivity.
Qed.

(** At a tie of the exact value, the product of the computed quotient
    with ten stays within a quarter of the spacing after the product. *)
Lemma tie_grid M1 E1 n :
  (E1 <= -2)%Z ->
  Qabs (inject_Z M1 * bpow E1 * 10 - inject_Z n * (1 # 2)) <= 5 * bpow E1 ->
  Qabs (inject_Z M1 * bpow E1 * 10 - inject_Z n * (1 # 2)) <= bpow (E1 + 2).
Proof.
  intros HE H.
  pose proof (bpow_pos (E1 - 1)) as Hp. pose proof (bpow_half E1) as Hh.
  set (W := (n * 2 ^ (- (E1 - 1) - 1))%Z).
  assert (HW : inject_Z n * (1 # 2) == inject_Z W * bpow (E1 - 1))
    by (apply half_grid; lia).
  assert (Heq : inject_Z M1 * bpow E1 * 10 - inject_Z n * (1 # 2)
                == inject_Z (20 * M1 - W) * bpow (E1 - 1)).
  { rewrite HW, Hh. generalize (bpow (E1 - 1)). intros b.
    unfold Zminus. rewrite inject_Z_plus, inject_Z_opp, inject_Z_mult.
    change (inject_Z 20) with 20. ring. }
  rewrite Heq in H |- *. rewrite Qabs_Qmult in H |- *.
  rewrite (Qabs_pos (bpow (E1 - 1))) in H |- * by lra.
  change (Qabs (inject_Z (20 * M1 - W))) with (inject_Z (Z.abs (20 * M1 - W))) in H |- *.
  assert (Hj : (Z.abs (20 * M1 - W) <= 10)%Z).
  { rewrite Zle_Qle. change (inject_Z 10) with 10.
    apply (Qmult_le_r _ _ (bpow (E1 - 1))); [exact Hp | lra]. }
  assert (H4 : (W mod 4 = 0)%Z).
  { unfold W. replace (- (E1 - 1) - 1)%Z with (2 + (- E1 - 2))%Z by lia.
    rewrite Z.pow_add_r by lia. change (2 ^ 2)%Z with 4%Z.
    replace (n * (4 * 2 ^ (- E1 - 2)))%Z with (n * 2 ^ (- E1 - 2) * 4)%Z by ring.
    apply Z.mod_mul. lia. }
  assert (Hj8 : (Z.abs (20 * M1 - W) <= 8)%Z).
  { assert (((20 * M1 - W) mod 4 = 0)%Z).
    { rewrite Zminus_mod, H4.
      replace (20 * M1)%Z with (5 * M1 * 4)%Z by ring. rewrite Z.mod_mul by lia.
      reflexivity. }
    apply Z.mod_divide in H0; [| lia]. destruct H0 as [k Hk]. lia. }
  rewrite Zle_Qle in Hj8. change (inject_Z 8) with 8 in Hj8.
  assert (Hb : bpow (E1 + 2) == 8 * bpow (E1 - 1)).
  { replace (E1 + 2)%Z with ((E1 - 1) + 3)%Z by lia.
    rewrite bpow_add. change (bpow 3) with 8. ring. }
  rewrite Hb. apply Qmult_le_compat_r; lra.
Qed.

(** For [stars] below 2^46 the trending factor of the program is the
    exact value of [stars / (forks + 1) * 10] rounded to the nearest
    integer, halves up.  Away from a tie the two rounding errors are too
    small to reach the next half-integer; at a tie the product with ten
    is computed exactly. *)
Theorem trendingFactor_exact s f :
  (0 <= s < 2 ^ 46)%Z -> (0 <= f)%Z -> (f + 1 < 2 ^ 53)%Z ->
  to_Z (trendingFactor s f)
  = Some (Qfloor (inject_Z s / inject_Z (f + 1) * 10 + (1 # 2))).
Proof.
  intros [Hs0 Hs1] Hf Hf1. unfold trendingFactor.
  assert (Hd1 : 1 <= inject_Z (f + 1)) by (apply inject_Z_pos_le1; lia).
  destruct (Z.eq_dec s 0) as [-> | Hsn].
  { destruct (add_one_exact f Hf Hf1) as (Hfb & _ & Hqb).
    destruct (add (of_Z f) (of_Z 1)) as [sb | sb | | sb mb eb]; try contradiction.
    - exfalso. cbn [B2Q] in Hqb. lra.
    - change (of_Z 0) with (S754_zero false). unfold div; cbn [SFdiv].
      replace (Qfloor (inject_Z 0 / inject_Z (f + 1) * 10 + (1 # 2))) with 0%Z.
      + destruct sb; reflexivity.
      + symmetry. apply Qfloor_unique.
        * change (inject_Z 0) with 0. unfold Qdiv. rewrite !Qmult_0_l. discriminate.
        * change (inject_Z 0) with 0. unfold Qdiv. rewrite !Qmult_0_l. reflexivity. }
  assert (Hs : (0 < s)%Z) by lia.
  destruct (trending_steps s f Hs Hs1 Hf Hf1)
    as (E1 & E2 & M1 & Hfy & HX & Herr1 & Hq52 & HE1 & Hr2 & HE2).
  set (q := inject_Z s / inject_Z (f + 1)) in *.
  set (x := div (of_Z s) (add (of_Z f) (of_Z 1))) in *.
  set (y := mul x (of_Z 10)) in *.
  rewrite (Math_round_spec y Hfy). f_equal.
  set (K := Qfloor (q * 10 + (1 # 2))).
  pose proof (Qfloor_le (q * 10 + (1 # 2))) as HKlo.
  pose proof (Qlt_floor (q * 10 + (1 # 2))) as HKhi.
  fold K in HKlo, HKhi. rewrite inject_Z_plus in HKhi. change (inject_Z 1) with 1 in HKhi.
  set (dz := (f + 1)%Z) in *.
  set (d := inject_Z dz) in *.
  assert (Hqd : q * d == inject_Z s) by (unfold q; field; lra).
  pose proof (bpow_pos E1) as HpE1.
  (* the distance of the computed product from the exact one *)
  assert (Hb1 : Qabs (B2Q x * 10 - q * 10) <= 5 * bpow E1).
  { setoid_replace (B2Q x * 10 - q * 10) with (10 * (B2Q x - q)) by ring.
    rewrite Qabs_Qmult. change (Qabs 10) with 10.
    pose proof (bpow_half E1). lra. }
  assert (HeY : Qabs (B2Q y - q * 10) <= 13 * bpow E1).
  { destruct Hr2 as (M2 & _ & Hle2 & _).
    assert (Hb2 : bpow (E2 - 1) <= 8 * bpow E1).
    { apply Qle_trans with (bpow (E1 + 3)); [apply bpow_le; lia |].
      rewrite bpow_add. change (bpow 3) with 8. lra. }
    setoid_replace (13 * bpow E1) with (8 * bpow E1 + 5 * bpow E1) by ring.
    apply (abs_le_split _ (B2Q x * 10)); lra. }
  assert (HE1q : bpow E1 * 4503599627370496 <= q).
  { rewrite bpow_add in Hq52. change (bpow 52) with 4503599627370496 in Hq52.
    exact Hq52. }
  (* in halves of 1 / (forks + 1) *)
  assert (Hsmall : 13 * bpow E1 * (2 * d) < 1).
  { assert (Hsq : 26 * inject_Z s < 4503599627370496).
    { change 26 with (inject_Z 26). change 4503599627370496 with (inject_Z (2 ^ 52)).
      rewrite <- inject_Z_mult, <- Zlt_Qlt. lia. }
    assert (bpow E1 * 4503599627370496 * d <= q * d)
      by (apply Qmult_le_compat_r; lra).
    lra. }
  apply Qabs_Qle_condition in HeY. destruct HeY as [HeY1 HeY2].
  assert (HY1 : - (13 * bpow E1) * (2 * d) <= (B2Q y - q * 10) * (2 * d))
    by (apply Qmult_le_compat_r; lra).
  assert (HY2 : (B2Q y - q * 10) * (2 * d) <= 13 * bpow E1 * (2 * d))
    by (apply Qmult_le_compat_r; lra).
  (* the integer facts about K *)
  assert (HA : (20 * s + dz + 1 <= 2 * (K + 1) * dz)%Z).
  { cut (20 * s + dz < 2 * (K + 1) * dz)%Z; [lia |].
    rewrite Zlt_Qlt, !inject_Z_plus, !inject_Z_mult, inject_Z_plus. fold d.
    change (inject_Z 20) with 20. change (inject_Z 2) with 2. change (inject_Z 1) with 1.
    assert ((q * 10 + (1 # 2)) * (2 * d) < (inject_Z K + 1) * (2 * d))
      by (apply Qmult_lt_compat_r; lra).
    lra. }
  assert (HB : (2 * K * dz <= 20 * s + dz)%Z).
  { rewrite Zle_Qle, !inject_Z_plus, !inject_Z_mult. fold d.
    change (inject_Z 20) with 20. change (inject_Z 2) with 2.
    assert (inject_Z K * (2 * d) <= (q * 10 + (1 # 2)) * (2 * d))
      by (apply Qmult_le_compat_r; lra).
    lra. }
  rewrite Zle_Qle, !inject_Z_plus, !inject_Z_mult, inject_Z_plus in HA. fold d in HA.
  change (inject_Z 20) with 20 in HA. change (inject_Z 2) with 2 in HA.
  change (inject_Z 1) with 1 in HA.
  destruct (Z.eq_dec (2 * K * dz) (20 * s + dz)) as [Htie | Hno].
  - (* the exact value is a tie: the product is computed exactly *)
    set (n := (2 * K - 1)%Z).
    assert (Hn : (20 * s = n * dz)%Z) by (unfold n; lia).
    assert (Hh : q * 10 == inject_Z n * (1 # 2)).
    { assert (Hn' : inject_Z (20 * s) == inject_Z (n * dz))
        by (rewrite Hn; reflexivity).
      rewrite !inject_Z_mult in Hn'. fold d in Hn'.
      change (inject_Z 20) with 20 in Hn'.
      apply (Qmult_inj_r _ _ (2 * d)); [lra |]. lra. }
    assert (Hg : Qabs (B2Q x * 10 - inject_Z n * (1 # 2)) <= bpow (E2 - 1)).
    { apply Qle_trans with (bpow (E1 + 2)); [| apply bpow_le; lia].
      rewrite HX. apply tie_grid; [lia |]. rewrite <- HX, <- Hh. exact Hb1. }
    rewrite (half_grid n E2) in Hg by lia.
    assert (HY : B2Q y == inject_Z (n * 2 ^ (- E2 - 1)) * bpow E2).
    { apply (rounded_unique (B2Q x * 10)); [exact Hr2 | |].
      - rewrite Qabs_Qminus. exact Hg.
      - intros _. rewrite Z.even_mul. apply orb_true_iff. right.
        replace (- E2 - 1)%Z with (Z.succ (- E2 - 2)) by lia.
        rewrite Z.pow_succ_r by lia. rewrite Z.even_mul. reflexivity. }
    rewrite <- (half_grid n E2) in HY by lia.
    assert (HYK : B2Q y + (1 # 2) == inject_Z K).
    { rewrite HY. unfold n. unfold Zminus.
      rewrite inject_Z_plus, inject_Z_mult. change (inject_Z 2) with 2.
      rewrite inject_Z_opp. change (inject_Z 1) with 1. lra. }
    apply Qfloor_unique.
    + rewrite HYK. apply Qle_refl.
    + rewrite HYK, inject_Z_plus. change (inject_Z 1) with 1. lra.
  - assert (HB' : (2 * K * dz + 1 <= 20 * s + dz)%Z) by lia.
    rewrite Zle_Qle, !inject_Z_plus, !inject_Z_mult in HB'. fold d in HB'.
    change (inject_Z 20) with 20 in HB'. change (inject_Z 2) with 2 in HB'.
    change (inject_Z 1) with 1 in HB'.
    apply Qfloor_unique.
    + apply (Qmult_le_r _ _ (2 * d)); [lra |]. lra.
    + rewrite inject_Z_plus. change (inject_Z 1) with 1.
      apply (Qmult_lt_r _ _ (2 * d)); [lra |]. lra.
Qed.

(** *** The health score

    The standard error bound of a subtraction and of a product. *)
Lemma sub_error x y :
  finite x -> finite y -> valid x = true -> valid y = true ->
  Qabs (B2Q x - B2Q y) < bpow 1023 ->
  finite (sub x y) /\ valid (sub x y) = true
  /\ Qabs (B2Q (sub x y) - (B2Q x - B2Q y)) <= u * Qabs (B2Q x - B2Q y) + eta.
Proof.
  intros Hfx Hfy Hvx Hvy Hr.
  destruct (sub_correct x y Hfx Hfy Hvx Hvy Hr) as (Hf & Hv & Hz & Hnz).
  split; [exact Hf | split; [exact Hv |]].
  destruct (Qeq_dec (B2Q x - B2Q y) 0) as [H0 | Hn].
  - rewrite (Hz H0), H0. pose proof (bpow_pos (-1075)). unfold eta.
    change (Qabs (0 - 0)) with 0. change (Qabs 0) with 0. lra.
  - apply error_bound. exact (Hnz Hn).
Qed.

Lemma mul_error x y :
  finite x -> finite y -> valid x = true -> valid y = true ->
  Qabs (B2Q x * B2Q y) < bpow 1023 ->
  finite (mul x y) /\ valid (mul x y) = true
  /\ Qabs (B2Q (mul x y) - B2Q x * B2Q y) <= u * Qabs (B2Q x * B2Q y) + eta.
Proof.
  intros Hfx Hfy Hvx Hvy Hr.
  destruct (mul_correct x y Hfx Hfy Hvx Hvy Hr) as (Hf & Hv & Hz & Hnz).
  split; [exact Hf | split; [exact Hv |]].
  destruct (Qeq_dec (B2Q x * B2Q y) 0) as [H0 | Hn].
  - rewrite (Hz H0), H0. pose proof (bpow_pos (-1075)). unfold eta.
    change (Qabs (0 - 0)) with 0. change (Qabs 0) with 0. lra.
  - apply error_bound. exact (Hnz Hn).
Qed.

(** A value computed within less than [1 / (2 d)] of [t], where
    [t + 1/2] is a multiple of [1 / (2 d)], rounds like [t] does, or to
    one less when [t] is a tie. *)
Lemma floor_near t c dz N :
  (0 < dz)%Z ->
  (t + (1 # 2)) * (2 * inject_Z dz) == inject_Z N ->
  Qabs (c - t) * (2 * inject_Z dz) < 1 ->
  let K := Qfloor (t + (1 # 2)) in
  Qfloor (c + (1 # 2)) = K
  \/ (t + (1 # 2) == inject_Z K /\ Qfloor (c + (1 # 2)) = (K - 1)%Z).
Proof.
  intros Hdz HN Hc K.
  pose proof (Qfloor_le (t + (1 # 2))) as HKlo.
  pose proof (Qlt_floor (t + (1 # 2))) as HKhi.
  fold K in HKlo, HKhi. rewrite inject_Z_plus in HKhi. change (inject_Z 1) with 1 in HKhi.
  assert (Hd1 : 1 <= inject_Z dz) by (apply inject_Z_pos_le1; lia).
  set (d := inject_Z dz) in *.
  assert (Hc1 : - (1) < (c - t) * (2 * d) /\ (c - t) * (2 * d) < 1).
  { destruct (Qabs_Qle_condition (c - t) (Qabs (c - t))) as [Hle _].
    specialize (Hle (Qle_refl _)). destruct Hle as [Hl1 Hl2].
    assert (- Qabs (c - t) * (2 * d) <= (c - t) * (2 * d))
      by (apply Qmult_le_compat_r; lra).
    assert ((c - t) * (2 * d) <= Qabs (c - t) * (2 * d))
      by (apply Qmult_le_compat_r; lra).
    lra. }
  destruct Hc1 as [Hc1 Hc2].
  assert (HA : (N + 1 <= 2 * (K + 1) * dz)%Z).
  { cut (N < 2 * (K + 1) * dz)%Z; [lia |].
    rewrite Zlt_Qlt, !inject_Z_mult, inject_Z_plus. fold d.
    change (inject_Z 2) with 2. change (inject_Z 1) with 1.
    assert ((t + (1 # 2)) * (2 * d) < (inject_Z K + 1) * (2 * d))
      by (apply Qmult_lt_compat_r; lra).
    lra. }
  assert (HB : (2 * K * dz <= N)%Z).
  { rewrite Zle_Qle, !inject_Z_mult. fold d. change (inject_Z 2) with 2.
    assert (inject_Z K * (2 * d) <= (t + (1 # 2)) * (2 * d))
      by (apply Qmult_le_compat_r; lra).
    lra. }
  rewrite Zle_Qle, inject_Z_plus, !inject_Z_mult, inject_Z_plus in HA. fold d in HA.
  change (inject_Z 2) with 2 in HA. change (inject_Z 1) with 1 in HA.
  assert (Hup : c + (1 # 2) < inject_Z (K + 1)).
  { rewrite inject_Z_plus. change (inject_Z 1) with 1.
    apply (Qmult_lt_r _ _ (2 * d)); [lra |]. lra. }
  destruct (Z.eq_dec (2 * K * dz) N) as [Htie | Hno].
  - assert (HN' : inject_Z (2 * K * dz) == inject_Z N) by (rewrite Htie; reflexivity).
    rewrite !inject_Z_mult in HN'. fold d in HN'. change (inject_Z 2) with 2 in HN'.
    assert (HtK : t + (1 # 2) == inject_Z K)
      by (apply (Qmult_inj_r _ _ (2 * d)); lra).
    destruct (Qlt_le_dec (c + (1 # 2)) (inject_Z K)) as [Hlt | Hge].
    + right. split; [exact HtK |]. apply Qfloor_unique.
      * unfold Zminus. rewrite inject_Z_plus, inject_Z_opp. change (inject_Z 1) with 1.
        apply (Qmult_le_r _ _ (2 * d)); [lra |]. lra.
      * replace (K - 1 + 1)%Z with K by lia. exact Hlt.
    + left. apply Qfloor_unique; assumption.
  - left. apply Qfloor_unique; [| exact Hup].
    assert (HB' : (2 * K * dz + 1 <= N)%Z) by lia.
    rewrite Zle_Qle, inject_Z_plus, !inject_Z_mult in HB'. fold d in HB'.
    change (inject_Z 2) with 2 in HB'. change (inject_Z 1) with 1 in HB'.
    apply (Qmult_le_r _ _ (2 * d)); [lra |]. lra.
Qed.

Lemma u_value : u == 1 # 9007199254740992.
Proof. reflexivity. Qed.

Lemma eta_small : eta <= (1 # 9007199254740992) * (1 # 9007199254740992).
Proof.
  unfold eta. apply Qle_trans with (bpow (-106)); [apply bpow_le; lia |].
  apply Qle_lteq. right. reflexivity.
Qed.

Lemma Qabs_bound a b : - b <= a -> a <= b -> Qabs a <= b.
Proof. intros H1 H2. apply Qabs_Qle_condition. split; assumption. Qed.

(** For counts below 2^42 the health score of the program is the exact
    value of [(1 - issues / (stars + 1)) * 100] rounded to the nearest
    integer, halves up, or one less where the exact value is a tie. *)
Theorem healthScore_close s i :
  (0 <= s < 2 ^ 42)%Z -> (0 <= i < 2 ^ 42)%Z ->
  let t := (1 - inject_Z i / inject_Z (s + 1)) * 100 in
  let K := Qfloor (t + (1 # 2)) in
  exists n,
    to_Z (healthScore s i) = Some n
    /\ (n = K \/ (t + (1 # 2) == inject_Z K /\ n = (K - 1)%Z)).
Proof.
  intros [Hs0 Hs1] [Hi0 Hi1] t K. unfold healthScore.
  assert (Hs53 : (s + 1 < 2 ^ 53)%Z) by (change (2 ^ 53)%Z with (2048 * 2 ^ 42)%Z; lia).
  assert (Hd1 : 1 <= inject_Z (s + 1)) by (apply inject_Z_pos_le1; lia).
  destruct (Z.eq_dec i 0) as [-> | Hin].
  { exists 100%Z. split.
    - destruct (add_one_exact s Hs0 Hs53) as (Hfb & _ & Hqb).
      destruct (add (of_Z s) (of_Z 1)) as [sb | sb | | sb mb eb]; try contradiction.
      + exfalso. cbn [B2Q] in Hqb. lra.
      + change (of_Z 0) with (S754_zero false). unfold div; cbn [SFdiv].
        destruct sb; reflexivity.
    - left. symmetry. apply Qfloor_unique.
      + unfold t. change (inject_Z 0) with 0. unfold Qdiv. rewrite Qmult_0_l. discriminate.
      + unfold t. change (inject_Z 0) with 0. unfold Qdiv. rewrite Qmult_0_l. reflexivity. }
  assert (Hi : (0 < i)%Z) by lia.
  assert (Hi53 : (i < 2 ^ 53)%Z) by (change (2 ^ 53)%Z with (2048 * 2 ^ 42)%Z; lia).
  destruct (ratio_rounded i s Hi Hi53 Hs0 Hs53) as (Hrlo & Hrhi & Hcr).
  set (dz := (s + 1)%Z) in *. set (d := inject_Z dz) in *.
  set (r := inject_Z i / d) in *.
  set (a := div (of_Z i) (add (of_Z s) (of_Z 1))) in *.
  assert (Hrd : r * d == inject_Z i) by (unfold r; field; lra).
  assert (Hr0 : 0 < r).
  { apply Qlt_le_trans with (bpow (-53)); [apply bpow_pos | exact Hrlo]. }
  assert (Hiq : inject_Z i <= 4398046511104).
  { change 4398046511104 with (inject_Z (2 ^ 42)). rewrite <- Zle_Qle. lia. }
  assert (Hdq : d <= 4398046511104).
  { change 4398046511104 with (inject_Z (2 ^ 42)). unfold d. rewrite <- Zle_Qle.
    unfold dz. lia. }
  pose proof eta_small as Heta. pose proof (bpow_pos (-1075)) as Heta0.
  fold eta in Heta0.
  (* the quotient *)
  pose proof (error_bound r a Hcr) as HeA.
  rewrite u_value, (Qabs_pos r) in HeA by lra.
  destruct Hcr as (Hfa & Hva & Ea & Hra & _).
  assert (HA0 : 0 <= B2Q a).
  { pose proof (rounded_above_grid r (B2Q a) Ea 0 Hra) as H0.
    change (inject_Z 0) with 0 in H0. rewrite Qmult_0_l in H0. apply H0. lra. }
  apply Qabs_Qle_condition in HeA. destruct HeA as [HeA1 HeA2].
  (* the difference *)
  destruct (of_Z_correct 1 ltac:(reflexivity)) as (Hf1 & Hv1 & Hq1).
  change (inject_Z 1) with 1 in Hq1.
  assert (Hab1 : Qabs (1 - B2Q a) <= 1 + B2Q a) by (apply Qabs_bound; lra).
  assert (Hrange1 : Qabs (B2Q (of_Z 1) - B2Q a) < bpow 1023).
  { rewrite Hq1. apply Qle_lt_trans with (bpow 44); [| apply bpow_lt; lia].
    change (bpow 44) with 17592186044416. lra. }
  destruct (sub_error (of_Z 1) a Hf1 Hfa Hv1 Hva Hrange1) as (Hfb & Hvb & HeB).
  set (b := sub (of_Z 1) a) in *.
  rewrite Hq1, u_value in HeB.
  assert (HeB' : Qabs (B2Q b - (1 - B2Q a))
                 <= (1 # 9007199254740992) * (1 + B2Q a) + eta).
  { assert ((1 # 9007199254740992) * Qabs (1 - B2Q a)
            <= (1 # 9007199254740992) * (1 + B2Q a))
      by (apply Qmult_le_l; [reflexivity | exact Hab1]).
    lra. }
  clear HeB. apply Qabs_Qle_condition in HeB'. destruct HeB' as [HeB1 HeB2].
  apply Qabs_Qle_condition in Hab1. destruct Hab1 as [Hab1 Hab2].
  (* the product *)
  destruct (of_Z_correct 100 ltac:(reflexivity)) as (Hf100 & Hv100 & Hq100).
  change (inject_Z 100) with 100 in Hq100.
  assert (HabB : Qabs (B2Q b * 100) <= 100 * (3 * (1 + B2Q a)))
    by (apply Qabs_bound; lra).
  assert (HabB' : Qabs (B2Q b * 100)
                  <= 100 * ((1 + B2Q a) + (1 # 9007199254740992) * (1 + B2Q a) + eta))
    by (apply Qabs_bound; lra).
  assert (Hrange2 : Qabs (B2Q b * B2Q (of_Z 100)) < bpow 1023).
  { rewrite Hq100. apply Qle_lt_trans with (bpow 60); [| apply bpow_lt; lia].
    change (bpow 60) with 1152921504606846976. lra. }
  destruct (mul_error b (of_Z 100) Hfb Hf100 Hvb Hv100 Hrange2) as (Hfc & _ & HeC).
  set (c := mul b (of_Z 100)) in *.
  rewrite Hq100, u_value in HeC.
  assert (HeC' : Qabs (B2Q c - B2Q b * 100)
                 <= (1 # 9007199254740992)
                    * (100 * ((1 + B2Q a) + (1 # 9007199254740992) * (1 + B2Q a) + eta))
                    + eta).
  { assert ((1 # 9007199254740992) * Qabs (B2Q b * 100)
            <= (1 # 9007199254740992)
               * (100 * ((1 + B2Q a) + (1 # 9007199254740992) * (1 + B2Q a) + eta)))
      by (apply Qmult_le_l; [reflexivity | exact HabB']).
    lra. }
  clear HeC HabB HabB'. apply Qabs_Qle_condition in HeC'. destruct HeC' as [HeC1 HeC2].
  (* the three errors together *)
  assert (Hct : Qabs (B2Q c - t)
                <= (201 # 9007199254740992) + (301 # 9007199254740992) * r).
  { unfold t. fold d. fold r. apply Qabs_bound; lra. }
  rewrite (Math_round_spec c Hfc).
  assert (Hsmall : Qabs (B2Q c - t) * (2 * d) < 1).
  { apply Qle_lt_trans
      with (((201 # 9007199254740992) + (301 # 9007199254740992) * r) * (2 * d)).
    - apply Qmult_le_compat_r; [exact Hct | lra].
    - lra. }
  assert (HN : (t + (1 # 2)) * (2 * d) == inject_Z (200 * (dz - i) + dz)).
  { rewrite inject_Z_plus, inject_Z_mult. unfold Zminus.
    rewrite inject_Z_plus, inject_Z_opp. fold d. change (inject_Z 200) with 200.
    unfold t. fold d. fold r. lra. }
  destruct (floor_near t (B2Q c) dz _ ltac:(unfold dz; lia) HN Hsmall) as [H | [Ht H]].
  - eexists. split; [reflexivity |]. left. exact H.
  - eexists. split; [reflexivity |]. right. split; [exact Ht | exact H].
Qed.

End Float64.

(** ** The activity label *)

Lemma contains_append c a b :
  contains c (a ++ b)%string = contains c a || contains c b.
Proof.
  induction a as [| x a IH]; simpl; [reflexivity |].
  rewrite IH. apply orb_assoc.
Qed.

Lemma split_without_separator sep s :
  contains sep s = false -> split sep s = [s].
Proof.
  induction s as [| c s IH]; simpl; [reflexivity |].
  intros H. apply orb_false_elim in H as [Hc Hs].
  rewrite Hc, (IH Hs). reflexivity.
Qed.

Lemma split_at_separator sep a b :
  contains sep a = false ->
  split sep (a ++ String sep b)%string = a :: split sep b.
Proof.
  induction a as [| c a IH]; simpl; intros H.
  - rewrite Ascii.eqb_refl. reflexivity.
  - apply orb_false_elim in H as [Hc Ha].
    rewrite Hc, (IH Ha). reflexivity.
Qed.

Lemma uint_digits_no_space d :
  contains " " (NilEmpty.string_of_uint d) = false.
Proof. induction d; simpl; auto. Qed.

Lemma Z_toString_no_space z : contains " " (Z_toString z) = false.
Proof.
  unfold Z_toString.
  destruct (Z.to_int z) as [d | d]; simpl;
    (destruct d; [reflexivity | apply (uint_digits_no_space (_ d)) ..]).
Qed.

Lemma exponential_no_space z :
  contains " " (Number_toString_exponential z) = false.
Proof.
  assert (Hpos : forall v, contains " " (exponential_positive v) = false).
  { intros v. unfold exponential_positive.
    rewrite !contains_append, Z_toString_no_space. simpl.
    match goal with |- context [Z_toString ?x] =>
      pose proof (Z_toString_no_space x) as Hd; destruct (Z_toString x) as [| d rest]
    end; [reflexivity |].
    simpl in Hd. apply orb_false_elim in Hd as [Hd Hrest].
    destruct rest; simpl in *; rewrite Hd; simpl; [reflexivity |].
    rewrite Hrest. reflexivity. }
  unfold Number_toString_exponential.
  destruct (z <? 0); [simpl |]; apply Hpos.
Qed.

Lemma Integral_toString_no_space n : contains " " (Integral_toString n) = false.
Proof.
  destruct n as [z | | | s]; unfold Integral_toString; try reflexivity.
  - destruct (Z.abs z <? 2 ^ 53); [apply Z_toString_no_space |].
    destruct (Z.abs z <? 10 ^ 21); [| apply exponential_no_space].
    unfold Number_toString_positional, positional_positive.
    destruct (z <? 0); [simpl |]; apply Z_toString_no_space.
  - destruct s; reflexivity.
Qed.

Lemma label_tokens n :
  split " " (Integral_toString n ++ " days")%string = [Integral_toString n; "days"].
Proof.
  change (Integral_toString n ++ " days")%string
    with (Integral_toString n ++ String " " "days")%string.
  rewrite split_at_separator by apply Integral_toString_no_space.
  reflexivity.
Qed.

(** A rounded Number that is an integer of magnitude below 2^53 is
    written as that integer; the negative zero is written "0". *)
Lemma Integral_toString_integer N n :
  Binary64.to_Z N = Some n -> Z.abs n < 2 ^ 53 ->
  Integral_toString N = Z_toString n.
Proof.
  unfold Binary64.to_Z, Integral_toString.
  destruct N as [z | | | s]; intros [= <-] Hn; [| reflexivity].
  apply Z.ltb_lt in Hn. rewrite Hn. reflexivity.
Qed.

(** A span of time holds no more days than milliseconds. *)
Lemma elapsed_days_bounded now t :
  Z.abs (Spec.round_half_up (Spec.elapsed now t)) <= Z.abs (now - t).
Proof.
  unfold Spec.round_half_up, Spec.elapsed.
  set (d := now - t). set (v := (inject_Z d / inject_Z 86400000)%Q).
  pose proof (Qfloor_le (v + (1 # 2))) as Hlo.
  pose proof (Qlt_floor (v + (1 # 2))) as Hhi.
  set (K := Qfloor (v + (1 # 2))) in *.
  rewrite inject_Z_plus in Hhi. change (inject_Z 1) with 1%Q in Hhi.
  assert (Hv : (v == inject_Z d * (1 # 86400000))%Q) by reflexivity.
  assert (Ha : (0 <= inject_Z (Z.abs d))%Q)
    by (change 0%Q with (inject_Z 0); rewrite <- Zle_Qle; lia).
  assert (Hd1 : (inject_Z d <= inject_Z (Z.abs d))%Q) by (rewrite <- Zle_Qle; lia).
  assert (Hd2 : (- inject_Z (Z.abs d) <= inject_Z d)%Q)
    by (rewrite <- inject_Z_opp, <- Zle_Qle; lia).
  assert (H1 : K < Z.abs d + 1).
  { rewrite Zlt_Qlt, inject_Z_plus. change (inject_Z 1) with 1%Q.
    clearbody v K. lra. }
  assert (H2 : - Z.abs d - 1 < K).
  { rewrite Zlt_Qlt. unfold Z.sub. rewrite inject_Z_plus, !inject_Z_opp.
    change (inject_Z 1) with 1%Q. clearbody v K. lra. }
  lia.
Qed.

(** C3, as the program has it.  In the record of a successful fetch,
    [activitylevel] is "Unknown" when [pushed_at] is falsy (missing,
    null, the empty string).  When [pushed_at] is a string the platform
    parses to the instant [t], it is the rendering of N followed by
    " days", N being [Math.round((now - t) / 86400000)] in binary64, and
    split at the space it gives exactly the two tokens N and "days"; for
    every instant [t] a Date can hold and every clock [now] that stays
    below 2^53 - 8.64e15 milliseconds in magnitude (the year 13606), N is
    the exact number of days from [t] to [now] rounded to the nearest
    integer, halves up, written in decimal.  When [pushed_at] is a
    non-empty string the platform cannot parse, the label is "NaN days".
    Every label is "Unknown" or a rendered number followed by " days". *)
Theorem activity_label_shape (P : Platform) env repoInfo status data :
  fetch env (request repoInfo) = Response status (BodyData data) ->
  ok status = true ->
  exists r,
    fetchGitHubRepoData env repoInfo = Return r
    /\ (Boolean (pushed_at data) = false ->
        activitylevel r = "Unknown" /\ split " " (activitylevel r) = ["Unknown"])
    /\ (forall s t,
           pushed_at data = JSString s ->
           Date_parse s = Some t ->
           let N := Binary64.elapsed_days (Date_now env) t in
           activitylevel r = (Integral_toString N ++ " days")%string
           /\ split " " (activitylevel r) = [Integral_toString N; "days"]
           /\ (Z.abs t <= max_time ->
               Z.abs (Date_now env) + max_time < 2 ^ 53 ->
               let n := Spec.round_half_up (Spec.elapsed (Date_now env) t) in
               Binary64.to_Z N = Some n
               /\ activitylevel r = (Z_toString n ++ " days")%string
               /\ split " " (activitylevel r) = [Z_toString n; "days"]))
    /\ (forall s,
           pushed_at data = JSString s -> s <> "" ->
           Date_parse s = None ->
           activitylevel r = "NaN days"
           /\ split " " (activitylevel r) = ["NaN"; "days"])
    /\ (activitylevel r = "Unknown"
        \/ exists N,
             activitylevel r = (Integral_toString N ++ " days")%string
             /\ split " " (activitylevel r) = [Integral_toString N; "days"]).
Proof.
  intros Hf Hok. exists (repoData env data).
  split; [exact (fetch_success env repoInfo status data Hf Hok) |].
  split; [| split; [| split]].
  - intros Habsent. unfold repoData; simpl. rewrite Habsent. split; reflexivity.
  - intros s t Hs Ht N.
    assert (Hlabel : activitylevel (repoData env data)
                     = (Integral_toString N ++ " days")%string).
    { unfold repoData; simpl. rewrite Hs. simpl.
      destruct (String.eqb_spec s "") as [-> | _];
        [rewrite Date_parse_empty in Ht; discriminate |].
      simpl. rewrite Ht. reflexivity. }
    split; [exact Hlabel |].
    split; [rewrite Hlabel; apply label_tokens |].
    intros Hpush Hnow n.
    assert (Hmax : max_time = 8640000000000000) by reflexivity.
    assert (H53 : 2 ^ 53 = 9007199254740992) by reflexivity.
    assert (HN : Binary64.to_Z N = Some n)
      by (apply Float64.elapsed_days_exact; lia).
    assert (Hn : Z.abs n < 2 ^ 53).
    { pose proof (elapsed_days_bounded (Date_now env) t) as Hb. fold n in Hb. lia. }
    rewrite Hlabel, (Integral_toString_integer N n HN Hn).
    split; [exact HN | split; [reflexivity |]].
    rewrite <- (Integral_toString_integer N n HN Hn). apply label_tokens.
  - intros s Hs Hne Hnone. unfold repoData; simpl. rewrite Hs. simpl.
    apply String.eqb_neq in Hne. rewrite Hne. simpl. rewrite Hnone.
    unfold Date_valueOf, sub.
    destruct (of_Z (Date_now env)) as [sg | sg | | sg m e]; split; reflexivity.
  - unfold repoData; simpl.
    destruct (Boolean (pushed_at data)); [right | left; reflexivity].
    eexists. split; [reflexivity | apply label_tokens].
Qed.

Lemma activity_label_shape_witness :
  exists r,
    @fetchGitHubRepoData Reference.platform (Sample.online Sample.react)
       Sample.facebook_react = Return r
    /\ activitylevel r = "3 days"
    /\ split " " (activitylevel r) = ["3"; "days"]
    /\ Spec.round_half_up (Spec.elapsed Sample.clock 1704067200000) = 3.
Proof.
  destruct (activity_label_shape Reference.platform (Sample.online Sample.react)
              Sample.facebook_react 200 Sample.react eq_refl eq_refl)
    as (r & Hr & _ & Hpresent & _).
  destruct (Hpresent "2024-01-01T00:00:00Z" 1704067200000 eq_refl eq_refl)
    as (_ & _ & Hexact).
  destruct Hexact as (_ & Hlabel & Htokens); [vm_compute; discriminate | reflexivity |].
  exists r. repeat split; [exact Hr | exact Hlabel | exact Htokens].
Defined.

(** C3 as stated fails in two ways.  A [pushed_at] that is a string but
    no date (here "yesterday") is present, and the label is "NaN days",
    whose first token is no integer.  And at the far end of the range of
    Dates the count is not the exact one: from one millisecond past noon
    on 1 December -9667 to the last millisecond a Date can hold there are
    9007199351999999 milliseconds, that is 104249992.4999999884 days,
    which round to 104249992, while the record of the program says
    104249993 (the subtraction rounds the odd difference up to
    9007199352000000, exactly 104249992.5 days). *)
Lemma activity_label_is_not_always_an_exact_day_count :
  (exists r,
      @fetchGitHubRepoData Reference.platform (Sample.online Scenario.undated)
         Sample.facebook_react = Return r
      /\ pushed_at Scenario.undated = JSString "yesterday"
      /\ activitylevel r = "NaN days")
  /\ (exists r,
         @fetchGitHubRepoData Scenario.deep_time Scenario.end_of_time
            Sample.facebook_react = Return r
         /\ @Date_parse Scenario.deep_time Scenario.ancient_noon
            = Some (-367199351999999)
         /\ Date_now Scenario.end_of_time = 8640000000000000
         /\ activitylevel r = "104249993 days"
         /\ Qeq (Spec.elapsed 8640000000000000 (-367199351999999))
                (9007199351999999 # 86400000)
         /\ Spec.round_half_up (Spec.elapsed 8640000000000000 (-367199351999999))
            = 104249992
         /\ activitylevel r
            <> (Z_toString
                  (Spec.round_half_up
                     (Spec.elapsed 8640000000000000 (-367199351999999)))
                ++ " days")%string).
Proof.
  split.
  - eexists. split; [reflexivity |]. split; reflexivity.
  - eexists. split; [reflexivity |].
    repeat split; try (vm_compute; reflexivity).
    vm_compute. discriminate.
Qed.

(** ** The numeric scores *)

Lemma tie_at_half q :
  (q + (1 # 2) == inject_Z (Qfloor (q + (1 # 2))))%Q -> Spec.tie q = true.
Proof.
  intros H. unfold Spec.tie. apply Qeq_bool_iff. symmetry. exact H.
Qed.

(** C2, as the program has it.  In the record of a successful fetch whose
    payload carries the integers [stars] and [issues], [healthscore] is
    [Math.round((1 - issues / (stars + 1)) * 100)] evaluated in binary64
    arithmetic.  For counts below 2^42 this is the exactly computed value
    rounded to the nearest integer, halves up, or one less than that where
    the exact value is a tie.  The score is not clamped: 0 stars and 50
    issues give -4900.  The snapshot {stars:100, issues:10} gives 90, and
    {stars:39, issues:17} gives 57. *)
Theorem health_score_in_binary64 (P : Platform) :
  (forall env repoInfo status data stars issues,
      fetch env (request repoInfo) = Response status (BodyData data) ->
      ok status = true ->
      stargazers_count data = of_Z stars ->
      open_issues_count data = of_Z issues ->
      exists r,
        fetchGitHubRepoData env repoInfo = Return r
        /\ healthscore r = Binary64.healthScore stars issues
        /\ (0 <= stars < 2 ^ 42 -> 0 <= issues < 2 ^ 42 ->
            exists n,
              Binary64.to_Z (healthscore r) = Some n
              /\ (n = Spec.healthScore stars issues
                  \/ (Spec.tie (Spec.health stars issues) = true
                      /\ n = Spec.healthScore stars issues - 1))))
  /\ Binary64.healthScore 100 10 = Int 90
  /\ Binary64.healthScore 0 50 = Int (-4900)
  /\ Binary64.healthScore 39 17 = Int 57.
Proof.
  split; [| repeat split; vm_compute; reflexivity].
  intros env repoInfo status data stars issues Hf Hok Hstars Hissues.
  exists (repoData env data).
  split; [exact (fetch_success env repoInfo status data Hf Hok) |].
  assert (Hscore : healthscore (repoData env data) = Binary64.healthScore stars issues).
  { unfold repoData, Binary64.healthScore; simpl. rewrite Hstars, Hissues. reflexivity. }
  split; [exact Hscore |].
  intros Hs Hi. rewrite Hscore.
  destruct (Float64.healthScore_close stars issues Hs Hi) as (n & Hn & Hcases).
  exists n. split; [exact Hn |].
  destruct Hcases as [Hexact | [Htie Hbelow]]; [left; exact Hexact | right].
  split; [apply tie_at_half; exact Htie | exact Hbelow].
Qed.

Lemma health_score_in_binary64_witness :
  exists r,
    @fetchGitHubRepoData Reference.platform (Sample.online Sample.react)
       Sample.facebook_react = Return r
    /\ healthscore r = Int 90
    /\ Spec.healthScore 100 10 = 90
    /\ exists n,
         Binary64.to_Z (healthscore r) = Some n
         /\ (n = Spec.healthScore 100 10
             \/ (Spec.tie (Spec.health 100 10) = true
                 /\ n = Spec.healthScore 100 10 - 1)).
Proof.
  destruct (health_score_in_binary64 Reference.platform) as (Hgen & H90 & _).
  destruct (Hgen (Sample.online Sample.react) Sample.facebook_react 200
                 Sample.react 100 10 eq_refl eq_refl eq_refl eq_refl)
    as (r & Hr & Hscore & Hclose).
  exists r. split; [exact Hr | split; [| split; [reflexivity |]]].
  - rewrite Hscore. exact H90.
  - apply Hclose; lia.
Defined.

(** C2 as stated fails: for 39 stars and 17 issues the formula is worth
    57.5, which rounds to 58 (halves up, or halves to even), while the
    record of the program carries 57. *)
Lemma health_score_is_not_the_exact_rounding :
  exists r,
    @fetchGitHubRepoData Reference.platform
       (Sample.online (Sample.snapshot 39 0 17 JSNull JSNull))
       Sample.facebook_react = Return r
    /\ healthscore r = Int 57
    /\ Qeq (Spec.health 39 17) (115 # 2)
    /\ Spec.healthScore 39 17 = 58
    /\ Spec.round_half_even (Spec.health 39 17) = 58
    /\ healthscore r <> Int (Spec.healthScore 39 17).
Proof.
  eexists. split; [reflexivity |].
  repeat split; try (vm_compute; reflexivity).
  vm_compute. discriminate.
Qed.

(** C4, as the program has it.  In the record of a successful fetch whose
    payload carries the integers [stars] and [forks], [trendingfactor] is
    [Math.round((stars / (forks + 1)) * 10)] evaluated in binary64
    arithmetic.  For [stars] below 2^46 and [forks + 1] below 2^53 this is
    the exactly computed value rounded to the nearest integer, halves up.
    The snapshot {stars:100, forks:9} gives 100. *)
Theorem trending_factor_in_binary64 (P : Platform) :
  (forall env repoInfo status data stars forks,
      fetch env (request repoInfo) = Response status (BodyData data) ->
      ok status = true ->
      stargazers_count data = of_Z stars ->
      forks_count data = of_Z forks ->
      exists r,
        fetchGitHubRepoData env repoInfo = Return r
        /\ trendingfactor r = Binary64.trendingFactor stars forks
        /\ (0 <= stars < 2 ^ 46 -> 0 <= forks -> forks + 1 < 2 ^ 53 ->
            Binary64.to_Z (trendingfactor r) = Some (Spec.trendingFactor stars forks)))
  /\ Binary64.trendingFactor 100 9 = Int 100.
Proof.
  split; [| vm_compute; reflexivity].
  intros env repoInfo status data stars forks Hf Hok Hstars Hforks.
  exists (repoData env data).
  split; [exact (fetch_success env repoInfo status data Hf Hok) |].
  assert (Hscore : trendingfactor (repoData env data) = Binary64.trendingFactor stars forks).
  { unfold repoData, Binary64.trendingFactor; simpl. rewrite Hstars, Hforks. reflexivity. }
  split; [exact Hscore |].
  intros Hs Hk Hk1. rewrite Hscore.
  exact (Float64.trendingFactor_exact stars forks Hs Hk Hk1).
Qed.

Lemma trending_factor_in_binary64_witness :
  exists r,
    @fetchGitHubRepoData Reference.platform (Sample.online Sample.react)
       Sample.facebook_react = Return r
    /\ trendingfactor r = Int 100
    /\ Spec.trendingFactor 100 9 = 100
    /\ Binary64.to_Z (trendingfactor r) = Some (Spec.trendingFactor 100 9).
Proof.
  destruct (trending_factor_in_binary64 Reference.platform) as (Hgen & H100).
  destruct (Hgen (Sample.online Sample.react) Sample.facebook_react 200
                 Sample.react 100 9 eq_refl eq_refl eq_refl eq_refl)
    as (r & Hr & Hscore & Hexact).
  exists r. split; [exact Hr | split; [| split; [reflexivity |]]].
  - rewrite Hscore. exact H100.
  - apply Hexact; lia.
Defined.

(** C4 as stated fails: for 8144685847563994 stars and 240 forks the
    formula is worth 337953769608464.48..., which rounds to
    337953769608464, while the record of the program carries
    337953769608465. *)
Lemma trending_factor_is_not_the_exact_rounding :
  exists r,
    @fetchGitHubRepoData Reference.platform
       (Sample.online (Sample.snapshot 8144685847563994 240 0 JSNull JSNull))
       Sample.facebook_react = Return r
    /\ trendingfactor r = Int 337953769608465
    /\ Spec.trendingFactor 8144685847563994 240 = 337953769608464
    /\ Spec.round_half_even (Spec.trending 8144685847563994 240) = 337953769608464
    /\ trendingfactor r <> Int (Spec.trendingFactor 8144685847563994 240).
Proof.
  eexists. split; [reflexivity |].
  repeat split; try (vm_compute; reflexivity).
  vm_compute. discriminate.
Qed.

(** * Further properties of the handlers *)

(** ** Adding a repository *)

Lemma details_not_empty e : details e <> "".
Proof.
  unfold details. simpl.
  destruct (String.eqb_spec (message e) "") as [_ | Hne]; simpl;
    [discriminate | exact Hne].
Qed.

Section Adding.
Context {P : Platform}.

Lemma handleSubmit_insert_failure env w repoInfo r e :
  extractRepoInfo (url (ui w)) = Return repoInfo ->
  fetchGitHubRepoData env repoInfo = Return r ->
  insert_fault env = Some e ->
  run (handleSubmit env) w
  = mkWorld (mkState (url (ui w)) (repos (ui w)) false
                     "Failed to add repository" (details e) false)
            (Supabase.mkStore (Supabase.rows (db w)) (Supabase.next_id (db w))
                              (Supabase.calls (db w) ++ [Supabase.Insert [r]])).
Proof.
  intros Hp Hf Hi.
  unfold run, handleSubmit, mbind, catch, set, lift, query, Supabase.insert. simpl.
  rewrite Hp, Hf, Hi. reflexivity.
Qed.

Lemma handleSubmit_inserted env w repoInfo r :
  extractRepoInfo (url (ui w)) = Return repoInfo ->
  fetchGitHubRepoData env repoInfo = Return r ->
  insert_fault env = None ->
  run (handleSubmit env) w
  = let w1 :=
      run (fetchRepos env)
        (mkWorld (mkState "" (repos (ui w)) true "" "" false)
           (Supabase.mkStore
              (Supabase.rows (db w) ++ [Supabase.mkRow (Supabase.next_id (db w)) r])
              (Supabase.next_id (db w) + 1)
              (Supabase.calls (db w) ++ [Supabase.Insert [r]]))) in
    mkWorld (setLoading false (ui w1)) (db w1).
Proof.
  intros Hp Hf Hi.
  unfold run, handleSubmit, mbind, catch, set, lift, query, Supabase.insert. simpl.
  rewrite Hp, Hf, Hi. simpl.
  unfold fetchRepos, catch, mbind, query, set, Supabase.select_ordered, throw. simpl.
  destruct (select_fault env); reflexivity.
Qed.

Lemma fetchRepos_failure env w e :
  select_fault env = Some e ->
  run (fetchRepos env) w
  = mkWorld (mkState (url (ui w)) (repos (ui w)) (loading (ui w))
                     "Failed to fetch repos" (details e) (showDetailedError (ui w)))
            (Supabase.mkStore (Supabase.rows (db w)) (Supabase.next_id (db w))
                              (Supabase.calls (db w) ++ [Supabase.SelectAll])).
Proof.
  intros Hs. unfold run, fetchRepos, catch, mbind, query, set, Supabase.select_ordered, throw.
  rewrite Hs. reflexivity.
Qed.

End Adding.

(** X1.  When every stage succeeds, [handleSubmit] stores exactly one new
    row, holding the fetched record under the next identifier of the
    store; it asks the store for one insertion and one listing; the form
    is emptied and re-enabled, no error is shown, and the list shown is
    the new content of the store, newest first, the new row included. *)
Theorem successful_add_stores_one_row (P : Platform) env w repoInfo r :
  extractRepoInfo (url (ui w)) = Return repoInfo ->
  fetchGitHubRepoData env repoInfo = Return r ->
  insert_fault env = None ->
  select_fault env = None ->
  let w' := run (handleSubmit env) w in
  let row := Supabase.mkRow (Supabase.next_id (db w)) r in
  Supabase.rows (db w') = Supabase.rows (db w) ++ [row]
  /\ Supabase.next_id (db w') = Supabase.next_id (db w) + 1
  /\ Supabase.calls (db w')
     = Supabase.calls (db w) ++ [Supabase.Insert [r]; Supabase.SelectAll]
  /\ ui w' = mkState "" (Supabase.order_createdat_desc (Supabase.rows (db w')))
                     false "" "" false
  /\ In row (repos (ui w'))
  /\ newest_first (repos (ui w')).
Proof.
  intros Hp Hf Hi Hs w' row. subst w'.
  rewrite (handleSubmit_inserted env w repoInfo r Hp Hf Hi).
  rewrite (fetchRepos_success env _ Hs). cbn [ui db Supabase.rows Supabase.next_id
    Supabase.calls url repos loading setLoading error detailedError showDetailedError].
  repeat split.
  - rewrite <- List.app_assoc. reflexivity.
  - apply (Permutation_in _ (order_perm _)). apply in_or_app. right. left. reflexivity.
  - apply order_newest_first.
Qed.

Lemma successful_add_stores_one_row_witness :
  let w' := @run (@handleSubmit Reference.platform (Sample.online Sample.react))
                 (Sample.typed Scenario.react_address) in
  Supabase.rows (db w')
  = Supabase.rows Sample.stored ++ [Supabase.mkRow 2 Scenario.react_record]
  /\ url (ui w') = ""
  /\ List.length (repos (ui w')) = 2%nat.
Proof.
  destruct (successful_add_stores_one_row Reference.platform
              (Sample.online Sample.react) (Sample.typed Scenario.react_address)
              Sample.facebook_react Scenario.react_record
              eq_refl eq_refl eq_refl eq_refl)
    as (Hrows & _ & _ & Hui & _).
  split; [exact Hrows |]. rewrite Hui. split; reflexivity.
Defined.

(** X2.  When the store refuses the insertion, the refusal is reported with
    its own message (or the stock text when it has none), nothing is
    written, the store is asked for no listing, and the form keeps the
    typed address and the list it showed. *)
Theorem refused_insert_is_reported (P : Platform) env w repoInfo r e :
  extractRepoInfo (url (ui w)) = Return repoInfo ->
  fetchGitHubRepoData env repoInfo = Return r ->
  insert_fault env = Some e ->
  let w' := run (handleSubmit env) w in
  Supabase.rows (db w') = Supabase.rows (db w)
  /\ Supabase.next_id (db w') = Supabase.next_id (db w)
  /\ Supabase.calls (db w') = Supabase.calls (db w) ++ [Supabase.Insert [r]]
  /\ ui w' = mkState (url (ui w)) (repos (ui w)) false
                     "Failed to add repository"
                     (if (message e =? "")%string
                      then "No additional error details available"
                      else message e)
                     false.
Proof.
  intros Hp Hf Hi w'. subst w'.
  rewrite (handleSubmit_insert_failure env w repoInfo r e Hp Hf Hi).
  cbn [ui db Supabase.rows Supabase.next_id Supabase.calls].
  repeat split. unfold details. simpl.
  destruct (message e =? "")%string; reflexivity.
Qed.

Lemma refused_insert_is_reported_witness :
  let w' := @run (@handleSubmit Reference.platform Scenario.refusing_insert)
                 (Sample.typed Scenario.react_address) in
  Supabase.rows (db w') = Supabase.rows Sample.stored
  /\ error (ui w') = "Failed to add repository"
  /\ detailedError (ui w') = "permission denied"
  /\ url (ui w') = Scenario.react_address.
Proof.
  destruct (refused_insert_is_reported Reference.platform Scenario.refusing_insert
              (Sample.typed Scenario.react_address)
              Sample.facebook_react Scenario.react_record
              (mkError "permission denied") eq_refl eq_refl eq_refl)
    as (Hrows & _ & _ & Hui).
  split; [exact Hrows |]. rewrite Hui. repeat split.
Defined.

(** X3.  When the insertion succeeds and the listing that follows fails,
    the record is stored all the same and the form is emptied, but the
    list shown is the old one and the error reads "Failed to fetch repos":
    [fetchRepos] handles its own failure, so the [catch] of [handleSubmit]
    never sees it. *)
Theorem stored_but_not_listed (P : Platform) env w repoInfo r e :
  extractRepoInfo (url (ui w)) = Return repoInfo ->
  fetchGitHubRepoData env repoInfo = Return r ->
  insert_fault env = None ->
  select_fault env = Some e ->
  let w' := run (handleSubmit env) w in
  Supabase.rows (db w')
  = Supabase.rows (db w) ++ [Supabase.mkRow (Supabase.next_id (db w)) r]
  /\ ui w' = mkState "" (repos (ui w)) false "Failed to fetch repos" (details e) false.
Proof.
  intros Hp Hf Hi Hs w'. subst w'.
  rewrite (handleSubmit_inserted env w repoInfo r Hp Hf Hi).
  rewrite (fetchRepos_failure env _ e Hs). split; reflexivity.
Qed.

Lemma stored_but_not_listed_witness :
  let w' := @run (@handleSubmit Reference.platform Scenario.refusing_select)
                 (Sample.typed Scenario.react_address) in
  List.length (Supabase.rows (db w')) = 2%nat
  /\ repos (ui w') = []
  /\ error (ui w') = "Failed to fetch repos"
  /\ detailedError (ui w') = "No additional error details available".
Proof.
  destruct (stored_but_not_listed Reference.platform Scenario.refusing_select
              (Sample.typed Scenario.react_address)
              Sample.facebook_react Scenario.react_record
              (mkError "") eq_refl eq_refl eq_refl eq_refl)
    as (Hrows & Hui).
  cbv zeta. rewrite Hrows, Hui. repeat split.
Defined.

Lemma fetchRepos_store env w :
  Supabase.rows (db (run (fetchRepos env) w)) = Supabase.rows (db w)
  /\ Supabase.next_id (db (run (fetchRepos env) w)) = Supabase.next_id (db w).
Proof.
  destruct (select_fault env) as [e |] eqn:Hs.
  - rewrite (fetchRepos_failure env w e Hs). split; reflexivity.
  - rewrite (fetchRepos_success env w Hs). split; reflexivity.
Qed.

Lemma fetchRepos_flags env w :
  loading (ui (run (fetchRepos env) w)) = loading (ui w)
  /\ url (ui (run (fetchRepos env) w)) = url (ui w)
  /\ (showDetailedError (ui w) = false ->
      showDetailedError (ui (run (fetchRepos env) w)) = false).
Proof.
  destruct (select_fault env) as [e |] eqn:Hs.
  - rewrite (fetchRepos_failure env w e Hs). repeat split. auto.
  - rewrite (fetchRepos_success env w Hs). repeat split.
Qed.

(** The flags and the rows after [handleSubmit], whatever happened. *)
Lemma handleSubmit_outcome {P : Platform} env w :
  let w' := run (handleSubmit env) w in
  loading (ui w') = false
  /\ showDetailedError (ui w') = false
  /\ exists added,
       Supabase.rows (db w') = Supabase.rows (db w) ++ added
       /\ (List.length added <= 1)%nat
       /\ Supabase.next_id (db w')
          = Supabase.next_id (db w) + Z.of_nat (List.length added)
       /\ Forall (fun r => Supabase.id r = Supabase.next_id (db w)) added.
Proof.
  intros w'. subst w'.
  assert (Hnone : forall s : Supabase.Store,
             Supabase.rows s = Supabase.rows s ++ []
             /\ (List.length (@nil Supabase.Row) <= 1)%nat
             /\ Supabase.next_id s
                = Supabase.next_id s + Z.of_nat (List.length (@nil Supabase.Row))
             /\ Forall (fun r => Supabase.id r = Supabase.next_id s) []).
  { intros s. rewrite List.app_nil_r. simpl. repeat split; try lia. constructor. }
  destruct (extractRepoInfo (url (ui w))) as [repoInfo | e0] eqn:Hp.
  - destruct (fetchGitHubRepoData env repoInfo) as [r | e1] eqn:Hf.
    + destruct (insert_fault env) as [e2 |] eqn:Hi.
      * rewrite (handleSubmit_insert_failure env w repoInfo r e2 Hp Hf Hi).
        repeat split. exists []. apply (Hnone (db w)).
      * rewrite (handleSubmit_inserted env w repoInfo r Hp Hf Hi).
        cbv zeta. cbn [ui db].
        match goal with |- context [run (fetchRepos env) ?w0] =>
          destruct (fetchRepos_store env w0) as [Hrows Hnext];
          destruct (fetchRepos_flags env w0) as (_ & _ & Hshow);
          set (w1 := run (fetchRepos env) w0) in *
        end.
        cbn [db Supabase.rows Supabase.next_id ui showDetailedError] in Hrows, Hnext, Hshow.
        destruct (ui w1) as [u1 l1 b1 e1 d1 s1] eqn:Hui.
        cbn [setLoading loading showDetailedError] in *.
        repeat split; [auto |].
        exists [Supabase.mkRow (Supabase.next_id (db w)) r].
        rewrite Hrows, Hnext. simpl. repeat split; try lia.
        repeat constructor.
    + rewrite (handleSubmit_fetch_failure env w repoInfo e1 Hp Hf).
      repeat split. exists []. apply (Hnone (db w)).
  - rewrite (handleSubmit_parse_failure env w (ex_intro _ e0 Hp)).
    repeat split. exists []. apply (Hnone (db w)).
Qed.

(** X4.  In every run in which the awaited calls settle (a request or
    a store call that never answers has no outcome in [FetchOutcome] and
    [Supabase.Reply], and leaves the handler waiting with [loading]
    set), whatever they answer, [handleSubmit] leaves the form enabled
    again and the details folded, and it never removes or alters a row:
    the rows of the store afterwards are the rows before, followed by at
    most one new row. *)
Theorem submit_reenables_form_and_only_appends (P : Platform) env w :
  let w' := run (handleSubmit env) w in
  loading (ui w') = false
  /\ View.submit_caption (ui w') = "Add Repository"
  /\ showDetailedError (ui w') = false
  /\ exists added,
       Supabase.rows (db w') = Supabase.rows (db w) ++ added
       /\ (List.length added <= 1)%nat
       /\ Supabase.next_id (db w')
          = Supabase.next_id (db w) + Z.of_nat (List.length added).
Proof.
  intros w'. subst w'.
  destruct (handleSubmit_outcome env w) as (Hl & Hs & added & Hrows & Hlen & Hnext & _).
  split; [exact Hl |].
  split; [unfold View.submit_caption; rewrite Hl; reflexivity |].
  split; [exact Hs |].
  exists added. auto.
Qed.

(** X5.  Nothing deduplicates: adding a repository, typing the same
    address again and adding it once more gives two rows under
    consecutive identifiers, each holding the record fetched at its own
    time, stamped with the clock of its own addition.  When the provider
    answers both requests with the same payload, the two records agree
    on the identity, the counts, the language and the two scores (the
    clock enters only [createdat] and [activitylevel]). *)
Theorem same_address_twice_gives_two_rows (P : Platform) env env' w repoInfo r r' :
  extractRepoInfo (url (ui w)) = Return repoInfo ->
  fetchGitHubRepoData env repoInfo = Return r ->
  insert_fault env = None ->
  fetchGitHubRepoData env' repoInfo = Return r' ->
  insert_fault env' = None ->
  let w1 := run (handleSubmit env) w in
  let w2 := run (handleSubmit env') (run (handleChange (url (ui w))) w1) in
  Supabase.rows (db w2)
  = Supabase.rows (db w)
    ++ [Supabase.mkRow (Supabase.next_id (db w)) r;
        Supabase.mkRow (Supabase.next_id (db w) + 1) r']
  /\ createdat r = Date_new env
  /\ createdat r' = Date_new env'
  /\ (forall status status' data,
         fetch env (request repoInfo) = Response status (BodyData data) ->
         fetch env' (request repoInfo) = Response status' (BodyData data) ->
         name r = name r' /\ owner r = owner r' /\ fullname r = fullname r'
         /\ stars r = stars r' /\ forks r = forks r' /\ issues r = issues r'
         /\ mainlanguage r = mainlanguage r'
         /\ healthscore r = healthscore r'
         /\ trendingfactor r = trendingfactor r').
Proof.
  intros Hp Hf Hi Hf' Hi' w1 w2.
  assert (H1 : Supabase.rows (db w1)
               = Supabase.rows (db w) ++ [Supabase.mkRow (Supabase.next_id (db w)) r]
               /\ Supabase.next_id (db w1) = Supabase.next_id (db w) + 1).
  { subst w1. rewrite (handleSubmit_inserted env w repoInfo r Hp Hf Hi).
    cbv zeta. cbn [db].
    match goal with |- context [run (fetchRepos env) ?w0] =>
      destruct (fetchRepos_store env w0) as [Hrows Hnext]
    end.
    rewrite Hrows, Hnext. split; reflexivity. }
  destruct H1 as [Hrows1 Hnext1].
  split.
  { subst w2. set (w1' := run (handleChange (url (ui w))) w1).
    assert (Hurl : url (ui w1') = url (ui w)) by reflexivity.
    assert (Hdb : db w1' = db w1) by reflexivity.
    rewrite (handleSubmit_inserted env' w1' repoInfo r');
      [| rewrite Hurl; exact Hp | exact Hf' | exact Hi'].
    cbv zeta. cbn [db].
    match goal with |- context [run (fetchRepos env') ?w0] =>
      destruct (fetchRepos_store env' w0) as [Hrows _]
    end.
    rewrite Hrows. cbn [db Supabase.rows].
    rewrite Hdb, Hrows1, Hnext1, <- List.app_assoc. reflexivity. }
  destruct (fetch_returns env repoInfo r Hf) as (s0 & d0 & Hd0 & _ & ->).
  destruct (fetch_returns env' repoInfo r' Hf') as (s1 & d1 & Hd1 & _ & ->).
  split; [reflexivity | split; [reflexivity |]].
  intros status status' data Hd Hd'.
  rewrite Hd in Hd0. rewrite Hd' in Hd1.
  injection Hd0 as _ <-. injection Hd1 as _ <-.
  repeat split.
Qed.

Lemma same_address_twice_gives_two_rows_witness :
  let w1 := @run (@handleSubmit Reference.platform (Sample.online Sample.react))
                 (Sample.typed Scenario.react_address) in
  let w2 := @run (@handleSubmit Reference.platform Scenario.later)
                 (run (handleChange Scenario.react_address) w1) in
  Supabase.rows (db w2)
  = Supabase.rows Sample.stored
    ++ [Supabase.mkRow 2 Scenario.react_record;
        Supabase.mkRow 3 (@repoData Reference.platform Scenario.later Sample.react)]
  /\ createdat Scenario.react_record = Sample.clock
  /\ createdat (@repoData Reference.platform Scenario.later Sample.react)
     = Sample.clock + 90000.
Proof.
  destruct (same_address_twice_gives_two_rows Reference.platform
              (Sample.online Sample.react) Scenario.later
              (Sample.typed Scenario.react_address)
              Sample.facebook_react Scenario.react_record
              (@repoData Reference.platform Scenario.later Sample.react)
              eq_refl eq_refl eq_refl eq_refl eq_refl)
    as (Hrows & Hstamp & Hstamp' & _).
  split; [exact Hrows | split; [exact Hstamp | exact Hstamp']].
Defined.

(** X6.  A failed addition, whatever stage failed, leaves the typed address
    in the field, the list shown and the rows of the store as they were;
    the banner reads "Failed to add repository", there are details to
    unfold, and they are folded until asked for. *)
Theorem failed_add_keeps_the_form (P : Platform) env w :
  let w' := run (handleSubmit env) w in
  error (ui w') = "Failed to add repository" ->
  url (ui w') = url (ui w)
  /\ repos (ui w') = repos (ui w)
  /\ Supabase.rows (db w') = Supabase.rows (db w)
  /\ detailedError (ui w') <> ""
  /\ View.banner (ui w') = Some "Failed to add repository"
  /\ View.toggle_caption (ui w') = Some "See more"
  /\ View.details_panel (ui w') = None.
Proof.
  intros w'. subst w'.
  assert (Hshape : forall u l d db0,
             d <> "" ->
             let w0 := mkWorld (mkState u l false "Failed to add repository" d false) db0 in
             detailedError (ui w0) <> ""
             /\ View.banner (ui w0) = Some "Failed to add repository"
             /\ View.toggle_caption (ui w0) = Some "See more"
             /\ View.details_panel (ui w0) = None).
  { intros u l d db0 Hd. simpl. split; [exact Hd |].
    unfold View.banner, View.toggle_caption, View.details_panel. simpl.
    apply String.eqb_neq in Hd. rewrite Hd. repeat split. }
  destruct (extractRepoInfo (url (ui w))) as [repoInfo | e0] eqn:Hp.
  - destruct (fetchGitHubRepoData env repoInfo) as [r | e1] eqn:Hf.
    + destruct (insert_fault env) as [e2 |] eqn:Hi.
      * rewrite (handleSubmit_insert_failure env w repoInfo r e2 Hp Hf Hi). intros _.
        repeat split; try reflexivity; apply (Hshape _ _ _ _ (details_not_empty e2)).
      * rewrite (handleSubmit_inserted env w repoInfo r Hp Hf Hi). cbv zeta.
        destruct (select_fault env) as [e3 |] eqn:Hs.
        -- rewrite (fetchRepos_failure env _ e3 Hs). simpl. discriminate.
        -- rewrite (fetchRepos_success env _ Hs). simpl. discriminate.
    + rewrite (handleSubmit_fetch_failure env w repoInfo e1 Hp Hf). intros _.
      repeat split; try reflexivity; apply (Hshape _ _ _ _ (details_not_empty e1)).
  - rewrite (handleSubmit_parse_failure env w (ex_intro _ e0 Hp)). intros _.
    repeat split; try reflexivity;
      apply (Hshape _ _ "Invalid GitHub URL format" _); discriminate.
Qed.

Lemma failed_add_keeps_the_form_witness :
  let w' := @run (@handleSubmit Reference.platform Scenario.garbled)
                 (Sample.typed Scenario.react_address) in
  url (ui w') = Scenario.react_address
  /\ Supabase.rows (db w') = Supabase.rows Sample.stored
  /\ View.toggle_caption (ui w') = Some "See more".
Proof.
  destruct (failed_add_keeps_the_form Reference.platform Scenario.garbled
              (Sample.typed Scenario.react_address) eq_refl)
    as (Hurl & _ & Hrows & _ & _ & Htoggle & _).
  split; [exact Hurl | split; [exact Hrows | exact Htoggle]].
Defined.

(** ** Listing *)

(** X7.  [fetchRepos] never throws and never writes.  When the store fails
    to answer, the banner reads "Failed to fetch repos" with the store's
    message as details, and the list shown stays as it was. *)
Theorem listing_never_throws_nor_writes env w :
  fst (fetchRepos env w) = Return tt
  /\ Supabase.rows (db (run (fetchRepos env) w)) = Supabase.rows (db w)
  /\ Supabase.next_id (db (run (fetchRepos env) w)) = Supabase.next_id (db w)
  /\ forall e,
       select_fault env = Some e ->
       ui (run (fetchRepos env) w)
       = mkState (url (ui w)) (repos (ui w)) (loading (ui w))
                 "Failed to fetch repos" (details e) (showDetailedError (ui w)).
Proof.
  split; [| split; [apply fetchRepos_store | split; [apply fetchRepos_store |]]].
  - unfold fetchRepos, catch, mbind, query, set, Supabase.select_ordered, throw.
    destruct (select_fault env); reflexivity.
  - intros e Hs. rewrite (fetchRepos_failure env w e Hs). reflexivity.
Qed.

Lemma listing_never_throws_nor_writes_witness :
  let w' := run (fetchRepos Scenario.refusing_select)
                (mkWorld (setRepos (Supabase.rows Sample.stored) initial) Sample.stored) in
  repos (ui w') = Supabase.rows Sample.stored
  /\ error (ui w') = "Failed to fetch repos"
  /\ detailedError (ui w') = "No additional error details available".
Proof.
  destruct (listing_never_throws_nor_writes Scenario.refusing_select
              (mkWorld (setRepos (Supabase.rows Sample.stored) initial) Sample.stored))
    as (_ & _ & _ & Hfail).
  cbv zeta. rewrite (Hfail (mkError "") eq_refl). repeat split.
Defined.

(** ** Deleting a repository *)

Lemma handleDelete_accepted env row_id w :
  run (handleDelete env true None row_id) w
  = run (fetchRepos env)
      (mkWorld (ui w)
         (Supabase.mkStore
            (filter (fun r => negb (Supabase.id r =? row_id)) (Supabase.rows (db w)))
            (Supabase.next_id (db w))
            (Supabase.calls (db w) ++ [Supabase.Delete row_id]))).
Proof.
  unfold run, handleDelete, catch, mbind, query, Supabase.delete. simpl.
  unfold fetchRepos, catch, mbind, query, set, Supabase.select_ordered, throw. simpl.
  destruct (select_fault env); reflexivity.
Qed.

(** X8.  A confirmed deletion the store accepts removes the rows with that
    identifier and no other; the list is then asked anew, and when the
    store answers it shows the remaining rows, newest first, with any
    earlier error cleared. *)
Theorem confirmed_delete_removes_the_row env row_id w :
  select_fault env = None ->
  let w' := run (handleDelete env true None row_id) w in
  (forall r, In r (Supabase.rows (db w'))
             <-> In r (Supabase.rows (db w)) /\ Supabase.id r <> row_id)
  /\ (forall r, In r (repos (ui w'))
                <-> In r (Supabase.rows (db w)) /\ Supabase.id r <> row_id)
  /\ newest_first (repos (ui w'))
  /\ error (ui w') = "" /\ detailedError (ui w') = ""
  /\ Supabase.calls (db w')
     = Supabase.calls (db w) ++ [Supabase.Delete row_id; Supabase.SelectAll].
Proof.
  intros Hs w'. subst w'.
  rewrite handleDelete_accepted, (fetchRepos_success env _ Hs).
  cbn [ui db Supabase.rows Supabase.calls repos error detailedError].
  assert (Hkeep : forall r,
             In r (filter (fun r => negb (Supabase.id r =? row_id)) (Supabase.rows (db w)))
             <-> In r (Supabase.rows (db w)) /\ Supabase.id r <> row_id).
  { intros r. rewrite filter_In, negb_true_iff, Z.eqb_neq. reflexivity. }
  split; [exact Hkeep |].
  split.
  { intros r. rewrite <- Hkeep. split; intros H.
    - apply (Permutation_in _ (Permutation_sym (order_perm _))). exact H.
    - apply (Permutation_in _ (order_perm _)). exact H. }
  split; [apply order_newest_first |].
  repeat split. rewrite <- List.app_assoc. reflexivity.
Qed.

Lemma confirmed_delete_removes_the_row_witness :
  let w' := run (handleDelete (Sample.online Sample.react) true None 1)
                (mkWorld initial Sample.stored) in
  (forall r, In r (Supabase.rows (db w'))
             <-> In r (Supabase.rows Sample.stored) /\ Supabase.id r <> 1)
  /\ (forall r, In r (repos (ui w'))
                <-> In r (Supabase.rows Sample.stored) /\ Supabase.id r <> 1)
  /\ newest_first (repos (ui w'))
  /\ error (ui w') = "" /\ detailedError (ui w') = ""
  /\ Supabase.calls (db w')
     = Supabase.calls Sample.stored ++ [Supabase.Delete 1; Supabase.SelectAll].
Proof.
  exact (confirmed_delete_removes_the_row (Sample.online Sample.react) 1
           (mkWorld initial Sample.stored) eq_refl).
Defined.

(** X9.  Deleting an identifier no row carries is not told apart from a
    successful deletion: the rows stay as they are and no error is shown. *)
Theorem deleting_unknown_id_is_silent env row_id w :
  select_fault env = None ->
  (forall r, In r (Supabase.rows (db w)) -> Supabase.id r <> row_id) ->
  let w' := run (handleDelete env true None row_id) w in
  Supabase.rows (db w') = Supabase.rows (db w)
  /\ error (ui w') = ""
  /\ View.banner (ui w') = None.
Proof.
  intros Hs Hnone w'. subst w'.
  rewrite handleDelete_accepted, (fetchRepos_success env _ Hs).
  cbn [ui db Supabase.rows error]. repeat split.
  induction (Supabase.rows (db w)) as [| x l IH]; simpl; [reflexivity |].
  destruct (Z.eqb_spec (Supabase.id x) row_id) as [E | _].
  - exfalso. apply (Hnone x); [left; reflexivity | exact E].
  - simpl. f_equal. apply IH. intros r Hr. apply Hnone. right. exact Hr.
Qed.

Lemma deleting_unknown_id_is_silent_witness :
  let w' := run (handleDelete (Sample.online Sample.react) true None 7)
                (mkWorld initial Sample.stored) in
  Supabase.rows (db w') = Supabase.rows Sample.stored /\ error (ui w') = "".
Proof.
  destruct (deleting_unknown_id_is_silent (Sample.online Sample.react) 7
              (mkWorld initial Sample.stored) eq_refl) as (Hrows & Herr & _).
  - intros r [<- | []]. simpl. lia.
  - split; [exact Hrows | exact Herr].
Defined.

Lemma handleDelete_refused env row_id w e :
  run (handleDelete env true (Some e) row_id) w
  = mkWorld
      (mkState (url (ui w)) (repos (ui w)) (loading (ui w))
               "Failed to delete repository" (details e)
               (showDetailedError (ui w)))
      (Supabase.mkStore (Supabase.rows (db w)) (Supabase.next_id (db w))
                        (Supabase.calls (db w) ++ [Supabase.Delete row_id])).
Proof. reflexivity. Qed.

Lemma handleDelete_store env confirmed fault row_id w :
  let w' := run (handleDelete env confirmed fault row_id) w in
  Supabase.next_id (db w') = Supabase.next_id (db w)
  /\ (Supabase.rows (db w') = Supabase.rows (db w)
      \/ (confirmed = true /\ fault = None
          /\ Supabase.rows (db w')
             = filter (fun r => negb (Supabase.id r =? row_id)) (Supabase.rows (db w)))).
Proof.
  intros w'. subst w'.
  destruct confirmed; [| split; [reflexivity | left; reflexivity]].
  destruct fault as [e |].
  - rewrite handleDelete_refused. split; [reflexivity | left; reflexivity].
  - rewrite handleDelete_accepted.
    match goal with |- context [run (fetchRepos env) ?w0] =>
      destruct (fetchRepos_store env w0) as [Hrows Hnext]
    end.
    rewrite Hrows, Hnext. split; [reflexivity | right; auto].
Qed.

(** X10.  Rows go only when the user confirms and the store accepts.  A
    deletion the user declines does nothing at all, not even a call on the
    store.  A deletion the store refuses removes nothing and asks for no
    listing; the banner reads "Failed to delete repository" with the
    store's message as details, and the list shown stays as it was. *)
Theorem delete_needs_consent_and_success env confirmed fault row_id w :
  let w' := run (handleDelete env confirmed fault row_id) w in
  (confirmed = false -> w' = w)
  /\ (forall e,
         confirmed = true -> fault = Some e ->
         Supabase.rows (db w') = Supabase.rows (db w)
         /\ Supabase.calls (db w') = Supabase.calls (db w) ++ [Supabase.Delete row_id]
         /\ ui w' = mkState (url (ui w)) (repos (ui w)) (loading (ui w))
                            "Failed to delete repository" (details e)
                            (showDetailedError (ui w)))
  /\ (Supabase.rows (db w') <> Supabase.rows (db w) ->
      confirmed = true /\ fault = None).
Proof.
  intros w'. subst w'. split; [| split].
  - intros ->. reflexivity.
  - intros e -> ->. rewrite handleDelete_refused. repeat split.
  - intros Hchanged.
    destruct (handleDelete_store env confirmed fault row_id w) as (_ & [Hsame | (Hc & Hf & _)]).
    + contradiction.
    + split; assumption.
Qed.

Lemma delete_needs_consent_and_success_witness :
  run (handleDelete (Sample.online Sample.react) false None 1)
      (mkWorld initial Sample.stored)
  = mkWorld initial Sample.stored
  /\ Supabase.rows
       (db (run (handleDelete (Sample.online Sample.react) true
                   (Some (mkError "row is locked")) 1)
                (mkWorld initial Sample.stored)))
     = Supabase.rows Sample.stored
  /\ (true = true /\ @None Error = None).
Proof.
  destruct (delete_needs_consent_and_success (Sample.online Sample.react) false None 1
              (mkWorld initial Sample.stored)) as (Hdeclined & _ & _).
  destruct (delete_needs_consent_and_success (Sample.online Sample.react) true
              (Some (mkError "row is locked")) 1 (mkWorld initial Sample.stored))
    as (_ & Hrefused & _).
  destruct (delete_needs_consent_and_success (Sample.online Sample.react) true None 1
              (mkWorld initial Sample.stored)) as (_ & _ & Hremoved).
  split; [exact (Hdeclined eq_refl) |].
  split; [exact (proj1 (Hrefused (mkError "row is locked") eq_refl eq_refl)) |].
  apply Hremoved. vm_compute. discriminate.
Defined.

(** ** Identifiers *)

Lemma filter_out_fresh n (l : list Supabase.Row) added :
  Forall (fun r => Supabase.id r < n) l ->
  Forall (fun r => Supabase.id r = n) added ->
  filter (fun r => negb (Supabase.id r =? n)) (l ++ added) = l.
Proof.
  intros Hl Ha. rewrite filter_app.
  assert (H1 : filter (fun r => negb (Supabase.id r =? n)) l = l).
  { induction Hl as [| x l0 Hx _ IH]; simpl; [reflexivity |].
    destruct (Z.eqb_spec (Supabase.id x) n) as [E | _]; [lia |].
    simpl. now rewrite IH. }
  assert (H2 : filter (fun r => negb (Supabase.id r =? n)) added = []).
  { induction Ha as [| x l0 Hx _ IH]; simpl; [reflexivity |].
    rewrite Hx, Z.eqb_refl. exact IH. }
  rewrite H1, H2. apply List.app_nil_r.
Qed.

Lemma NoDup_map_filter {A B} (f : A -> B) (p : A -> bool) l :
  NoDup (map f l) -> NoDup (map f (filter p l)).
Proof.
  induction l as [| x l IH]; simpl; intros H; [constructor |].
  inversion H as [| ? ? Hx Hl]; subst.
  destruct (p x); simpl; [| auto].
  constructor; [| auto].
  intros Hin. apply Hx. apply in_map_iff in Hin as (y & Hy & Hin).
  apply filter_In in Hin as [Hin _]. apply in_map_iff. exists y. auto.
Qed.

(** X11.  Adding a repository and then deleting the row it was given puts
    the rows of the store back as they were, provided no earlier row
    carries an identifier the store had yet to assign. *)
Theorem add_then_delete_restores_rows (P : Platform) env w repoInfo r :
  ids_assigned (db w) ->
  extractRepoInfo (url (ui w)) = Return repoInfo ->
  fetchGitHubRepoData env repoInfo = Return r ->
  insert_fault env = None ->
  let w1 := run (handleSubmit env) w in
  let w2 := run (handleDelete env true None (Supabase.next_id (db w))) w1 in
  Supabase.rows (db w1)
  = Supabase.rows (db w) ++ [Supabase.mkRow (Supabase.next_id (db w)) r]
  /\ Supabase.rows (db w2) = Supabase.rows (db w).
Proof.
  intros Hids Hp Hf Hi w1 w2.
  assert (H1 : Supabase.rows (db w1)
               = Supabase.rows (db w) ++ [Supabase.mkRow (Supabase.next_id (db w)) r]).
  { subst w1. rewrite (handleSubmit_inserted env w repoInfo r Hp Hf Hi).
    cbv zeta. cbn [db].
    match goal with |- context [run (fetchRepos env) ?w0] =>
      destruct (fetchRepos_store env w0) as [Hrows _]
    end.
    rewrite Hrows. reflexivity. }
  split; [exact H1 |].
  subst w2. rewrite handleDelete_accepted.
  match goal with |- context [run (fetchRepos env) ?w0] =>
    destruct (fetchRepos_store env w0) as [Hrows _]
  end.
  rewrite Hrows. cbn [db Supabase.rows]. rewrite H1.
  apply filter_out_fresh; [exact Hids |].
  repeat constructor.
Qed.

Lemma add_then_delete_restores_rows_witness :
  let w1 := @run (@handleSubmit Reference.platform (Sample.online Sample.react))
                 (Sample.typed Scenario.react_address) in
  let w2 := run (handleDelete (Sample.online Sample.react) true None 2) w1 in
  Supabase.rows (db w1)
  = Supabase.rows Sample.stored ++ [Supabase.mkRow 2 Scenario.react_record]
  /\ Supabase.rows (db w2) = Supabase.rows Sample.stored.
Proof.
  apply (add_then_delete_restores_rows Reference.platform
           (Sample.online Sample.react) (Sample.typed Scenario.react_address)
           Sample.facebook_react Scenario.react_record); try reflexivity.
  repeat constructor.
Defined.

(** X12.  The handlers keep the identifiers of the rows distinct and below
    the next identifier of the store, so that a row can be used as the key
    of its card and addressed by [eq('id', ...)] alone. *)
Theorem identifiers_stay_distinct (P : Platform) env confirmed fault row_id w :
  ids_assigned (db w) ->
  NoDup (map Supabase.id (Supabase.rows (db w))) ->
  forall w',
    w' = run (handleSubmit env) w
    \/ w' = run (handleDelete env confirmed fault row_id) w
    \/ w' = run (fetchRepos env) w ->
    ids_assigned (db w')
    /\ NoDup (map Supabase.id (Supabase.rows (db w'))).
Proof.
  intros Hids Hnd w' [-> | [-> | ->]]; unfold ids_assigned in *.
  - destruct (handleSubmit_outcome env w) as (_ & _ & added & Hrows & Hlen & Hnext & Hnew).
    rewrite Hrows, Hnext. split.
    + apply Forall_app. split.
      * eapply Forall_impl; [| exact Hids]. simpl. intros a Ha. lia.
      * destruct added as [| x [| y rest]]; simpl in Hlen; [constructor | | lia].
        inversion Hnew; subst. repeat constructor. simpl. lia.
    + destruct added as [| x [| y rest]]; simpl in Hlen; [| | lia].
      * rewrite List.app_nil_r. exact Hnd.
      * inversion Hnew as [| ? ? Hx _]; subst. rewrite map_app. simpl.
        apply NoDup_app; [exact Hnd | repeat constructor; intros [] |].
        intros a Ha [<- | []]. rewrite Forall_forall in Hids.
        apply in_map_iff in Ha as (y & Hy & Hin). specialize (Hids y Hin). lia.
  - destruct (handleDelete_store env confirmed fault row_id w)
      as (Hnext & [Hrows | (_ & _ & Hrows)]); rewrite Hrows, Hnext.
    + split; assumption.
    + split; [| apply NoDup_map_filter; exact Hnd].
      rewrite Forall_forall in *. intros x Hx. apply filter_In in Hx as [Hx _]. auto.
  - destruct (fetchRepos_store env w) as [Hrows Hnext]. rewrite Hrows, Hnext.
    split; assumption.
Qed.

Lemma identifiers_stay_distinct_witness :
  let w' := @run (@handleSubmit Reference.platform (Sample.online Sample.react))
                 (Sample.typed Scenario.react_address) in
  ids_assigned (db w') /\ NoDup (map Supabase.id (Supabase.rows (db w'))).
Proof.
  apply (identifiers_stay_distinct Reference.platform (Sample.online Sample.react)
           false None 0 (Sample.typed Scenario.react_address)).
  - repeat constructor.
  - repeat constructor. intros [].
  - left. reflexivity.
Defined.

(** ** The details of an error *)

(** X13.  [toggleDetailedError] touches nothing but its flag, and two
    toggles undo each other.  While an error with details is shown and the
    details are folded, the button reads "See more" and no details are
    rendered; one toggle renders them and turns the button into "Hide
    details". *)
Theorem toggle_unfolds_the_details w :
  run toggleDetailedError (run toggleDetailedError w) = w
  /\ db (run toggleDetailedError w) = db w
  /\ ui (run toggleDetailedError w)
     = setShowDetailedError (negb (showDetailedError (ui w))) (ui w)
  /\ (error (ui w) <> "" -> detailedError (ui w) <> "" ->
      showDetailedError (ui w) = false ->
      View.toggle_caption (ui w) = Some "See more"
      /\ View.details_panel (ui w) = None
      /\ View.toggle_caption (ui (run toggleDetailedError w)) = Some "Hide details"
      /\ View.details_panel (ui (run toggleDetailedError w))
         = Some (detailedError (ui w))).
Proof.
  destruct w as [[u l b e d s] store].
  split; [| split; [reflexivity | split; [reflexivity |]]].
  - unfold run, toggleDetailedError, set. simpl. rewrite negb_involutive. reflexivity.
  - simpl. intros He Hd ->.
    unfold View.toggle_caption, View.details_panel. simpl.
    apply String.eqb_neq in He, Hd. rewrite He, Hd. repeat split.
Qed.

Lemma toggle_unfolds_the_details_witness :
  let w := @run (@handleSubmit Reference.platform Sample.offline)
                (Sample.typed Scenario.react_address) in
  View.details_panel (ui w) = None
  /\ View.details_panel (ui (run toggleDetailedError w))
     = Some "Failed to fetch repository data: Failed to fetch".
Proof.
  destruct (toggle_unfolds_the_details
              (@run (@handleSubmit Reference.platform Sample.offline)
                    (Sample.typed Scenario.react_address)))
    as (_ & _ & _ & Hshown).
  destruct Hshown as (_ & Hfolded & _ & Hunfolded);
    [discriminate | discriminate | reflexivity |].
  split; [exact Hfolded | exact Hunfolded].
Defined.

(** * Further properties of the parser and of the fetcher *)

Lemma split_pieces_have_no_separator sep s p :
  In p (split sep s) -> contains sep p = false.
Proof.
  revert p. induction s as [| c s IH]; simpl; intros p Hp.
  - destruct Hp as [<- | []]. reflexivity.
  - destruct (Ascii.eqb c sep) eqn:Hc.
    + destruct Hp as [<- | Hp]; [reflexivity | auto].
    + destruct (split sep s) as [| seg segs] eqn:Hs.
      * destruct Hp as [<- | []]. simpl. rewrite Hc. reflexivity.
      * destruct Hp as [<- | Hp].
        -- simpl. rewrite Hc. apply IH. left. reflexivity.
        -- apply IH. right. exact Hp.
Qed.

Lemma filter_Boolean_keeps parts p :
  In p (filter_Boolean parts) <-> In p parts /\ p <> "".
Proof.
  unfold filter_Boolean. rewrite filter_In. simpl.
  rewrite negb_true_iff, String.eqb_neq. reflexivity.
Qed.

Section ParserSoundness.
Context {P : Platform}.

Lemma extractRepoInfo_returns url info :
  extractRepoInfo url = Return info ->
  exists u owner name rest,
    URL_new url = Return u
    /\ hostname u = "github.com"
    /\ filter_Boolean (split "/" (pathname u)) = owner :: name :: rest
    /\ info = RepoInfo.mk owner name (owner ++ "/" ++ name)%string.
Proof.
  unfold extractRepoInfo, extractRepoInfo_body, bind.
  destruct (URL_new url) as [u | e]; [| discriminate].
  destruct (String.eqb_spec (hostname u) "github.com") as [Hh | Hh]; [| discriminate].
  simpl.
  destruct (filter_Boolean (split "/" (pathname u))) as [| owner [| name rest]] eqn:Hp;
    simpl; try discriminate.
  intros [= <-]. exists u, owner, name, rest. auto.
Qed.

End ParserSoundness.

(** X14.  [extractRepoInfo] returns an identity only for an address the
    platform parses, whose host is exactly [github.com] and whose path has
    at least two non-empty segments, and the identity is made of the first
    two.  An address the platform cannot parse is answered like every other
    failure, with "Invalid GitHub URL format". *)
Theorem parse_succeeds_only_on_repository_addresses (P : Platform) url :
  (forall info,
      extractRepoInfo url = Return info ->
      exists u owner name rest,
        URL_new url = Return u
        /\ hostname u = "github.com"
        /\ filter_Boolean (split "/" (pathname u)) = owner :: name :: rest
        /\ info = RepoInfo.mk owner name (owner ++ "/" ++ name)%string)
  /\ (forall e,
         URL_new url = Throw e ->
         extractRepoInfo url = Throw (mkError "Invalid GitHub URL format")).
Proof.
  split.
  - apply extractRepoInfo_returns.
  - intros e He. unfold extractRepoInfo, extractRepoInfo_body, bind.
    rewrite He. reflexivity.
Qed.

Lemma parse_succeeds_only_on_repository_addresses_witness :
  (exists u owner name rest,
      @URL_new Reference.platform "https://github.com/facebook/react/pulls" = Return u
      /\ hostname u = "github.com"
      /\ filter_Boolean (split "/" (pathname u)) = owner :: name :: rest
      /\ Sample.facebook_react = RepoInfo.mk owner name (owner ++ "/" ++ name)%string)
  /\ @extractRepoInfo Reference.platform "github.com/facebook/react"
     = Throw (mkError "Invalid GitHub URL format").
Proof.
  destruct (parse_succeeds_only_on_repository_addresses Reference.platform
              "https://github.com/facebook/react/pulls") as [Hsound _].
  destruct (parse_succeeds_only_on_repository_addresses Reference.platform
              "github.com/facebook/react") as [_ Hbad].
  split.
  - apply Hsound. reflexivity.
  - apply (Hbad (mkError "Invalid URL")). reflexivity.
Defined.

(** X15.  The identity [extractRepoInfo] returns is well formed: owner and
    name are not empty and hold no slash, so that [fullName] splits back
    into exactly the two of them and the address requested from the
    provider has the shape [.../repos/owner/name]. *)
Theorem parsed_identity_is_well_formed (P : Platform) url info :
  extractRepoInfo url = Return info ->
  let owner := RepoInfo.owner info in
  let name := RepoInfo.name info in
  owner <> "" /\ name <> ""
  /\ contains "/" owner = false /\ contains "/" name = false
  /\ RepoInfo.fullName info = (owner ++ "/" ++ name)%string
  /\ split "/" (RepoInfo.fullName info) = [owner; name]
  /\ request info = ("https://api.github.com/repos/" ++ owner ++ "/" ++ name)%string.
Proof.
  intros Hr. destruct (extractRepoInfo_returns url info Hr)
    as (u & owner & name & rest & _ & _ & Hp & ->).
  cbn [RepoInfo.owner RepoInfo.name RepoInfo.fullName]. cbv zeta.
  assert (Ho : In owner (filter_Boolean (split "/" (pathname u))))
    by (rewrite Hp; left; reflexivity).
  assert (Hn : In name (filter_Boolean (split "/" (pathname u))))
    by (rewrite Hp; right; left; reflexivity).
  apply filter_Boolean_keeps in Ho as [Ho Ho'], Hn as [Hn Hn'].
  apply split_pieces_have_no_separator in Ho, Hn.
  repeat split; try assumption.
  change (owner ++ "/" ++ name)%string with (owner ++ String "/" name)%string.
  rewrite (split_at_separator "/" owner name Ho).
  rewrite (split_without_separator "/" name Hn). reflexivity.
Qed.

Lemma parsed_identity_is_well_formed_witness :
  split "/" (RepoInfo.fullName Sample.facebook_react) = ["facebook"; "react"]
  /\ request Sample.facebook_react = "https://api.github.com/repos/facebook/react".
Proof.
  destruct (parsed_identity_is_well_formed Reference.platform
              "https://github.com//facebook/react/" Sample.facebook_react eq_refl)
    as (_ & _ & _ & _ & _ & Hsplit & Hrequest).
  split; [exact Hsplit | exact Hrequest].
Defined.

(** X16.  Every failure of [fetchGitHubRepoData] is an Error whose message
    begins with "Failed to fetch repository data: ", followed by the
    message of the cause: the rejection of the request, the status of a
    response that is not a success (the body is then not read), or what
    reading the body of a successful response threw.  In particular the
    message is never empty, so it is what the form shows as details. *)
Theorem fetch_failure_is_wrapped (P : Platform) env repoInfo :
  (forall e,
      fetchGitHubRepoData env repoInfo = Throw e ->
      begins_with "Failed to fetch repository data: " (message e)
      /\ details e = message e
      /\ ((exists cause,
              fetch env (request repoInfo) = Rejected cause
              /\ message e
                 = ("Failed to fetch repository data: " ++ message cause)%string)
          \/ (exists status body,
                 fetch env (request repoInfo) = Response status body
                 /\ ok status = false
                 /\ message e
                    = ("Failed to fetch repository data: GitHub API error: "
                       ++ Z_toString status)%string)
          \/ (exists status cause,
                 fetch env (request repoInfo) = Response status (BodyThrows cause)
                 /\ ok status = true
                 /\ message e
                    = ("Failed to fetch repository data: " ++ message cause)%string)))
  /\ (forall status cause,
         fetch env (request repoInfo) = Response status (BodyThrows cause) ->
         ok status = true ->
         fetchGitHubRepoData env repoInfo
         = Throw (mkError ("Failed to fetch repository data: " ++ message cause)%string)).
Proof.
  split.
  - intros e. unfold fetchGitHubRepoData, fetchGitHubRepoData_body.
    destruct (fetch env (request repoInfo)) as [cause | status body] eqn:Hf; simpl.
    + intros [= <-]. simpl. split; [eexists; reflexivity |].
      split; [reflexivity |]. left. exists cause. auto.
    + destruct (ok status) eqn:Hok; simpl.
      * destruct body as [cause | data]; simpl; [| discriminate].
        intros [= <-]. simpl. split; [eexists; reflexivity |].
        split; [reflexivity |]. right. right. exists status, cause. auto.
      * intros [= <-]. simpl. split; [eexists; reflexivity |].
        split; [reflexivity |]. right. left. exists status, body. auto.
  - intros status cause Hf Hok. unfold fetchGitHubRepoData, fetchGitHubRepoData_body.
    rewrite Hf, Hok. reflexivity.
Qed.

Lemma fetch_failure_is_wrapped_witness :
  @fetchGitHubRepoData Reference.platform Scenario.garbled Sample.facebook_react
  = Throw (mkError "Failed to fetch repository data: Unexpected token < in JSON at position 0")
  /\ begins_with "Failed to fetch repository data: "
       "Failed to fetch repository data: GitHub API error: 404".
Proof.
  destruct (fetch_failure_is_wrapped Reference.platform Scenario.garbled
              Sample.facebook_react) as [_ Hbody].
  destruct (fetch_failure_is_wrapped Reference.platform Sample.not_found
              Sample.facebook_react) as [Hany _].
  split.
  - apply (Hbody 200 (mkError "Unexpected token < in JSON at position 0")); reflexivity.
  - apply (Hany (mkError "Failed to fetch repository data: GitHub API error: 404")).
    reflexivity.
Defined.

Lemma split_not_nil sep s : split sep s <> [].
Proof.
  destruct s as [| c s]; simpl; [discriminate |].
  destruct (Ascii.eqb c sep); [discriminate |].
  destruct (split sep s); discriminate.
Qed.

Lemma split_app sep a b :
  split sep (a ++ String sep b)%string = split sep a ++ split sep b.
Proof.
  induction a as [| c a IH]; simpl.
  - rewrite Ascii.eqb_refl. reflexivity.
  - destruct (Ascii.eqb c sep); [rewrite IH; reflexivity |].
    rewrite IH. pose proof (split_not_nil sep a) as Hne.
    destruct (split sep a) as [| seg segs]; [contradiction | reflexivity].
Qed.

(** X17.  The segments of a path, as line 52 takes them
    ([pathname.split('/').filter(Boolean)]), are those of its parts on
    either side of a slash; hence a doubled slash, a leading slash and a
    trailing slash change nothing. *)
Theorem path_segments_ignore_empty_pieces (a b : string) :
  filter_Boolean (split "/" (a ++ "/" ++ b))
  = filter_Boolean (split "/" a) ++ filter_Boolean (split "/" b)
  /\ filter_Boolean (split "/" (a ++ "//" ++ b))
     = filter_Boolean (split "/" (a ++ "/" ++ b))
  /\ filter_Boolean (split "/" ("/" ++ a)) = filter_Boolean (split "/" a)
  /\ filter_Boolean (split "/" (a ++ "/")) = filter_Boolean (split "/" a).
Proof.
  assert (Hcut : forall x y,
             filter_Boolean (split "/" (x ++ String "/" y))
             = filter_Boolean (split "/" x) ++ filter_Boolean (split "/" y)).
  { intros x y. rewrite split_app. unfold filter_Boolean. apply filter_app. }
  split; [apply (Hcut a b) |].
  split; [| split].
  - change (a ++ "//" ++ b)%string with (a ++ String "/" (String "/" b))%string.
    change (a ++ "/" ++ b)%string with (a ++ String "/" b)%string.
    rewrite !Hcut. change (String "/" b) with ("" ++ String "/" b)%string.
    rewrite Hcut. reflexivity.
  - change ("/" ++ a)%string with ("" ++ String "/" a)%string.
    rewrite Hcut. reflexivity.
  - change (a ++ "/")%string with (a ++ String "/" "")%string.
    rewrite Hcut. apply List.app_nil_r.
Qed.

(** * Further properties of the scores *)

(** ** Rounded ratios in integer terms *)
Module Ranges.

Import Rounding.
Import Binary64.
Import Float64.
Local Open Scope Q_scope.

Lemma Qfloor_ge_iff (k : Z) (x : Q) : (k <= Qfloor x)%Z <-> inject_Z k <= x.
Proof.
  split; intros H.
  - apply Qle_trans with (inject_Z (Qfloor x)); [| apply Qfloor_le].
    rewrite <- Zle_Qle. exact H.
  - rewrite <- (Qfloor_Z k). apply Qfloor_resp_le. exact H.
Qed.

Lemma inject_Z_odd k : inject_Z (2 * k - 1) == 2 * inject_Z k - 1.
Proof.
  replace (2 * k - 1)%Z with (2 * k + (-1))%Z by lia.
  rewrite inject_Z_plus, inject_Z_mult.
  change (inject_Z (-1)) with (- (1)). change (inject_Z 2) with 2. ring.
Qed.

(** The ratio [a / d] rounded to the nearest integer, halves up, is at
    least [k] exactly when [(2 k - 1) d <= 2 a]. *)
Lemma round_half_up_ratio (a d k : Z) :
  (0 < d)%Z ->
  ((k <= Qfloor (inject_Z a / inject_Z d + (1 # 2)))%Z
   <-> ((2 * k - 1) * d <= 2 * a)%Z).
Proof.
  intros Hd. rewrite Qfloor_ge_iff.
  assert (HD : 0 < inject_Z d) by (change 0 with (inject_Z 0); rewrite <- Zlt_Qlt; exact Hd).
  set (q := inject_Z a / inject_Z d).
  assert (Hq : q * inject_Z d == inject_Z a) by (unfold q; field; lra).
  rewrite Zle_Qle, !inject_Z_mult, inject_Z_odd.
  change (inject_Z 2) with 2.
  clearbody q. split; intros H.
  - assert (inject_Z k * (2 * inject_Z d) <= (q + (1 # 2)) * (2 * inject_Z d))
      by (apply Qmult_le_compat_r; lra).
    lra.
  - apply (Qmult_le_r _ _ (2 * inject_Z d)); lra.
Qed.

(** It is a tie exactly when [(2 K - 1) d = 2 a] for the rounded value
    [K]. *)
Lemma tie_ratio (a d : Z) :
  (0 < d)%Z ->
  let K := Qfloor (inject_Z a / inject_Z d + (1 # 2)) in
  inject_Z a / inject_Z d + (1 # 2) == inject_Z K ->
  ((2 * K - 1) * d = 2 * a)%Z.
Proof.
  intros Hd K Htie.
  assert (HD : 0 < inject_Z d) by (change 0 with (inject_Z 0); rewrite <- Zlt_Qlt; exact Hd).
  set (q := inject_Z a / inject_Z d) in *.
  assert (Hq : q * inject_Z d == inject_Z a) by (unfold q; field; lra).
  apply (inject_Z_injective ((2 * K - 1) * d) (2 * a)).
  rewrite !inject_Z_mult, inject_Z_odd.
  change (inject_Z 2) with 2.
  clearbody q K.
  assert (Hk : inject_Z K == q + (1 # 2)) by (symmetry; exact Htie).
  rewrite Hk. lra.
Qed.

(** The health score in integer terms: with [d = stars + 1] and
    [a = 100 (d - issues)], it is the ratio [a / d] rounded half up, or
    one less at a tie. *)
Lemma healthScore_integral s i :
  (0 <= s < 2 ^ 42)%Z -> (0 <= i < 2 ^ 42)%Z ->
  exists n K,
    to_Z (healthScore s i) = Some n
    /\ (forall k, (k <= K <-> (2 * k - 1) * (s + 1) <= 200 * (s + 1 - i))%Z)
    /\ (n = K \/ (n = K - 1 /\ (2 * K - 1) * (s + 1) = 200 * (s + 1 - i))%Z).
Proof.
  intros Hs Hi.
  destruct (healthScore_close s i Hs Hi) as (n & Hn & Hcases).
  assert (Hd : (0 < s + 1)%Z) by lia.
  assert (HD : 0 < inject_Z (s + 1))
    by (change 0 with (inject_Z 0); rewrite <- Zlt_Qlt; exact Hd).
  assert (Ht : (1 - inject_Z i / inject_Z (s + 1)) * 100
               == inject_Z (100 * (s + 1 - i)) / inject_Z (s + 1)).
  { assert (Ha : inject_Z (100 * (s + 1 - i))
                  == 100 * (inject_Z (s + 1) - inject_Z i)).
    { rewrite inject_Z_mult. change (inject_Z 100) with 100.
      replace (s + 1 - i)%Z with ((s + 1) + - i)%Z by lia.
      rewrite (inject_Z_plus (s + 1) (- i)), inject_Z_opp. ring. }
    rewrite Ha. field. lra. }
  assert (HK : Qfloor ((1 - inject_Z i / inject_Z (s + 1)) * 100 + (1 # 2))
               = Qfloor (inject_Z (100 * (s + 1 - i)) / inject_Z (s + 1) + (1 # 2))).
  { apply Qfloor_comp. rewrite Ht. reflexivity. }
  cbv zeta in Hcases. rewrite HK in Hcases.
  set (a := (100 * (s + 1 - i))%Z) in *.
  exists n, (Qfloor (inject_Z a / inject_Z (s + 1) + (1 # 2))).
  split; [exact Hn |]. split.
  - intros k. rewrite (round_half_up_ratio a (s + 1) k Hd). unfold a. lia.
  - destruct Hcases as [-> | [Htie ->]]; [left; reflexivity | right].
    split; [reflexivity |].
    rewrite Ht in Htie. pose proof (tie_ratio a (s + 1) Hd Htie) as H.
    cbv zeta in H. subst a. lia.
Qed.

(** The trending factor in integer terms: the ratio
    [10 stars / (forks + 1)] rounded half up. *)
Lemma trendingFactor_integral s f :
  (0 <= s < 2 ^ 46)%Z -> (0 <= f)%Z -> (f + 1 < 2 ^ 53)%Z ->
  exists n,
    to_Z (trendingFactor s f) = Some n
    /\ forall k, (k <= n <-> (2 * k - 1) * (f + 1) <= 20 * s)%Z.
Proof.
  intros Hs Hf Hf1.
  assert (Hd : (0 < f + 1)%Z) by lia.
  assert (HD : 0 < inject_Z (f + 1))
    by (change 0 with (inject_Z 0); rewrite <- Zlt_Qlt; exact Hd).
  assert (Ht : inject_Z s / inject_Z (f + 1) * 10
               == inject_Z (10 * s) / inject_Z (f + 1)).
  { rewrite inject_Z_mult. change (inject_Z 10) with 10. field. lra. }
  eexists. split; [apply (trendingFactor_exact s f Hs Hf Hf1) |].
  intros k.
  replace (Qfloor (inject_Z s / inject_Z (f + 1) * 10 + (1 # 2)))
    with (Qfloor (inject_Z (10 * s) / inject_Z (f + 1) + (1 # 2)))
    by (apply Qfloor_comp; rewrite Ht; reflexivity).
  rewrite (round_half_up_ratio (10 * s) (f + 1) k Hd). lia.
Qed.

(** The day count in integer terms: the age in milliseconds over
    86400000, rounded half up. *)
Lemma elapsed_days_integral now t :
  (Z.abs now < 2 ^ 52)%Z -> (Z.abs t < 2 ^ 52)%Z ->
  exists n,
    to_Z (elapsed_days now t) = Some n
    /\ forall k, (k <= n <-> (2 * k - 1) * 43200000 <= now - t)%Z.
Proof.
  intros Hnow Ht.
  assert (H53 : (2 ^ 53 = 2 * 2 ^ 52)%Z) by reflexivity.
  eexists. split; [apply (elapsed_days_exact now t); lia |].
  intros k. rewrite (round_half_up_ratio (now - t) 86400000 k); lia.
Qed.

(** For counts below 2^53 the trending factor is a non-negative
    integer: the denominator is never zero and nothing overflows. *)
Lemma trendingFactor_finite s f :
  (0 <= s < 2 ^ 53)%Z -> (0 <= f)%Z -> (f + 1 < 2 ^ 53)%Z ->
  exists n, to_Z (trendingFactor s f) = Some n /\ (0 <= n)%Z.
Proof.
  intros [Hs0 Hs1] Hf Hf1. unfold trendingFactor.
  assert (Hd1 : 1 <= inject_Z (f + 1)) by (apply inject_Z_pos_le1; lia).
  destruct (Z.eq_dec s 0) as [-> | Hsn].
  { exists 0%Z. split; [| lia].
    destruct (add_one_exact f Hf Hf1) as (Hfb & _ & Hqb).
    destruct (add (of_Z f) (of_Z 1)) as [sb | sb | | sb mb eb]; try contradiction.
    - exfalso. cbn [B2Q] in Hqb. lra.
    - change (of_Z 0) with (S754_zero false). unfold div; cbn [SFdiv].
      destruct sb; reflexivity. }
  assert (Hs : (0 < s)%Z) by lia.
  destruct (ratio_rounded s f Hs Hs1 Hf Hf1) as (Hqlo & Hqhi & Hcr).
  set (q := inject_Z s / inject_Z (f + 1)) in *.
  set (x := div (of_Z s) (add (of_Z f) (of_Z 1))) in *.
  assert (Hq0 : 0 < q).
  { apply Qlt_le_trans with (bpow (-53)); [apply bpow_pos | exact Hqlo]. }
  assert (Hsq : inject_Z s <= 9007199254740992).
  { change 9007199254740992 with (inject_Z (2 ^ 53)). rewrite <- Zle_Qle. lia. }
  pose proof eta_small as Heta.
  pose proof (error_bound q x Hcr) as He.
  rewrite u_value, (Qabs_pos q) in He by lra.
  destruct Hcr as (Hfx & Hvx & E & Hr & _).
  assert (HX0 : 0 <= B2Q x).
  { pose proof (rounded_above_grid q (B2Q x) E 0 Hr) as H0.
    change (inject_Z 0) with 0 in H0. rewrite Qmult_0_l in H0. apply H0. lra. }
  apply Qabs_Qle_condition in He. destruct He as [_ He].
  destruct (of_Z_correct 10 ltac:(reflexivity)) as (Hf10 & Hv10 & Hq10).
  change (inject_Z 10) with 10 in Hq10.
  assert (Hrange : Qabs (B2Q x * B2Q (of_Z 10)) < bpow 1023).
  { rewrite Hq10. apply Qle_lt_trans with (bpow 60); [| apply bpow_lt; lia].
    change (bpow 60) with 1152921504606846976. apply Qabs_bound; lra. }
  destruct (mul_correct x (of_Z 10) Hfx Hf10 Hvx Hv10 Hrange) as (Hfy & _ & Hz & Hnz).
  set (y := mul x (of_Z 10)) in *.
  rewrite (Math_round_spec y Hfy). eexists. split; [reflexivity |].
  assert (HY0 : 0 <= B2Q y).
  { destruct (Qeq_dec (B2Q x * B2Q (of_Z 10)) 0) as [H0 | Hn].
    - rewrite (Hz H0). apply Qle_refl.
    - destruct (Hnz Hn) as (_ & _ & E2 & Hr2 & _).
      pose proof (rounded_above_grid _ (B2Q y) E2 0 Hr2) as H0.
      change (inject_Z 0) with 0 in H0. rewrite Qmult_0_l in H0. apply H0.
      rewrite Hq10. lra. }
  apply Qfloor_ge_iff. change (inject_Z 0) with 0. lra.
Qed.

(** For counts below 2^53 the health score is an integer: the
    denominator is never zero and nothing overflows. *)
Lemma healthScore_finite s i :
  (0 <= s)%Z -> (s + 1 < 2 ^ 53)%Z -> (0 <= i < 2 ^ 53)%Z ->
  exists n, to_Z (healthScore s i) = Some n.
Proof.
  intros Hs0 Hs1 [Hi0 Hi1]. unfold healthScore.
  assert (Hd1 : 1 <= inject_Z (s + 1)) by (apply inject_Z_pos_le1; lia).
  destruct (Z.eq_dec i 0) as [-> | Hin].
  { exists 100%Z.
    destruct (add_one_exact s Hs0 Hs1) as (Hfb & _ & Hqb).
    destruct (add (of_Z s) (of_Z 1)) as [sb | sb | | sb mb eb]; try contradiction.
    - exfalso. cbn [B2Q] in Hqb. lra.
    - change (of_Z 0) with (S754_zero false). unfold div; cbn [SFdiv].
      destruct sb; reflexivity. }
  assert (Hi : (0 < i)%Z) by lia.
  destruct (ratio_rounded i s Hi Hi1 Hs0 Hs1) as (Hrlo & Hrhi & Hcr).
  set (r := inject_Z i / inject_Z (s + 1)) in *.
  set (a := div (of_Z i) (add (of_Z s) (of_Z 1))) in *.
  assert (Hr0 : 0 < r).
  { apply Qlt_le_trans with (bpow (-53)); [apply bpow_pos | exact Hrlo]. }
  assert (Hiq : inject_Z i <= 9007199254740992).
  { change 9007199254740992 with (inject_Z (2 ^ 53)). rewrite <- Zle_Qle. lia. }
  pose proof eta_small as Heta. pose proof (bpow_pos (-1075)) as Heta0.
  fold eta in Heta0.
  pose proof (error_bound r a Hcr) as HeA.
  rewrite u_value, (Qabs_pos r) in HeA by lra.
  destruct Hcr as (Hfa & Hva & Ea & Hra & _).
  assert (HA0 : 0 <= B2Q a).
  { pose proof (rounded_above_grid r (B2Q a) Ea 0 Hra) as H0.
    change (inject_Z 0) with 0 in H0. rewrite Qmult_0_l in H0. apply H0. lra. }
  apply Qabs_Qle_condition in HeA. destruct HeA as [_ HeA].
  destruct (of_Z_correct 1 ltac:(reflexivity)) as (Hf1 & Hv1 & Hq1).
  change (inject_Z 1) with 1 in Hq1.
  assert (Hab1 : Qabs (1 - B2Q a) <= 1 + B2Q a) by (apply Qabs_bound; lra).
  assert (Hrange1 : Qabs (B2Q (of_Z 1) - B2Q a) < bpow 1023).
  { rewrite Hq1. apply Qle_lt_trans with (bpow 60); [| apply bpow_lt; lia].
    change (bpow 60) with 1152921504606846976. lra. }
  destruct (sub_error (of_Z 1) a Hf1 Hfa Hv1 Hva Hrange1) as (Hfb & Hvb & HeB).
  set (b := sub (of_Z 1) a) in *.
  rewrite Hq1, u_value in HeB.
  assert (HeB' : Qabs (B2Q b - (1 - B2Q a)) <= (1 + B2Q a) + eta).
  { assert ((1 # 9007199254740992) * Qabs (1 - B2Q a) <= 1 * Qabs (1 - B2Q a))
      by (apply Qmult_le_compat_r; [discriminate | apply Qabs_nonneg]).
    lra. }
  clear HeB. apply Qabs_Qle_condition in HeB'. destruct HeB' as [HeB1 HeB2].
  apply Qabs_Qle_condition in Hab1. destruct Hab1 as [Hab1 Hab2].
  destruct (of_Z_correct 100 ltac:(reflexivity)) as (Hf100 & Hv100 & Hq100).
  change (inject_Z 100) with 100 in Hq100.
  assert (Hrange2 : Qabs (B2Q b * B2Q (of_Z 100)) < bpow 1023).
  { rewrite Hq100. apply Qle_lt_trans with (bpow 70); [| apply bpow_lt; lia].
    change (bpow 70) with 1180591620717411303424. apply Qabs_bound; lra. }
  destruct (mul_correct b (of_Z 100) Hfb Hf100 Hvb Hv100 Hrange2) as (Hfc & _).
  rewrite (Math_round_spec _ Hfc). eexists. reflexivity.
Qed.

(** [n > k] on a rounded Number that is an integer. *)
Lemma gt_integer N n k : to_Z N = Some n -> View.gt N k = (k <? n)%Z.
Proof. destruct N; simpl; intros [= <-]; reflexivity. Qed.

End Ranges.

(** ** The scores of a record *)

Section Scores.
Context {P : Platform}.

Lemma record_scores env data stars forks issues :
  stargazers_count data = of_Z stars ->
  forks_count data = of_Z forks ->
  open_issues_count data = of_Z issues ->
  healthscore (repoData env data) = Binary64.healthScore stars issues
  /\ trendingfactor (repoData env data) = Binary64.trendingFactor stars forks.
Proof.
  intros Hs Hf Hi. unfold repoData, Binary64.healthScore, Binary64.trendingFactor; simpl.
  rewrite Hs, Hf, Hi. split; reflexivity.
Qed.

Lemma record_activity env data s t :
  pushed_at data = JSString s ->
  Date_parse s = Some t ->
  activitylevel (repoData env data)
  = (Integral_toString (Binary64.elapsed_days (Date_now env) t) ++ " days")%string.
Proof.
  intros Hs Ht. unfold repoData; simpl. rewrite Hs. simpl.
  destruct (String.eqb_spec s "") as [-> | _];
    [rewrite Date_parse_empty in Ht; discriminate |].
  simpl. rewrite Ht. reflexivity.
Qed.

End Scores.

(** X18.  Adding one to the divisors does its job: for all counts the
    payload can carry as exact integers (below 2^53), the two scores of
    the record are integers, never NaN nor an infinity, and the trending
    factor is not negative. *)
Theorem scores_are_always_integers (P : Platform) env data stars forks issues :
  stargazers_count data = of_Z stars ->
  forks_count data = of_Z forks ->
  open_issues_count data = of_Z issues ->
  0 <= stars -> stars + 1 < 2 ^ 53 ->
  0 <= forks -> forks + 1 < 2 ^ 53 ->
  0 <= issues < 2 ^ 53 ->
  exists h t,
    Binary64.to_Z (healthscore (repoData env data)) = Some h
    /\ Binary64.to_Z (trendingfactor (repoData env data)) = Some t
    /\ 0 <= t.
Proof.
  intros Hs Hf Hi Hs0 Hs1 Hf0 Hf1 Hi01.
  destruct (record_scores env data stars forks issues Hs Hf Hi) as [-> ->].
  destruct (Ranges.healthScore_finite stars issues Hs0 Hs1 Hi01) as (h & Hh).
  assert (Hs2 : 0 <= stars < 2 ^ 53) by lia.
  destruct (Ranges.trendingFactor_finite stars forks Hs2 Hf0 Hf1) as (t & Ht & Ht0).
  exists h, t. auto.
Qed.

Lemma scores_are_always_integers_witness :
  exists h t,
    Binary64.to_Z (healthscore
                     (@repoData Reference.platform (Sample.online Sample.react)
                        (Sample.snapshot 0 9007199254740990 9007199254740991 JSNull JSNull)))
    = Some h
    /\ Binary64.to_Z (trendingfactor
                        (@repoData Reference.platform (Sample.online Sample.react)
                           (Sample.snapshot 0 9007199254740990 9007199254740991 JSNull JSNull)))
       = Some t
    /\ 0 <= t.
Proof.
  apply (scores_are_always_integers Reference.platform (Sample.online Sample.react)
           (Sample.snapshot 0 9007199254740990 9007199254740991 JSNull JSNull)
           0 9007199254740990 9007199254740991); try reflexivity; lia.
Defined.

(** X19.  The range of the health score, for counts below 2^42: it never
    exceeds 100 and is 100 when there is no open issue; it is not negative
    as long as the issues do not outnumber the stars plus one, and not
    positive once they reach that number. *)
Theorem health_score_range (P : Platform) env data stars issues :
  stargazers_count data = of_Z stars ->
  open_issues_count data = of_Z issues ->
  0 <= stars < 2 ^ 42 -> 0 <= issues < 2 ^ 42 ->
  exists h,
    Binary64.to_Z (healthscore (repoData env data)) = Some h
    /\ h <= 100
    /\ (issues = 0 -> h = 100)
    /\ (issues <= stars + 1 -> 0 <= h)
    /\ (stars + 1 <= issues -> h <= 0).
Proof.
  intros Hs Hi Hs0 Hi0.
  assert (Hscore : healthscore (repoData env data) = Binary64.healthScore stars issues).
  { unfold repoData, Binary64.healthScore; simpl. rewrite Hs, Hi. reflexivity. }
  rewrite Hscore.
  destruct (Ranges.healthScore_integral stars issues Hs0 Hi0) as (n & K & Hn & HK & Hcases).
  exists n. split; [exact Hn |].
  pose proof (HK 101) as H101. pose proof (HK 100) as H100.
  pose proof (HK 0) as H0. pose proof (HK 1) as H1.
  assert (HnK : n <= K) by (destruct Hcases as [-> | [-> _]]; lia).
  repeat split.
  - lia.
  - intros ->. destruct Hcases as [-> | [-> Htie]]; [lia |].
    assert (K = 100) by lia. subst K. lia.
  - intros Hle. destruct Hcases as [-> | [-> Htie]]; [lia |].
    destruct (Z.eq_dec K 0) as [-> | HK0]; lia.
  - intros Hge. lia.
Qed.

Lemma health_score_range_witness :
  exists h,
    Binary64.to_Z (healthscore
                     (@repoData Reference.platform (Sample.online Sample.react)
                        (Sample.snapshot 39 0 17 JSNull JSNull)))
    = Some h
    /\ h <= 100
    /\ (17 = 0 -> h = 100)
    /\ (17 <= 39 + 1 -> 0 <= h)
    /\ (39 + 1 <= 17 -> h <= 0).
Proof.
  apply (health_score_range Reference.platform (Sample.online Sample.react)
           (Sample.snapshot 39 0 17 JSNull JSNull) 39 17); try reflexivity; lia.
Defined.

(** X20.  The trending factor, for stars below 2^46: more stars or fewer
    forks never lower it, and it is zero exactly when twenty times the
    stars stay below the forks plus one. *)
Theorem trending_factor_is_monotone (P : Platform) env data data'
    stars stars' forks forks' :
  stargazers_count data = of_Z stars -> forks_count data = of_Z forks ->
  stargazers_count data' = of_Z stars' -> forks_count data' = of_Z forks' ->
  0 <= stars <= stars' -> stars' < 2 ^ 46 ->
  0 <= forks' <= forks -> forks + 1 < 2 ^ 53 ->
  exists t t',
    Binary64.to_Z (trendingfactor (repoData env data)) = Some t
    /\ Binary64.to_Z (trendingfactor (repoData env data')) = Some t'
    /\ 0 <= t <= t'
    /\ (t = 0 <-> 20 * stars < forks + 1).
Proof.
  intros Hs Hf Hs' Hf' Hss Hs46 Hff Hf53.
  assert (Hscore : forall d s f,
             stargazers_count d = of_Z s -> forks_count d = of_Z f ->
             trendingfactor (repoData env d) = Binary64.trendingFactor s f).
  { intros d s f H1 H2. unfold repoData, Binary64.trendingFactor; simpl.
    rewrite H1, H2. reflexivity. }
  rewrite (Hscore data stars forks Hs Hf), (Hscore data' stars' forks' Hs' Hf').
  destruct (Ranges.trendingFactor_integral stars forks) as (t & Ht & Hk); try lia.
  destruct (Ranges.trendingFactor_integral stars' forks') as (t' & Ht' & Hk'); try lia.
  exists t, t'. split; [exact Ht | split; [exact Ht' |]].
  pose proof (Hk 0) as H0. pose proof (Hk 1) as H1. pose proof (Hk' 0) as H0'.
  assert (Ht0 : 0 <= t) by lia.
  assert (Hmono : t <= t').
  { destruct (Z.eq_dec t 0) as [-> | Hpos]; [lia |].
    apply Hk'. pose proof (proj1 (Hk t) (Z.le_refl t)) as Hle.
    apply Z.le_trans with ((2 * t - 1) * (forks + 1)); [| lia].
    apply Z.mul_le_mono_nonneg_l; lia. }
  repeat split; try lia.
Qed.

Lemma trending_factor_is_monotone_witness :
  exists t t',
    Binary64.to_Z (trendingfactor
                     (@repoData Reference.platform (Sample.online Sample.react)
                        (Sample.snapshot 0 9 10 JSNull JSNull))) = Some t
    /\ Binary64.to_Z (trendingfactor
                        (@repoData Reference.platform (Sample.online Sample.react)
                           Sample.react)) = Some t'
    /\ 0 <= t <= t'
    /\ (t = 0 <-> 20 * 0 < 9 + 1).
Proof.
  apply (trending_factor_is_monotone Reference.platform (Sample.online Sample.react)
           (Sample.snapshot 0 9 10 JSNull JSNull) Sample.react 0 100 9 9);
    try reflexivity; lia.
Defined.

(** X21.  The label counts the age of the last push to the nearest day, a
    half day counting as a full one: an age of at least [k - 1/2] and less
    than [k + 1/2] days is written "k days".  In particular a push less
    than twelve hours old, or up to twelve hours ahead of the local clock,
    is written "0 days". *)
Theorem day_count_rounds_to_the_nearest_day (P : Platform) env data s t k :
  pushed_at data = JSString s ->
  Date_parse s = Some t ->
  Z.abs (Date_now env) < 2 ^ 52 -> Z.abs t < 2 ^ 52 ->
  (2 * k - 1) * 43200000 <= Date_now env - t < (2 * k + 1) * 43200000 ->
  activitylevel (repoData env data) = (Z_toString k ++ " days")%string.
Proof.
  intros Hs Ht Hnow Hpush Hk.
  rewrite (record_activity env data s t Hs Ht).
  destruct (Ranges.elapsed_days_integral (Date_now env) t Hnow Hpush) as (n & Hn & Hchar).
  assert (n = k).
  { pose proof (proj2 (Hchar k)) as H1. pose proof (proj1 (Hchar (k + 1))) as H2.
    pose proof (proj1 (Hchar n) (Z.le_refl n)) as H3.
    pose proof (proj2 (Hchar (n + 1))) as H4.
    destruct (Z_lt_le_dec n k) as [Hlt | Hge]; [lia |].
    destruct (Z_lt_le_dec k n) as [Hlt | Hle]; [| lia].
    exfalso. assert (k + 1 <= n) by lia. lia. }
  subst n.
  rewrite (Integral_toString_integer _ k Hn); [reflexivity |].
  assert (H53 : 2 ^ 53 = 2 * 2 ^ 52) by reflexivity.
  lia.
Qed.

Lemma day_count_rounds_to_the_nearest_day_witness :
  activitylevel
    (@repoData Reference.platform
       {| fetch := fun _ => Response 200 (BodyData Sample.react);
          Date_now := 1704067200000 - 43200000;
          Date_new := 0; insert_fault := None; select_fault := None |}
       Sample.react)
  = "0 days"
  /\ activitylevel
       (@repoData Reference.platform
          {| fetch := fun _ => Response 200 (BodyData Sample.react);
             Date_now := 1704067200000 + 43200000;
             Date_new := 0; insert_fault := None; select_fault := None |}
          Sample.react)
     = "1 days".
Proof.
  split.
  - apply (day_count_rounds_to_the_nearest_day Reference.platform _ Sample.react
             "2024-01-01T00:00:00Z" 1704067200000 0); try reflexivity; simpl; lia.
  - apply (day_count_rounds_to_the_nearest_day Reference.platform _ Sample.react
             "2024-01-01T00:00:00Z" 1704067200000 1); try reflexivity; simpl; lia.
Defined.

(** ** The badges of a card *)

(** X22.  The badge beside the health score, in terms of the counts (below
    2^42), with [d = stars + 1]: strong when the issues stay below 19.5%
    of [d], doubtful when they exceed 49.5% of it, fair in between.  (At
    the two ratios themselves the exact score is a tie and the badge
    depends on the rounding of the quotient.) *)
Theorem health_badge_follows_the_counts (P : Platform) env data stars issues :
  stargazers_count data = of_Z stars ->
  open_issues_count data = of_Z issues ->
  0 <= stars < 2 ^ 42 -> 0 <= issues < 2 ^ 42 ->
  let r := repoData env data in
  (200 * issues < 39 * (stars + 1) -> View.health_badge r = "💪")
  /\ (39 * (stars + 1) < 200 * issues < 99 * (stars + 1) ->
      View.health_badge r = "👍")
  /\ (99 * (stars + 1) < 200 * issues -> View.health_badge r = "🤔").
Proof.
  intros Hs Hi Hs0 Hi0 r. subst r.
  assert (Hscore : healthscore (repoData env data) = Binary64.healthScore stars issues).
  { unfold repoData, Binary64.healthScore; simpl. rewrite Hs, Hi. reflexivity. }
  destruct (Ranges.healthScore_integral stars issues Hs0 Hi0) as (n & K & Hn & HK & Hcases).
  unfold View.health_badge. rewrite Hscore, !(Ranges.gt_integer _ n _ Hn).
  pose proof (HK 81) as H81. pose proof (HK 82) as H82.
  pose proof (HK 51) as H51. pose proof (HK 52) as H52.
  assert (HnK : n <= K) by (destruct Hcases as [-> | [-> _]]; lia).
  repeat split.
  - intros Hlt. assert (81 <= n).
    { destruct Hcases as [-> | [-> Htie]]; [lia |].
      destruct (Z.eq_dec K 81) as [-> | Hne]; lia. }
    destruct (Z.ltb_spec 80 n); [reflexivity | lia].
  - intros [Hlo Hhi]. assert (51 <= n <= 80).
    { split; [| lia].
      destruct Hcases as [-> | [-> Htie]]; [lia |].
      destruct (Z.eq_dec K 51) as [-> | Hne]; lia. }
    destruct (Z.ltb_spec 80 n); [lia |].
    destruct (Z.ltb_spec 50 n); [reflexivity | lia].
  - intros Hgt. assert (n <= 50) by lia.
    destruct (Z.ltb_spec 80 n); [lia |].
    destruct (Z.ltb_spec 50 n); [lia | reflexivity].
Qed.

Lemma health_badge_follows_the_counts_witness :
  View.health_badge Scenario.react_record = "💪"
  /\ View.health_badge
       (@repoData Reference.platform (Sample.online Sample.react)
          (Sample.snapshot 39 0 17 JSNull JSNull)) = "👍"
  /\ View.health_badge
       (@repoData Reference.platform (Sample.online Sample.react)
          (Sample.snapshot 0 0 50 JSNull JSNull)) = "🤔".
Proof.
  split; [| split].
  - apply (health_badge_follows_the_counts Reference.platform
             (Sample.online Sample.react) Sample.react 100 10);
      try reflexivity; lia.
  - apply (health_badge_follows_the_counts Reference.platform
             (Sample.online Sample.react) (Sample.snapshot 39 0 17 JSNull JSNull) 39 17);
      try reflexivity; lia.
  - apply (health_badge_follows_the_counts Reference.platform
             (Sample.online Sample.react) (Sample.snapshot 0 0 50 JSNull JSNull) 0 50);
      try reflexivity; lia.
Defined.

(** X23.  The badge beside the trending factor, in terms of the counts
    (stars below 2^46), with [d = forks + 1]: a rocket from 10.05 stars
    per [d] on, a rising chart from 5.05 on, a bar chart below. *)
Theorem trending_badge_follows_the_counts (P : Platform) env data stars forks :
  stargazers_count data = of_Z stars ->
  forks_count data = of_Z forks ->
  0 <= stars < 2 ^ 46 -> 0 <= forks -> forks + 1 < 2 ^ 53 ->
  let r := repoData env data in
  (201 * (forks + 1) <= 20 * stars <-> View.trending_badge r = "🚀")
  /\ (101 * (forks + 1) <= 20 * stars < 201 * (forks + 1)
      <-> View.trending_badge r = "📈")
  /\ (20 * stars < 101 * (forks + 1) <-> View.trending_badge r = "📊").
Proof.
  intros Hs Hf Hs0 Hf0 Hf1 r. subst r.
  assert (Hscore : trendingfactor (repoData env data) = Binary64.trendingFactor stars forks).
  { unfold repoData, Binary64.trendingFactor; simpl. rewrite Hs, Hf. reflexivity. }
  destruct (Ranges.trendingFactor_integral stars forks Hs0 Hf0 Hf1) as (n & Hn & Hk).
  unfold View.trending_badge. rewrite Hscore, !(Ranges.gt_integer _ n _ Hn).
  pose proof (Hk 101) as H101. pose proof (Hk 51) as H51.
  destruct (Z.ltb_spec 100 n) as [Hr | Hr]; [| destruct (Z.ltb_spec 50 n) as [Hc | Hc]];
    (split; [| split]);
    (split; intros Hx; [first [reflexivity | lia] | first [lia | discriminate Hx]]).
Qed.

Lemma trending_badge_follows_the_counts_witness :
  View.trending_badge Scenario.react_record = "📈"
  /\ (201 * (9 + 1) <= 20 * 100 <-> View.trending_badge Scenario.react_record = "🚀").
Proof.
  destruct (trending_badge_follows_the_counts Reference.platform
              (Sample.online Sample.react) Sample.react 100 9)
    as (Hrocket & Hchart & _); try reflexivity; try lia.
  split; [apply Hchart; lia | exact Hrocket].
Defined.
